(** * Orbit capture timeline: the [TimeGraph] orchestrator

    A shallow embedding of [OrbitGl/TimeGraph.cpp]: track bookkeeping
    ([GetOrCreate*Track], [Clear]), timer ingestion ([ProcessTimer]), the
    viewport transforms and zoom, the periodic track sort, same-function
    navigation and sample selection, followed by the properties the
    specification states about them.

    Conventions.
    - [uint64_t] ([TickType], addresses, hashes) and [uint32_t] ([ThreadID],
      counters) are [N]; every place where the C++ arithmetic can wrap or
      truncate is written with [wrap64] / [wrap32].
    - [double] and [float] are IEEE 754 binary64 / binary32 values of
      [SpecFloat.spec_float]; conversions between the two are explicit.
    - A [std::shared_ptr<Track>] is an index into the object store
      [objects]; [nullptr] is [None].  The store only grows, so the aliasing
      between [tracks_], the lookup maps, [sorted_tracks_] and the two
      distinguished members is the aliasing of the program.
    - Dereferencing a null or dangling pointer makes an operation return
      [None]. *)

From Stdlib Require Import ZArith NArith List String Ascii Bool Lia SpecFloat.
From stdpp Require Import base option list gmap sets strings sorting pretty.

Local Open Scope N_scope.

(** ** Machine integers *)

Definition UINT32_MOD : N := 2 ^ 32.
Definition UINT64_MOD : N := 2 ^ 64.
Definition UINT64_MAX : N := UINT64_MOD - 1.

Definition wrap32 (n : N) : N := n mod UINT32_MOD.
Definition wrap64 (n : N) : N := n mod UINT64_MOD.

(** ** IEEE 754 arithmetic of [double] and [float] *)

Abbreviation double := spec_float.
Abbreviation float := spec_float.

Module Fp.

Definition dprec : Z := 53.
Definition demax : Z := 1024.
Definition fprec : Z := 24.
Definition femax : Z := 128.

Definition dadd : double -> double -> double := SFadd dprec demax.
Definition dsub : double -> double -> double := SFsub dprec demax.
Definition dmul : double -> double -> double := SFmul dprec demax.
Definition ddiv : double -> double -> double := SFdiv dprec demax.
Definition fsub : float -> float -> float := SFsub fprec femax.
Definition fdiv : float -> float -> float := SFdiv fprec femax.

(** C++ comparison operators; every comparison with a NaN is false except
    [!=], which is true. *)
Definition lt (x y : spec_float) : bool := SFltb x y.
Definition gt (x y : spec_float) : bool := SFltb y x.
Definition ne (x y : spec_float) : bool := negb (SFeqb x y).

Definition is_zero (x : spec_float) : bool :=
  match x with S754_zero _ => true | _ => false end.

(** [std::max(a, b)] is [(a < b) ? b : a]; [std::min(a, b)] is
    [(b < a) ? b : a]. *)
Definition std_max (a b : double) : double := if lt a b then b else a.
Definition std_min (a b : double) : double := if lt b a then b else a.

(** [static_cast<double>(float)] is exact, [float(double)] rounds to
    nearest even. *)
Definition renorm (prec emax : Z) (x : spec_float) : spec_float :=
  match x with
  | S754_finite s m e => binary_round prec emax s m e
  | _ => x
  end.
Definition to_double : float -> double := renorm dprec demax.
Definition to_float : double -> float := renorm fprec femax.

Definition zero : spec_float := S754_zero false.
Definition of_pos (prec emax : Z) (p : positive) : spec_float :=
  binary_round prec emax false p 0.
Definition d_one : double := of_pos dprec demax 1.
(** The literals [0.1], [0.001] and [1000.0] as the compiler rounds them. *)
Definition d_0_1 : double := S754_finite false 7205759403792794 (-56).
Definition d_0_001 : double := S754_finite false 4611686018427388 (-62).
Definition d_1000 : double := S754_finite false 8796093022208000 (-43).

(** A division whose divisor is a zero is flagged instead of carried out. *)
Definition checked_div (div : spec_float -> spec_float -> spec_float)
    (x y : spec_float) : option spec_float :=
  if is_zero y then None else Some (div x y).

End Fp.

(** ** Records delivered by the capture session *)

Inductive TimerType : Set :=
| NONE
| CORE_ACTIVITY
| INTROSPECTION
| GPU_ACTIVITY.

#[global] Instance TimerType_eq_dec : EqDecision TimerType.
Proof. solve_decision. Defined.

Record Timer : Set := {
  m_TID : N;
  m_Processor : N;
  m_Start : N;
  m_End : N;
  m_FunctionAddress : N;
  m_Type : TimerType;
  m_UserData : N * N
}.

#[global] Instance Timer_eq_dec : EqDecision Timer.
Proof. solve_decision. Defined.

Record CallstackEvent : Set := {
  m_Time : N;
  m_Id : N;
  ce_TID : N
}.

#[global] Instance CallstackEvent_eq_dec : EqDecision CallstackEvent.
Proof. solve_decision. Defined.

Record CallStack : Set := {
  m_Hash : N;
  m_Data : list N;
  m_ThreadId : N
}.

Definition CallStack_set_ThreadId (tid : N) (c : CallStack) : CallStack :=
  {| m_Hash := m_Hash c; m_Data := m_Data c; m_ThreadId := tid |}.

(** A [TextBox] is a timer with its geometry; only the timer is read by the
    code modelled here. *)
Record TextBox : Set := { GetTimer : Timer }.

#[global] Instance TextBox_eq_dec : EqDecision TextBox.
Proof. solve_decision. Defined.

(** ** Timer storage

    Modelled from the spec: [TimerBlock] and [TimerChain] live in a header
    that is not part of the sources at hand.  A chain is an ordered sequence
    of blocks; a block is a fixed-capacity, append-only run of records with
    a cached [[min, max]] time range ([min] over the start ticks, [max] over
    the end ticks); [Append] writes into the last block and links a new one
    when it is full; [Intersects] compares the cached range against the
    query range. *)

Record TimerBlock : Set := {
  data_ : list TextBox;
  min_timestamp_ : N;
  max_timestamp_ : N
}.

Definition TimerChain := list TimerBlock.

Definition TimerBlock_empty : TimerBlock :=
  {| data_ := []; min_timestamp_ := UINT64_MAX; max_timestamp_ := 0 |}.

Definition TimerBlock_Add (box : TextBox) (b : TimerBlock) : TimerBlock :=
  {| data_ := data_ b ++ [box];
     min_timestamp_ := N.min (m_Start (GetTimer box)) (min_timestamp_ b);
     max_timestamp_ := N.max (m_End (GetTimer box)) (max_timestamp_ b) |}.

Definition TimerBlock_size (b : TimerBlock) : nat := length (data_ b).

Definition Intersects (b : TimerBlock) (t0 t1 : N) : bool :=
  (t0 <=? max_timestamp_ b) && (min_timestamp_ b <=? t1).

Fixpoint TimerChain_Append (capacity : nat) (box : TextBox)
    (chain : TimerChain) : TimerChain :=
  match chain with
  | [] => [TimerBlock_Add box TimerBlock_empty]
  | b :: rest =>
      match rest with
      | [] =>
          if (TimerBlock_size b <? capacity)%nat
          then [TimerBlock_Add box b]
          else [b; TimerBlock_Add box TimerBlock_empty]
      | _ :: _ => b :: TimerChain_Append capacity box rest
      end
  end.

Definition TimerChain_boxes (chain : TimerChain) : list TextBox :=
  concat (data_ <$> chain).

Definition TimerChain_size (chain : TimerChain) : nat :=
  length (TimerChain_boxes chain).

(** ** Tracks *)

Record Color : Set := { red : N; green : N; blue : N; alpha : N }.

Inductive TrackType : Set := kSchedulerTrack | kThreadTrack | kGpuTrack.

#[global] Instance TrackType_eq_dec : EqDecision TrackType.
Proof. solve_decision. Defined.

(** Modelled from the spec: the [Track] classes are not part of the sources
    at hand.  A track has a key (thread id, gpu timeline hash, or none for
    the scheduler), a type tag, an owned timer chain, a running minimum
    start time, a display name and label, and colours. *)
#[projections(primitive)] Record Track : Set := {
  type_ : TrackType;
  thread_id_ : N;
  timeline_hash_ : N;
  timers_ : TimerChain;
  min_time_ : N;
  name_ : string;
  label_ : string;
  color_ : Color;
  event_track_color_ : Color
}.

Definition Track_with_timers (c : TimerChain) (mn : N) (t : Track) : Track :=
  {| type_ := type_ t; thread_id_ := thread_id_ t;
     timeline_hash_ := timeline_hash_ t; timers_ := c; min_time_ := mn;
     name_ := name_ t; label_ := label_ t; color_ := color_ t;
     event_track_color_ := event_track_color_ t |}.

Definition Track_SetName (n : string) (t : Track) : Track :=
  {| type_ := type_ t; thread_id_ := thread_id_ t;
     timeline_hash_ := timeline_hash_ t; timers_ := timers_ t;
     min_time_ := min_time_ t; name_ := n; label_ := label_ t;
     color_ := color_ t; event_track_color_ := event_track_color_ t |}.

Definition Track_SetLabel (l : string) (t : Track) : Track :=
  {| type_ := type_ t; thread_id_ := thread_id_ t;
     timeline_hash_ := timeline_hash_ t; timers_ := timers_ t;
     min_time_ := min_time_ t; name_ := name_ t; label_ := l;
     color_ := color_ t; event_track_color_ := event_track_color_ t |}.

Definition Track_SetColor (c : Color) (t : Track) : Track :=
  {| type_ := type_ t; thread_id_ := thread_id_ t;
     timeline_hash_ := timeline_hash_ t; timers_ := timers_ t;
     min_time_ := min_time_ t; name_ := name_ t; label_ := label_ t;
     color_ := c; event_track_color_ := event_track_color_ t |}.

Definition Track_SetEventTrackColor (c : Color) (t : Track) : Track :=
  {| type_ := type_ t; thread_id_ := thread_id_ t;
     timeline_hash_ := timeline_hash_ t; timers_ := timers_ t;
     min_time_ := min_time_ t; name_ := name_ t; label_ := label_ t;
     color_ := color_ t; event_track_color_ := c |}.

Definition kDefaultColor : Color :=
  {| red := 255; green := 255; blue := 255; alpha := 255 |}.

Definition Track_new (ty : TrackType) (tid hash : N) : Track :=
  {| type_ := ty; thread_id_ := tid; timeline_hash_ := hash;
     timers_ := []; min_time_ := UINT64_MAX; name_ := EmptyString;
     label_ := EmptyString; color_ := kDefaultColor;
     event_track_color_ := kDefaultColor |}.

Definition Track_GetName (t : Track) : string := name_ t.
Definition Track_GetMinTime (t : Track) : N := min_time_ t.

(** [Track::GetNumTimers]: the number of records in the owned chain. *)
Definition Track_GetNumTimers (t : Track) : N :=
  N.of_nat (TimerChain_size (timers_ t)).

(** [Track::GetAllChains]: the owned chain (a track never holds a null
    chain, hence [Some]). *)
Definition Track_GetAllChains (t : Track) : list (option TimerChain) :=
  [Some (timers_ t)].

(** [Track::OnTimer]: append the record and update the running minimum. *)
Definition Track_OnTimer (capacity : nat) (timer : Timer) (t : Track) : Track :=
  Track_with_timers
    (TimerChain_Append capacity {| GetTimer := timer |} (timers_ t))
    (N.min (m_Start timer) (min_time_ t)) t.

(** ** The sample-event buffer ([GEventTracer.GetEventBuffer()])

    Modelled from the spec: per thread id, the callstack events keyed by
    their time tick, plus the running minimum and maximum event time. *)
Record EventBuffer : Type := {
  m_CallstackEvents : gmap N (gmap N CallstackEvent);
  m_MaxTime : N;
  m_MinTime : N
}.

Definition EventBuffer_Reset : EventBuffer :=
  {| m_CallstackEvents := ∅; m_MaxTime := 0; m_MinTime := UINT64_MAX |}.

Definition EventBuffer_GetCallstacks (b : EventBuffer)
  : gmap N (gmap N CallstackEvent) := m_CallstackEvents b.

(** [GetCallstackEvents(t0, t1, tid)]: the events of thread [tid] (of every
    thread when [tid] is [0]) whose time lies in the range. *)
Definition EventBuffer_GetCallstackEvents (b : EventBuffer) (t0 t1 tid : N)
  : list CallstackEvent :=
  '(thread, events) ← map_to_list (m_CallstackEvents b);
  if bool_decide (tid = 0 ∨ thread = tid)
  then '(time, ev) ← map_to_list events;
       if (t0 <=? time) && (time <? t1) then [ev] else []
  else [].

(** ** The selection report builder ([SamplingProfiler])

    Modelled from the spec: callstacks are accumulated by [AddCallStack];
    [ProcessSamples] counts them; [GetNumSamples] returns that count. *)
Record SamplingProfiler : Set := {
  m_GenerateSummary : bool;
  m_Callstacks : list CallStack;
  m_NumSamples : N
}.

Definition SamplingProfiler_new : SamplingProfiler :=
  {| m_GenerateSummary := true; m_Callstacks := []; m_NumSamples := 0 |}.

Definition SetGenerateSummary (b : bool) (p : SamplingProfiler)
  : SamplingProfiler :=
  {| m_GenerateSummary := b; m_Callstacks := m_Callstacks p;
     m_NumSamples := m_NumSamples p |}.

Definition AddCallStack (c : CallStack) (p : SamplingProfiler)
  : SamplingProfiler :=
  {| m_GenerateSummary := m_GenerateSummary p;
     m_Callstacks := m_Callstacks p ++ [c];
     m_NumSamples := m_NumSamples p |}.

Definition ProcessSamples (p : SamplingProfiler) : SamplingProfiler :=
  {| m_GenerateSummary := m_GenerateSummary p;
     m_Callstacks := m_Callstacks p;
     m_NumSamples := N.of_nat (length (m_Callstacks p)) |}.

Definition GetNumSamples (p : SamplingProfiler) : N := m_NumSamples p.

(** ** Collaborators whose code is out of reach

    Helpers declared in headers that are not part of the sources at hand are
    taken as parameters: the tick/microsecond conversions, the capacity of a
    timer block, the emptiness test of a track (which for a thread track
    also looks at the thread's sampled events) and the event buffer's
    [HasEvent]. *)
Class Collaborators : Type := {
  MicroSecondsFromTicks : N -> N -> double;
  TicksFromMicroseconds : double -> N;
  kBlockSize : nat;
  Track_IsEmpty : EventBuffer -> Track -> bool;
  EventBuffer_HasEvent : EventBuffer -> bool
}.

(** ** Program state

    [Viewport] groups the window and world-geometry members of [TimeGraph];
    [Globals] groups the process-wide objects the code reaches through
    [GEventTracer], [Capture::*] and [GOrbitApp]; [State] holds the other
    members the modelled functions read or write, and both groups.  The
    batcher, the text renderers and the layout only serve drawing and are
    left out.  Each [set_f v s] is the assignment [s.f = v]. *)

Abbreviation ptr := nat.

#[projections(primitive)] Record Viewport : Type := {
  m_MinTimeUs : double;
  m_MaxTimeUs : double;
  m_TimeWindowUs : double;
  m_RefTimeUs : double;
  m_MouseRatio : double;
  m_ZoomValue : float;
  m_WorldStartX : float;
  m_WorldWidth : float
}.

Definition set_m_MinTimeUs (v : double) (w : Viewport) : Viewport :=
  {| m_MinTimeUs := v; m_MaxTimeUs := m_MaxTimeUs w;
     m_TimeWindowUs := m_TimeWindowUs w; m_RefTimeUs := m_RefTimeUs w;
     m_MouseRatio := m_MouseRatio w; m_ZoomValue := m_ZoomValue w;
     m_WorldStartX := m_WorldStartX w; m_WorldWidth := m_WorldWidth w |}.

Definition set_m_MaxTimeUs (v : double) (w : Viewport) : Viewport :=
  {| m_MinTimeUs := m_MinTimeUs w; m_MaxTimeUs := v;
     m_TimeWindowUs := m_TimeWindowUs w; m_RefTimeUs := m_RefTimeUs w;
     m_MouseRatio := m_MouseRatio w; m_ZoomValue := m_ZoomValue w;
     m_WorldStartX := m_WorldStartX w; m_WorldWidth := m_WorldWidth w |}.

Definition set_m_RefTimeUs (v : double) (w : Viewport) : Viewport :=
  {| m_MinTimeUs := m_MinTimeUs w; m_MaxTimeUs := m_MaxTimeUs w;
     m_TimeWindowUs := m_TimeWindowUs w; m_RefTimeUs := v;
     m_MouseRatio := m_MouseRatio w; m_ZoomValue := m_ZoomValue w;
     m_WorldStartX := m_WorldStartX w; m_WorldWidth := m_WorldWidth w |}.

Definition set_m_MouseRatio (v : double) (w : Viewport) : Viewport :=
  {| m_MinTimeUs := m_MinTimeUs w; m_MaxTimeUs := m_MaxTimeUs w;
     m_TimeWindowUs := m_TimeWindowUs w; m_RefTimeUs := m_RefTimeUs w;
     m_MouseRatio := v; m_ZoomValue := m_ZoomValue w;
     m_WorldStartX := m_WorldStartX w; m_WorldWidth := m_WorldWidth w |}.

Definition set_m_ZoomValue (v : float) (w : Viewport) : Viewport :=
  {| m_MinTimeUs := m_MinTimeUs w; m_MaxTimeUs := m_MaxTimeUs w;
     m_TimeWindowUs := m_TimeWindowUs w; m_RefTimeUs := m_RefTimeUs w;
     m_MouseRatio := m_MouseRatio w; m_ZoomValue := v;
     m_WorldStartX := m_WorldStartX w; m_WorldWidth := m_WorldWidth w |}.

#[projections(primitive)] Record Globals : Type := {
  GEventBuffer : EventBuffer;  (* GEventTracer.GetEventBuffer() *)
  GHasContextSwitches : bool;  (* Capture::GHasContextSwitches *)
  GFunctionCountMap : gmap N N;  (* Capture::GFunctionCountMap *)
  GTargetProcess_functions : gset N;  (* addresses Capture::GTargetProcess resolves *)
  GSamplingProfiler_callstacks : gmap N CallStack;  (* Capture::GSamplingProfiler *)
  GIsCapturing : bool;  (* Capture::IsCapturing() *)
  GThreadNames : gmap N string;  (* Capture::GThreadNames *)
  GProcessName : string;  (* Capture::GProcessName *)
  GSelectionReports : list SamplingProfiler  (* GOrbitApp->AddSelectionReport *)
}.

Definition set_GEventBuffer (v : EventBuffer) (g : Globals) : Globals :=
  {| GEventBuffer := v; GHasContextSwitches := GHasContextSwitches g;
     GFunctionCountMap := GFunctionCountMap g;
     GTargetProcess_functions := GTargetProcess_functions g;
     GSamplingProfiler_callstacks := GSamplingProfiler_callstacks g;
     GIsCapturing := GIsCapturing g; GThreadNames := GThreadNames g;
     GProcessName := GProcessName g;
     GSelectionReports := GSelectionReports g |}.

Definition set_GHasContextSwitches (v : bool) (g : Globals) : Globals :=
  {| GEventBuffer := GEventBuffer g; GHasContextSwitches := v;
     GFunctionCountMap := GFunctionCountMap g;
     GTargetProcess_functions := GTargetProcess_functions g;
     GSamplingProfiler_callstacks := GSamplingProfiler_callstacks g;
     GIsCapturing := GIsCapturing g; GThreadNames := GThreadNames g;
     GProcessName := GProcessName g;
     GSelectionReports := GSelectionReports g |}.

Definition set_GFunctionCountMap (v : gmap N N) (g : Globals) : Globals :=
  {| GEventBuffer := GEventBuffer g;
     GHasContextSwitches := GHasContextSwitches g; GFunctionCountMap := v;
     GTargetProcess_functions := GTargetProcess_functions g;
     GSamplingProfiler_callstacks := GSamplingProfiler_callstacks g;
     GIsCapturing := GIsCapturing g; GThreadNames := GThreadNames g;
     GProcessName := GProcessName g;
     GSelectionReports := GSelectionReports g |}.

Definition set_GSamplingProfiler_callstacks (v : gmap N CallStack) (g : Globals) : Globals :=
  {| GEventBuffer := GEventBuffer g;
     GHasContextSwitches := GHasContextSwitches g;
     GFunctionCountMap := GFunctionCountMap g;
     GTargetProcess_functions := GTargetProcess_functions g;
     GSamplingProfiler_callstacks := v; GIsCapturing := GIsCapturing g;
     GThreadNames := GThreadNames g; GProcessName := GProcessName g;
     GSelectionReports := GSelectionReports g |}.

Definition set_GThreadNames (v : gmap N string) (g : Globals) : Globals :=
  {| GEventBuffer := GEventBuffer g;
     GHasContextSwitches := GHasContextSwitches g;
     GFunctionCountMap := GFunctionCountMap g;
     GTargetProcess_functions := GTargetProcess_functions g;
     GSamplingProfiler_callstacks := GSamplingProfiler_callstacks g;
     GIsCapturing := GIsCapturing g; GThreadNames := v;
     GProcessName := GProcessName g;
     GSelectionReports := GSelectionReports g |}.

Definition set_GSelectionReports (v : list SamplingProfiler) (g : Globals) : Globals :=
  {| GEventBuffer := GEventBuffer g;
     GHasContextSwitches := GHasContextSwitches g;
     GFunctionCountMap := GFunctionCountMap g;
     GTargetProcess_functions := GTargetProcess_functions g;
     GSamplingProfiler_callstacks := GSamplingProfiler_callstacks g;
     GIsCapturing := GIsCapturing g; GThreadNames := GThreadNames g;
     GProcessName := GProcessName g; GSelectionReports := v |}.

#[projections(primitive)] Record State : Type := {
  objects : list Track;  (* targets of the shared pointers *)
  tracks_ : list ptr;
  scheduler_track_ : option ptr;
  process_track_ : option ptr;
  thread_tracks_ : gmap N ptr;
  gpu_tracks_ : gmap N ptr;
  sorted_tracks_ : list ptr;
  cores_seen_ : gset N;
  m_ThreadCountMap : gmap N N;
  m_EventCount : gmap N N;
  capture_min_timestamp_ : N;
  capture_max_timestamp_ : N;
  view : Viewport;
  m_NeedsUpdatePrimitives : bool;
  m_NeedsRedraw : bool;
  m_ThreadFilter : string;
  selected_callstack_events_per_thread_ : gmap N (list CallstackEvent);
  string_manager_ : option (gmap N string);
  globals : Globals
}.

Definition set_objects (v : list Track) (s : State) : State :=
  {| objects := v; tracks_ := tracks_ s;
     scheduler_track_ := scheduler_track_ s;
     process_track_ := process_track_ s; thread_tracks_ := thread_tracks_ s;
     gpu_tracks_ := gpu_tracks_ s; sorted_tracks_ := sorted_tracks_ s;
     cores_seen_ := cores_seen_ s; m_ThreadCountMap := m_ThreadCountMap s;
     m_EventCount := m_EventCount s;
     capture_min_timestamp_ := capture_min_timestamp_ s;
     capture_max_timestamp_ := capture_max_timestamp_ s; view := view s;
     m_NeedsUpdatePrimitives := m_NeedsUpdatePrimitives s;
     m_NeedsRedraw := m_NeedsRedraw s; m_ThreadFilter := m_ThreadFilter s;
     selected_callstack_events_per_thread_ := selected_callstack_events_per_thread_ s;
     string_manager_ := string_manager_ s; globals := globals s |}.

Definition set_tracks_ (v : list ptr) (s : State) : State :=
  {| objects := objects s; tracks_ := v;
     scheduler_track_ := scheduler_track_ s;
     process_track_ := process_track_ s; thread_tracks_ := thread_tracks_ s;
     gpu_tracks_ := gpu_tracks_ s; sorted_tracks_ := sorted_tracks_ s;
     cores_seen_ := cores_seen_ s; m_ThreadCountMap := m_ThreadCountMap s;
     m_EventCount := m_EventCount s;
     capture_min_timestamp_ := capture_min_timestamp_ s;
     capture_max_timestamp_ := capture_max_timestamp_ s; view := view s;
     m_NeedsUpdatePrimitives := m_NeedsUpdatePrimitives s;
     m_NeedsRedraw := m_NeedsRedraw s; m_ThreadFilter := m_ThreadFilter s;
     selected_callstack_events_per_thread_ := selected_callstack_events_per_thread_ s;
     string_manager_ := string_manager_ s; globals := globals s |}.

Definition set_scheduler_track_ (v : option ptr) (s : State) : State :=
  {| objects := objects s; tracks_ := tracks_ s; scheduler_track_ := v;
     process_track_ := process_track_ s; thread_tracks_ := thread_tracks_ s;
     gpu_tracks_ := gpu_tracks_ s; sorted_tracks_ := sorted_tracks_ s;
     cores_seen_ := cores_seen_ s; m_ThreadCountMap := m_ThreadCountMap s;
     m_EventCount := m_EventCount s;
     capture_min_timestamp_ := capture_min_timestamp_ s;
     capture_max_timestamp_ := capture_max_timestamp_ s; view := view s;
     m_NeedsUpdatePrimitives := m_NeedsUpdatePrimitives s;
     m_NeedsRedraw := m_NeedsRedraw s; m_ThreadFilter := m_ThreadFilter s;
     selected_callstack_events_per_thread_ := selected_callstack_events_per_thread_ s;
     string_manager_ := string_manager_ s; globals := globals s |}.

Definition set_process_track_ (v : option ptr) (s : State) : State :=
  {| objects := objects s; tracks_ := tracks_ s;
     scheduler_track_ := scheduler_track_ s; process_track_ := v;
     thread_tracks_ := thread_tracks_ s; gpu_tracks_ := gpu_tracks_ s;
     sorted_tracks_ := sorted_tracks_ s; cores_seen_ := cores_seen_ s;
     m_ThreadCountMap := m_ThreadCountMap s; m_EventCount := m_EventCount s;
     capture_min_timestamp_ := capture_min_timestamp_ s;
     capture_max_timestamp_ := capture_max_timestamp_ s; view := view s;
     m_NeedsUpdatePrimitives := m_NeedsUpdatePrimitives s;
     m_NeedsRedraw := m_NeedsRedraw s; m_ThreadFilter := m_ThreadFilter s;
     selected_callstack_events_per_thread_ := selected_callstack_events_per_thread_ s;
     string_manager_ := string_manager_ s; globals := globals s |}.

Definition set_thread_tracks_ (v : gmap N ptr) (s : State) : State :=
  {| objects := objects s; tracks_ := tracks_ s;
     scheduler_track_ := scheduler_track_ s;
     process_track_ := process_track_ s; thread_tracks_ := v;
     gpu_tracks_ := gpu_tracks_ s; sorted_tracks_ := sorted_tracks_ s;
     cores_seen_ := cores_seen_ s; m_ThreadCountMap := m_ThreadCountMap s;
     m_EventCount := m_EventCount s;
     capture_min_timestamp_ := capture_min_timestamp_ s;
     capture_max_timestamp_ := capture_max_timestamp_ s; view := view s;
     m_NeedsUpdatePrimitives := m_NeedsUpdatePrimitives s;
     m_NeedsRedraw := m_NeedsRedraw s; m_ThreadFilter := m_ThreadFilter s;
     selected_callstack_events_per_thread_ := selected_callstack_events_per_thread_ s;
     string_manager_ := string_manager_ s; globals := globals s |}.

Definition set_gpu_tracks_ (v : gmap N ptr) (s : State) : State :=
  {| objects := objects s; tracks_ := tracks_ s;
     scheduler_track_ := scheduler_track_ s;
     process_track_ := process_track_ s; thread_tracks_ := thread_tracks_ s;
     gpu_tracks_ := v; sorted_tracks_ := sorted_tracks_ s;
     cores_seen_ := cores_seen_ s; m_ThreadCountMap := m_ThreadCountMap s;
     m_EventCount := m_EventCount s;
     capture_min_timestamp_ := capture_min_timestamp_ s;
     capture_max_timestamp_ := capture_max_timestamp_ s; view := view s;
     m_NeedsUpdatePrimitives := m_NeedsUpdatePrimitives s;
     m_NeedsRedraw := m_NeedsRedraw s; m_ThreadFilter := m_ThreadFilter s;
     selected_callstack_events_per_thread_ := selected_callstack_events_per_thread_ s;
     string_manager_ := string_manager_ s; globals := globals s |}.

Definition set_sorted_tracks_ (v : list ptr) (s : State) : State :=
  {| objects := objects s; tracks_ := tracks_ s;
     scheduler_track_ := scheduler_track_ s;
     process_track_ := process_track_ s; thread_tracks_ := thread_tracks_ s;
     gpu_tracks_ := gpu_tracks_ s; sorted_tracks_ := v;
     cores_seen_ := cores_seen_ s; m_ThreadCountMap := m_ThreadCountMap s;
     m_EventCount := m_EventCount s;
     capture_min_timestamp_ := capture_min_timestamp_ s;
     capture_max_timestamp_ := capture_max_timestamp_ s; view := view s;
     m_NeedsUpdatePrimitives := m_NeedsUpdatePrimitives s;
     m_NeedsRedraw := m_NeedsRedraw s; m_ThreadFilter := m_ThreadFilter s;
     selected_callstack_events_per_thread_ := selected_callstack_events_per_thread_ s;
     string_manager_ := string_manager_ s; globals := globals s |}.

Definition set_cores_seen_ (v : gset N) (s : State) : State :=
  {| objects := objects s; tracks_ := tracks_ s;
     scheduler_track_ := scheduler_track_ s;
     process_track_ := process_track_ s; thread_tracks_ := thread_tracks_ s;
     gpu_tracks_ := gpu_tracks_ s; sorted_tracks_ := sorted_tracks_ s;
     cores_seen_ := v; m_ThreadCountMap := m_ThreadCountMap s;
     m_EventCount := m_EventCount s;
     capture_min_timestamp_ := capture_min_timestamp_ s;
     capture_max_timestamp_ := capture_max_timestamp_ s; view := view s;
     m_NeedsUpdatePrimitives := m_NeedsUpdatePrimitives s;
     m_NeedsRedraw := m_NeedsRedraw s; m_ThreadFilter := m_ThreadFilter s;
     selected_callstack_events_per_thread_ := selected_callstack_events_per_thread_ s;
     string_manager_ := string_manager_ s; globals := globals s |}.

Definition set_m_ThreadCountMap (v : gmap N N) (s : State) : State :=
  {| objects := objects s; tracks_ := tracks_ s;
     scheduler_track_ := scheduler_track_ s;
     process_track_ := process_track_ s; thread_tracks_ := thread_tracks_ s;
     gpu_tracks_ := gpu_tracks_ s; sorted_tracks_ := sorted_tracks_ s;
     cores_seen_ := cores_seen_ s; m_ThreadCountMap := v;
     m_EventCount := m_EventCount s;
     capture_min_timestamp_ := capture_min_timestamp_ s;
     capture_max_timestamp_ := capture_max_timestamp_ s; view := view s;
     m_NeedsUpdatePrimitives := m_NeedsUpdatePrimitives s;
     m_NeedsRedraw := m_NeedsRedraw s; m_ThreadFilter := m_ThreadFilter s;
     selected_callstack_events_per_thread_ := selected_callstack_events_per_thread_ s;
     string_manager_ := string_manager_ s; globals := globals s |}.

Definition set_m_EventCount (v : gmap N N) (s : State) : State :=
  {| objects := objects s; tracks_ := tracks_ s;
     scheduler_track_ := scheduler_track_ s;
     process_track_ := process_track_ s; thread_tracks_ := thread_tracks_ s;
     gpu_tracks_ := gpu_tracks_ s; sorted_tracks_ := sorted_tracks_ s;
     cores_seen_ := cores_seen_ s; m_ThreadCountMap := m_ThreadCountMap s;
     m_EventCount := v; capture_min_timestamp_ := capture_min_timestamp_ s;
     capture_max_timestamp_ := capture_max_timestamp_ s; view := view s;
     m_NeedsUpdatePrimitives := m_NeedsUpdatePrimitives s;
     m_NeedsRedraw := m_NeedsRedraw s; m_ThreadFilter := m_ThreadFilter s;
     selected_callstack_events_per_thread_ := selected_callstack_events_per_thread_ s;
     string_manager_ := string_manager_ s; globals := globals s |}.

Definition set_capture_min_timestamp_ (v : N) (s : State) : State :=
  {| objects := objects s; tracks_ := tracks_ s;
     scheduler_track_ := scheduler_track_ s;
     process_track_ := process_track_ s; thread_tracks_ := thread_tracks_ s;
     gpu_tracks_ := gpu_tracks_ s; sorted_tracks_ := sorted_tracks_ s;
     cores_seen_ := cores_seen_ s; m_ThreadCountMap := m_ThreadCountMap s;
     m_EventCount := m_EventCount s; capture_min_timestamp_ := v;
     capture_max_timestamp_ := capture_max_timestamp_ s; view := view s;
     m_NeedsUpdatePrimitives := m_NeedsUpdatePrimitives s;
     m_NeedsRedraw := m_NeedsRedraw s; m_ThreadFilter := m_ThreadFilter s;
     selected_callstack_events_per_thread_ := selected_callstack_events_per_thread_ s;
     string_manager_ := string_manager_ s; globals := globals s |}.

Definition set_capture_max_timestamp_ (v : N) (s : State) : State :=
  {| objects := objects s; tracks_ := tracks_ s;
     scheduler_track_ := scheduler_track_ s;
     process_track_ := process_track_ s; thread_tracks_ := thread_tracks_ s;
     gpu_tracks_ := gpu_tracks_ s; sorted_tracks_ := sorted_tracks_ s;
     cores_seen_ := cores_seen_ s; m_ThreadCountMap := m_ThreadCountMap s;
     m_EventCount := m_EventCount s;
     capture_min_timestamp_ := capture_min_timestamp_ s;
     capture_max_timestamp_ := v; view := view s;
     m_NeedsUpdatePrimitives := m_NeedsUpdatePrimitives s;
     m_NeedsRedraw := m_NeedsRedraw s; m_ThreadFilter := m_ThreadFilter s;
     selected_callstack_events_per_thread_ := selected_callstack_events_per_thread_ s;
     string_manager_ := string_manager_ s; globals := globals s |}.

Definition set_view (v : Viewport) (s : State) : State :=
  {| objects := objects s; tracks_ := tracks_ s;
     scheduler_track_ := scheduler_track_ s;
     process_track_ := process_track_ s; thread_tracks_ := thread_tracks_ s;
     gpu_tracks_ := gpu_tracks_ s; sorted_tracks_ := sorted_tracks_ s;
     cores_seen_ := cores_seen_ s; m_ThreadCountMap := m_ThreadCountMap s;
     m_EventCount := m_EventCount s;
     capture_min_timestamp_ := capture_min_timestamp_ s;
     capture_max_timestamp_ := capture_max_timestamp_ s; view := v;
     m_NeedsUpdatePrimitives := m_NeedsUpdatePrimitives s;
     m_NeedsRedraw := m_NeedsRedraw s; m_ThreadFilter := m_ThreadFilter s;
     selected_callstack_events_per_thread_ := selected_callstack_events_per_thread_ s;
     string_manager_ := string_manager_ s; globals := globals s |}.

Definition set_m_NeedsUpdatePrimitives (v : bool) (s : State) : State :=
  {| objects := objects s; tracks_ := tracks_ s;
     scheduler_track_ := scheduler_track_ s;
     process_track_ := process_track_ s; thread_tracks_ := thread_tracks_ s;
     gpu_tracks_ := gpu_tracks_ s; sorted_tracks_ := sorted_tracks_ s;
     cores_seen_ := cores_seen_ s; m_ThreadCountMap := m_ThreadCountMap s;
     m_EventCount := m_EventCount s;
     capture_min_timestamp_ := capture_min_timestamp_ s;
     capture_max_timestamp_ := capture_max_timestamp_ s; view := view s;
     m_NeedsUpdatePrimitives := v; m_NeedsRedraw := m_NeedsRedraw s;
     m_ThreadFilter := m_ThreadFilter s;
     selected_callstack_events_per_thread_ := selected_callstack_events_per_thread_ s;
     string_manager_ := string_manager_ s; globals := globals s |}.

Definition set_m_NeedsRedraw (v : bool) (s : State) : State :=
  {| objects := objects s; tracks_ := tracks_ s;
     scheduler_track_ := scheduler_track_ s;
     process_track_ := process_track_ s; thread_tracks_ := thread_tracks_ s;
     gpu_tracks_ := gpu_tracks_ s; sorted_tracks_ := sorted_tracks_ s;
     cores_seen_ := cores_seen_ s; m_ThreadCountMap := m_ThreadCountMap s;
     m_EventCount := m_EventCount s;
     capture_min_timestamp_ := capture_min_timestamp_ s;
     capture_max_timestamp_ := capture_max_timestamp_ s; view := view s;
     m_NeedsUpdatePrimitives := m_NeedsUpdatePrimitives s;
     m_NeedsRedraw := v; m_ThreadFilter := m_ThreadFilter s;
     selected_callstack_events_per_thread_ := selected_callstack_events_per_thread_ s;
     string_manager_ := string_manager_ s; globals := globals s |}.

Definition set_m_ThreadFilter (v : string) (s : State) : State :=
  {| objects := objects s; tracks_ := tracks_ s;
     scheduler_track_ := scheduler_track_ s;
     process_track_ := process_track_ s; thread_tracks_ := thread_tracks_ s;
     gpu_tracks_ := gpu_tracks_ s; sorted_tracks_ := sorted_tracks_ s;
     cores_seen_ := cores_seen_ s; m_ThreadCountMap := m_ThreadCountMap s;
     m_EventCount := m_EventCount s;
     capture_min_timestamp_ := capture_min_timestamp_ s;
     capture_max_timestamp_ := capture_max_timestamp_ s; view := view s;
     m_NeedsUpdatePrimitives := m_NeedsUpdatePrimitives s;
     m_NeedsRedraw := m_NeedsRedraw s; m_ThreadFilter := v;
     selected_callstack_events_per_thread_ := selected_callstack_events_per_thread_ s;
     string_manager_ := string_manager_ s; globals := globals s |}.

Definition set_selected_callstack_events_per_thread_ (v : gmap N (list CallstackEvent)) (s : State) : State :=
  {| objects := objects s; tracks_ := tracks_ s;
     scheduler_track_ := scheduler_track_ s;
     process_track_ := process_track_ s; thread_tracks_ := thread_tracks_ s;
     gpu_tracks_ := gpu_tracks_ s; sorted_tracks_ := sorted_tracks_ s;
     cores_seen_ := cores_seen_ s; m_ThreadCountMap := m_ThreadCountMap s;
     m_EventCount := m_EventCount s;
     capture_min_timestamp_ := capture_min_timestamp_ s;
     capture_max_timestamp_ := capture_max_timestamp_ s; view := view s;
     m_NeedsUpdatePrimitives := m_NeedsUpdatePrimitives s;
     m_NeedsRedraw := m_NeedsRedraw s; m_ThreadFilter := m_ThreadFilter s;
     selected_callstack_events_per_thread_ := v;
     string_manager_ := string_manager_ s; globals := globals s |}.

Definition set_string_manager_ (v : option (gmap N string)) (s : State) : State :=
  {| objects := objects s; tracks_ := tracks_ s;
     scheduler_track_ := scheduler_track_ s;
     process_track_ := process_track_ s; thread_tracks_ := thread_tracks_ s;
     gpu_tracks_ := gpu_tracks_ s; sorted_tracks_ := sorted_tracks_ s;
     cores_seen_ := cores_seen_ s; m_ThreadCountMap := m_ThreadCountMap s;
     m_EventCount := m_EventCount s;
     capture_min_timestamp_ := capture_min_timestamp_ s;
     capture_max_timestamp_ := capture_max_timestamp_ s; view := view s;
     m_NeedsUpdatePrimitives := m_NeedsUpdatePrimitives s;
     m_NeedsRedraw := m_NeedsRedraw s; m_ThreadFilter := m_ThreadFilter s;
     selected_callstack_events_per_thread_ := selected_callstack_events_per_thread_ s;
     string_manager_ := v; globals := globals s |}.

Definition set_globals (v : Globals) (s : State) : State :=
  {| objects := objects s; tracks_ := tracks_ s;
     scheduler_track_ := scheduler_track_ s;
     process_track_ := process_track_ s; thread_tracks_ := thread_tracks_ s;
     gpu_tracks_ := gpu_tracks_ s; sorted_tracks_ := sorted_tracks_ s;
     cores_seen_ := cores_seen_ s; m_ThreadCountMap := m_ThreadCountMap s;
     m_EventCount := m_EventCount s;
     capture_min_timestamp_ := capture_min_timestamp_ s;
     capture_max_timestamp_ := capture_max_timestamp_ s; view := view s;
     m_NeedsUpdatePrimitives := m_NeedsUpdatePrimitives s;
     m_NeedsRedraw := m_NeedsRedraw s; m_ThreadFilter := m_ThreadFilter s;
     selected_callstack_events_per_thread_ := selected_callstack_events_per_thread_ s;
     string_manager_ := string_manager_ s; globals := v |}.

(** ** Track bookkeeping *)

Definition update_globals (f : Globals -> Globals) (s : State) : State :=
  set_globals (f (globals s)) s.

Definition update_view (f : Viewport -> Viewport) (s : State) : State :=
  set_view (f (view s)) s.

(** [std::make_shared]: the new object is placed at the end of the store and
    its index is the pointer. *)
Definition make_shared (t : Track) (s : State) : ptr * State :=
  (length (objects s), set_objects (objects s ++ [t]) s).

(** [p->f(...)] for a mutating member function [f]. *)
Definition with_track (p : ptr) (f : Track -> Track) (s : State)
  : option State :=
  t ← objects s !! p;
  Some (set_objects (<[p := f t]> (objects s)) s).

Definition s_ThreadColors : list Color :=
  [ {| red := 231; green := 68; blue := 53; alpha := 255 |};
    {| red := 43; green := 145; blue := 175; alpha := 255 |};
    {| red := 185; green := 117; blue := 181; alpha := 255 |};
    {| red := 87; green := 166; blue := 74; alpha := 255 |};
    {| red := 215; green := 171; blue := 105; alpha := 255 |};
    {| red := 248; green := 101; blue := 22; alpha := 255 |} ].

Definition GetThreadColor (tid : N) : Color :=
  nth (N.to_nat (tid mod N.of_nat (length s_ThreadColors))) s_ThreadColors
      kDefaultColor.

Definition GetOrCreateSchedulerTrack (s : State) : ptr * State :=
  match scheduler_track_ s with
  | Some track => (track, s)
  | None =>
      let '(track, s) := make_shared (Track_new kSchedulerTrack 0 0) s in
      let s := set_tracks_ (tracks_ s ++ [track]) s in
      let s := set_scheduler_track_ (Some track) s in
      (track, s)
  end.

(** [thread_tracks_[a_TID]] default-inserts a null pointer for a missing
    key; the entry is overwritten before the function returns, so a key is
    in the map exactly when it maps to a track. *)
Definition GetOrCreateThreadTrack (a_TID : N) (s : State) : ptr * State :=
  match thread_tracks_ s !! a_TID with
  | Some track => (track, s)
  | None =>
      let '(track, s) :=
        make_shared
          (Track_SetEventTrackColor (GetThreadColor a_TID)
             (Track_new kThreadTrack a_TID 0)) s in
      let s := set_tracks_ (tracks_ s ++ [track]) s in
      let s := set_thread_tracks_ (<[a_TID := track]> (thread_tracks_ s)) s in
      (track, s)
  end.

Definition GetOrCreateGpuTrack (timeline_hash : N) (s : State) : ptr * State :=
  match gpu_tracks_ s !! timeline_hash with
  | Some track => (track, s)
  | None =>
      let '(track, s) :=
        make_shared (Track_new kGpuTrack 0 timeline_hash) s in
      let s := set_tracks_ (tracks_ s ++ [track]) s in
      let s := set_gpu_tracks_ (<[timeline_hash := track]> (gpu_tracks_ s)) s in
      (track, s)
  end.

(** ** Construction and [Clear] *)

Definition Viewport_default : Viewport :=
  {| m_MinTimeUs := Fp.zero; m_MaxTimeUs := Fp.zero;
     m_TimeWindowUs := Fp.zero; m_RefTimeUs := Fp.zero;
     m_MouseRatio := Fp.zero; m_ZoomValue := Fp.zero;
     m_WorldStartX := Fp.zero; m_WorldWidth := Fp.zero |}.

(** The members before the constructor body runs.  The default member
    initialisers are in the class declaration, which is not part of the
    sources at hand; the two timestamps are taken as [Clear] sets them. *)
Definition TimeGraph_members (g : Globals) : State :=
  {| objects := []; tracks_ := []; scheduler_track_ := None;
     process_track_ := None; thread_tracks_ := ∅; gpu_tracks_ := ∅;
     sorted_tracks_ := []; cores_seen_ := ∅; m_ThreadCountMap := ∅;
     m_EventCount := ∅; capture_min_timestamp_ := UINT64_MAX;
     capture_max_timestamp_ := 0; view := Viewport_default;
     m_NeedsUpdatePrimitives := false; m_NeedsRedraw := false;
     m_ThreadFilter := EmptyString;
     selected_callstack_events_per_thread_ := ∅; string_manager_ := None;
     globals := g |}.

(** [TimeGraph::TimeGraph()]. *)
Definition TimeGraph_new (g : Globals) : State :=
  let s := TimeGraph_members g in
  let '(track, s) := GetOrCreateSchedulerTrack s in
  let s := set_scheduler_track_ (Some track) s in
  let '(track, s) := GetOrCreateThreadTrack 0 s in
  set_process_track_ (Some track) s.

Definition SetStringManager (str_manager : gmap N string) (s : State) : State :=
  set_string_manager_ (Some str_manager) s.

Definition Clear (s : State) : State :=
  let s := set_capture_min_timestamp_ UINT64_MAX s in
  let s := set_capture_max_timestamp_ 0 s in
  let s := set_m_ThreadCountMap ∅ s in
  let s := update_globals (set_GEventBuffer EventBuffer_Reset) s in
  let s := set_tracks_ [] s in
  let s := set_scheduler_track_ None s in
  let s := set_thread_tracks_ ∅ s in
  let s := set_gpu_tracks_ ∅ s in
  let s := set_cores_seen_ ∅ s in
  let '(track, s) := GetOrCreateSchedulerTrack s in
  let s := set_scheduler_track_ (Some track) s in
  let '(track, s) := GetOrCreateThreadTrack 0 s in
  set_process_track_ (Some track) s.

Definition NeedsUpdate (s : State) : State :=
  set_m_NeedsRedraw true (set_m_NeedsUpdatePrimitives true s).

Definition SetThreadFilter (a_Filter : string) (s : State) : State :=
  NeedsUpdate (set_m_ThreadFilter a_Filter s).

(** ** Ingestion *)

Definition GetGpuTimelineHash (timer : Timer) : N := snd (m_UserData timer).

Definition kGreenIntrospection : Color :=
  {| red := 87; green := 166; blue := 74; alpha := 255 |}.

(** [++m[k]] on a map of [uint32_t] counters. *)
Definition increment32 (k : N) (m : gmap N N) : gmap N N :=
  <[k := wrap32 (default 0 (m !! k) + 1)]> m.

(** [++m[k]] on a map of [uint64_t] counters. *)
Definition increment64 (k : N) (m : gmap N N) : gmap N N :=
  <[k := wrap64 (default 0 (m !! k) + 1)]> m.

Section Ingestion.
Context `{Collaborators}.

(** The updates at the top of [ProcessTimer]: the capture's maximum
    timestamp, the context-switch flag and the per-function hit counter.
    [FunctionUtils::UpdateStats] updates statistics kept in the [Function]
    object, which no modelled function reads; only the hit counter is
    kept. *)
Definition ProcessTimer_counters (a_Timer : Timer) (s : State) : State :=
  let s :=
    if capture_max_timestamp_ s <? m_End a_Timer
    then set_capture_max_timestamp_ (m_End a_Timer) s
    else s in
  let s :=
    match m_Type a_Timer with
    | CORE_ACTIVITY => update_globals (set_GHasContextSwitches true) s
    | _ => s
    end in
  if (0 <? m_FunctionAddress a_Timer)
     && bool_decide (m_FunctionAddress a_Timer
                       ∈ GTargetProcess_functions (globals s))
  then update_globals
         (λ g, set_GFunctionCountMap
                 (increment64 (m_FunctionAddress a_Timer)
                    (GFunctionCountMap g)) g) s
  else s.

Definition ProcessTimer (a_Timer : Timer) (s : State) : option State :=
  let s := ProcessTimer_counters a_Timer s in
  if decide (m_Type a_Timer = GPU_ACTIVITY) then
    let timeline_hash := GetGpuTimelineHash a_Timer in
    let '(track, s) := GetOrCreateGpuTrack timeline_hash s in
    strings ← string_manager_ s;
    let text := default EmptyString (strings !! timeline_hash) in
    s ← with_track track (Track_SetName text) s;
    s ← with_track track (Track_SetLabel text) s;
    with_track track (Track_OnTimer kBlockSize a_Timer) s
  else
    let '(track, s) := GetOrCreateThreadTrack (m_TID a_Timer) s in
    s ← (if decide (m_Type a_Timer = INTROSPECTION)
         then with_track track (Track_SetColor kGreenIntrospection) s
         else Some s);
    if decide (m_Type a_Timer ≠ CORE_ACTIVITY) then
      s ← with_track track (Track_OnTimer kBlockSize a_Timer) s;
      Some (set_m_ThreadCountMap
              (increment32 (m_TID a_Timer) (m_ThreadCountMap s)) s)
    else
      scheduler ← scheduler_track_ s;
      s ← with_track scheduler (Track_OnTimer kBlockSize a_Timer) s;
      Some (set_cores_seen_ ({[m_Processor a_Timer]} ∪ cores_seen_ s) s).

(** The delivery thread calling [ProcessTimer] once per record. *)
Fixpoint ProcessTimers (timers : list Timer) (s : State) : option State :=
  match timers with
  | [] => Some s
  | timer :: rest => s ← ProcessTimer timer s; ProcessTimers rest s
  end.

End Ingestion.

(** [TimeGraph::GetNumTimers]: a [uint32_t] accumulator over [tracks_]. *)
Definition GetNumTimers_from (numTimers : N) (s : State) (tracks : list ptr)
  : option N :=
  foldl (λ acc track,
           n ← acc; t ← objects s !! track;
           Some (wrap32 (n + Track_GetNumTimers t)))
        (Some numTimers) tracks.

Definition GetNumTimers (s : State) : option N :=
  GetNumTimers_from 0 s (tracks_ s).

Definition GetNumCores (s : State) : N :=
  wrap32 (N.of_nat (size (cores_seen_ s))).

(** ** Viewport *)

Section Viewport.
Context `{Collaborators}.

Definition UpdateCaptureMinMaxTimestamps (s : State) : option (bool * State) :=
  let s := set_capture_min_timestamp_ UINT64_MAX s in
  s ← foldl (λ acc track,
               s ← acc; t ← objects s !! track;
               if 0 <? Track_GetNumTimers t then
                 let min := Track_GetMinTime t in
                 if (0 <? min) && (min <? capture_min_timestamp_ s)
                 then Some (set_capture_min_timestamp_ min s)
                 else Some s
               else Some s)
            (Some s) (tracks_ s);
  let buffer := GEventBuffer (globals s) in
  let s :=
    if EventBuffer_HasEvent buffer then
      let s := set_capture_min_timestamp_
                 (N.min (capture_min_timestamp_ s) (m_MinTime buffer)) s in
      set_capture_max_timestamp_
        (N.max (capture_max_timestamp_ s) (m_MaxTime buffer)) s
    else s in
  Some (negb (capture_min_timestamp_ s =? UINT64_MAX), s).

Definition GetCaptureTimeSpanUs (s : State) : option (double * State) :=
  '(updated, s) ← UpdateCaptureMinMaxTimestamps s;
  if updated : bool
  then Some (MicroSecondsFromTicks (capture_min_timestamp_ s)
               (capture_max_timestamp_ s), s)
  else Some (Fp.zero, s).

Definition GetCurrentTimeSpanUs (s : State) : double :=
  Fp.dsub (m_MaxTimeUs (view s)) (m_MinTimeUs (view s)).

Definition SetMinMax (a_MinTimeUs a_MaxTimeUs : double) (s : State)
  : option State :=
  let desiredTimeWindow := Fp.dsub a_MaxTimeUs a_MinTimeUs in
  let s := update_view (set_m_MinTimeUs (Fp.std_max a_MinTimeUs Fp.zero)) s in
  '(span, s) ← GetCaptureTimeSpanUs s;
  let s :=
    update_view
      (set_m_MaxTimeUs
         (Fp.std_min (Fp.dadd (m_MinTimeUs (view s)) desiredTimeWindow) span))
      s in
  Some (NeedsUpdate s).

Definition incrementRatio : double := Fp.d_0_1.

(** The reference time, the scaled bounds and the rejection test of
    [ZoomTime], as the function computes them from the window it finds. *)
Definition zoom_scale (a_ZoomValue : float) : double :=
  if Fp.gt a_ZoomValue Fp.zero
  then Fp.dadd Fp.d_one incrementRatio
  else Fp.dsub Fp.d_one incrementRatio.

Definition zoom_ref_time (a_MouseRatio : double) (w : Viewport) : double :=
  let CurrentTimeWindowUs := Fp.dsub (m_MaxTimeUs w) (m_MinTimeUs w) in
  Fp.dadd (m_MinTimeUs w) (Fp.dmul a_MouseRatio CurrentTimeWindowUs).

Definition zoom_bounds (a_ZoomValue : float) (a_MouseRatio : double)
    (w : Viewport) : double * double :=
  let scale := zoom_scale a_ZoomValue in
  let ref := zoom_ref_time a_MouseRatio w in
  let timeLeft := Fp.std_max (Fp.dsub ref (m_MinTimeUs w)) Fp.zero in
  let timeRight := Fp.std_max (Fp.dsub (m_MaxTimeUs w) ref) Fp.zero in
  (Fp.dsub ref (Fp.dmul scale timeLeft),
   Fp.dadd ref (Fp.dmul scale timeRight)).

Definition zoom_rejected (a_ZoomValue : float) (a_MouseRatio : double)
    (w : Viewport) : bool :=
  let '(minTimeUs, maxTimeUs) := zoom_bounds a_ZoomValue a_MouseRatio w in
  Fp.lt (Fp.dsub maxTimeUs minTimeUs) Fp.d_0_001.

Definition ZoomTime (a_ZoomValue : float) (a_MouseRatio : double) (s : State)
  : option State :=
  let w := view s in
  let '(minTimeUs, maxTimeUs) := zoom_bounds a_ZoomValue a_MouseRatio w in
  let rejected := zoom_rejected a_ZoomValue a_MouseRatio w in
  let s := update_view (set_m_ZoomValue a_ZoomValue) s in
  let s := update_view (set_m_MouseRatio a_MouseRatio) s in
  let s := update_view (set_m_RefTimeUs (zoom_ref_time a_MouseRatio w)) s in
  if rejected then Some s else SetMinMax minTimeUs maxTimeUs s.

Definition GetTime (a_Ratio : double) (s : State) : double :=
  let CurrentWidth := Fp.dsub (m_MaxTimeUs (view s)) (m_MinTimeUs (view s)) in
  let Delta := Fp.dmul a_Ratio CurrentWidth in
  Fp.dadd (m_MinTimeUs (view s)) Delta.

(** The two transforms return [None] when they divide by a zero. *)
Definition GetWorldFromTick (a_Time : N) (s : State) : option float :=
  let w := view s in
  if Fp.gt (m_TimeWindowUs w) Fp.zero then
    let start :=
      Fp.dsub (MicroSecondsFromTicks (capture_min_timestamp_ s) a_Time)
              (m_MinTimeUs w) in
    normalizedStart ← Fp.checked_div Fp.ddiv start (m_TimeWindowUs w);
    Some (Fp.to_float
            (Fp.dadd (Fp.to_double (m_WorldStartX w))
                     (Fp.dmul normalizedStart (Fp.to_double (m_WorldWidth w)))))
  else Some Fp.zero.

Definition GetTickFromUs (a_MicroSeconds : double) (s : State) : N :=
  wrap64 (capture_min_timestamp_ s + TicksFromMicroseconds a_MicroSeconds).

Definition GetWorldFromUs (a_Micros : double) (s : State) : option float :=
  GetWorldFromTick (GetTickFromUs a_Micros s) s.

Definition GetTickFromWorld_ratio (a_WorldX : float) (s : State)
  : option double :=
  let w := view s in
  if Fp.ne (m_WorldWidth w) Fp.zero
  then q ← Fp.checked_div Fp.fdiv
             (Fp.fsub a_WorldX (m_WorldStartX w)) (m_WorldWidth w);
       Some (Fp.to_double q)
  else Some Fp.zero.

Definition GetTickFromWorld (a_WorldX : float) (s : State) : option N :=
  ratio ← GetTickFromWorld_ratio a_WorldX s;
  let timeStamp := GetTime ratio s in
  Some (wrap64 (capture_min_timestamp_ s + TicksFromMicroseconds timeStamp)).

End Viewport.

(** ** Same-function navigation *)

(** Pointers handed out by a map, in the map's iteration order. *)
Definition map_values {A} (m : gmap N A) : list A := (map_to_list m).*2.

Definition GetAllThreadTrackTimerChains (s : State)
  : option (list (option TimerChain)) :=
  foldl (λ acc track,
           chains ← acc; t ← objects s !! track;
           Some (chains ++ Track_GetAllChains t))
        (Some []) (map_values (thread_tracks_ s)).

(** The loop state is the pair [(previous_box, previous_box_time)],
    respectively [(next_box, next_box_time)]. *)
Definition previous_visit (function_address current_time : N)
    (acc : option TextBox * N) (box : TextBox) : option TextBox * N :=
  let box_time := m_End (GetTimer box) in
  if (m_FunctionAddress (GetTimer box) =? function_address)
     && (box_time <? current_time) && (acc.2 <? box_time)
  then (Some box, box_time)
  else acc.

Definition previous_block (function_address current_time : N)
    (acc : option TextBox * N) (block : TimerBlock) : option TextBox * N :=
  if negb (Intersects block acc.2 current_time) then acc
  else foldl (previous_visit function_address current_time) acc (data_ block).

Definition previous_chain (function_address current_time : N)
    (acc : option TextBox * N) (chain : option TimerChain)
  : option TextBox * N :=
  match chain with
  | None => acc
  | Some blocks =>
      foldl (previous_block function_address current_time) acc blocks
  end.

Definition FindPreviousFunctionCall_in (chains : list (option TimerChain))
    (function_address current_time : N) : option TextBox :=
  (foldl (previous_chain function_address current_time) (None, 0) chains).1.

Definition FindPreviousFunctionCall (function_address current_time : N)
    (s : State) : option (option TextBox) :=
  chains ← GetAllThreadTrackTimerChains s;
  Some (FindPreviousFunctionCall_in chains function_address current_time).

Definition next_visit (function_address current_time : N)
    (acc : option TextBox * N) (box : TextBox) : option TextBox * N :=
  let box_time := m_End (GetTimer box) in
  if (m_FunctionAddress (GetTimer box) =? function_address)
     && (current_time <? box_time) && (box_time <? acc.2)
  then (Some box, box_time)
  else acc.

Definition next_block (function_address current_time : N)
    (acc : option TextBox * N) (block : TimerBlock) : option TextBox * N :=
  if negb (Intersects block current_time acc.2) then acc
  else foldl (next_visit function_address current_time) acc (data_ block).

Definition next_chain (function_address current_time : N)
    (acc : option TextBox * N) (chain : option TimerChain)
  : option TextBox * N :=
  match chain with
  | None => acc
  | Some blocks => foldl (next_block function_address current_time) acc blocks
  end.

Definition FindNextFunctionCall_in (chains : list (option TimerChain))
    (function_address current_time : N) : option TextBox :=
  (foldl (next_chain function_address current_time) (None, UINT64_MAX)
         chains).1.

Definition FindNextFunctionCall (function_address current_time : N)
    (s : State) : option (option TextBox) :=
  chains ← GetAllThreadTrackTimerChains s;
  Some (FindNextFunctionCall_in chains function_address current_time).

(** ** Sample selection *)

(** [m[k].emplace_back(event)]. *)
Definition emplace_back_at (k : N) (event : CallstackEvent)
    (m : gmap N (list CallstackEvent)) : gmap N (list CallstackEvent) :=
  <[k := default [] (m !! k) ++ [event]]> m.

Definition bucket_events (events : list CallstackEvent)
  : gmap N (list CallstackEvent) :=
  foldl (λ m event, emplace_back_at 0 event (emplace_back_at (ce_TID event) event m))
        ∅ events.

(** One iteration of the report loop: a resolved callstack is re-tagged with
    the event's thread in the shared store and added to the report. *)
Definition add_event_callstack (acc : SamplingProfiler * Globals)
    (event : CallstackEvent) : SamplingProfiler * Globals :=
  let '(profiler, g) := acc in
  match GSamplingProfiler_callstacks g !! m_Id event with
  | Some callstack =>
      let callstack := CallStack_set_ThreadId (ce_TID event) callstack in
      (AddCallStack callstack profiler,
       set_GSamplingProfiler_callstacks
         (<[m_Id event := callstack]> (GSamplingProfiler_callstacks g)) g)
  | None => acc
  end.

Definition AddSelectionReport (report : SamplingProfiler) (g : Globals)
  : Globals :=
  set_GSelectionReports (GSelectionReports g ++ [report]) g.

Section Selection.
Context `{Collaborators}.

Definition SelectEvents (a_WorldStart a_WorldEnd : float) (a_TID : N)
    (s : State) : option (list CallstackEvent * State) :=
  let '(a_WorldStart, a_WorldEnd) :=
    if Fp.gt a_WorldStart a_WorldEnd
    then (a_WorldEnd, a_WorldStart)
    else (a_WorldStart, a_WorldEnd) in
  t0 ← GetTickFromWorld a_WorldStart s;
  t1 ← GetTickFromWorld a_WorldEnd s;
  let selected_callstack_events :=
    EventBuffer_GetCallstackEvents (GEventBuffer (globals s)) t0 t1 a_TID in
  let s :=
    set_selected_callstack_events_per_thread_
      (bucket_events selected_callstack_events) s in
  let samplingProfiler :=
    SetGenerateSummary (a_TID =? 0) SamplingProfiler_new in
  let '(samplingProfiler, g) :=
    foldl add_event_callstack (samplingProfiler, globals s)
          selected_callstack_events in
  let s := set_globals g s in
  let samplingProfiler := ProcessSamples samplingProfiler in
  let s :=
    if 0 <? GetNumSamples samplingProfiler
    then update_globals (AddSelectionReport samplingProfiler) s
    else s in
  Some (selected_callstack_events, NeedsUpdate s).

End Selection.

(** ** Track order *)

(** [absl::StrSplit(text, ' ')]: the pieces between consecutive delimiters,
    empty pieces included. *)
Fixpoint StrSplit (text : string) (delimiter : ascii) : list string :=
  match text with
  | EmptyString => [EmptyString]
  | String c rest =>
      if Ascii.eqb c delimiter
      then EmptyString :: StrSplit rest delimiter
      else match StrSplit rest delimiter with
           | piece :: pieces => String c piece :: pieces
           | [] => [String c EmptyString]
           end
  end.

(** [absl::StrContains(haystack, needle)]. *)
Fixpoint StrContains (haystack needle : string) : bool :=
  String.prefix needle haystack
  || match haystack with
     | EmptyString => false
     | String _ rest => StrContains rest needle
     end.

(** Modelled from the spec: [OrbitUtils::ReverseValueSort] is declared in a
    header that is not part of the sources at hand; it lists the entries of
    a map ranked by descending value. *)
Definition value_ge (a b : N * N) : Prop := b.2 ≤ a.2.

#[global] Instance value_ge_dec : RelDecision value_ge.
Proof. intros a b. unfold value_ge. apply _. Defined.

Definition ReverseValueSort (m : gmap N N) : list (N * N) :=
  merge_sort value_ge (map_to_list m).

(** The first loop of [SortTracks]: one counter and one thread track per
    thread of the event buffer; [callstacks.size()] is stored in a
    [uint32_t]. *)
Definition count_thread_events (s : State)
    (pair : N * gmap N CallstackEvent) : State :=
  let '(threadID, callstacks) := pair in
  let s :=
    set_m_EventCount
      (<[threadID := wrap32 (N.of_nat (size callstacks))]> (m_EventCount s))
      s in
  (GetOrCreateThreadTrack threadID s).2.

Definition count_events (s : State) : State :=
  let s := set_m_EventCount ∅ s in
  foldl count_thread_events s
        (map_to_list (EventBuffer_GetCallstacks (GEventBuffer (globals s)))).

(** Threads with instrumented functions first, then the other threads with
    sampled events; thread [0] is handled separately. *)
Definition instrumented_thread_ids (s : State) : list N :=
  filter (λ tid, tid ≠ 0) (ReverseValueSort (m_ThreadCountMap s)).*1.

Definition sampled_thread_ids (s : State) : list N :=
  filter (λ tid, tid ≠ 0 ∧ m_ThreadCountMap s !! tid = None)
         (ReverseValueSort (m_EventCount s)).*1.

Definition sorted_thread_ids (s : State) : list N :=
  instrumented_thread_ids s ++ sampled_thread_ids s.

(** The inner loop of the name filter: the id is pushed once per matching
    token (there is no [break]). *)
Definition push_per_matching_filter (name : string) (filters : list string)
    (tid : N) : list N :=
  flat_map (λ filter, if StrContains name filter then [tid] else []) filters.

Definition filter_thread_id (filters : list string)
    (acc : option (list N * State)) (tid : N) : option (list N * State) :=
  '(filteredThreadIds, s) ← acc;
  let '(track, s) := GetOrCreateThreadTrack tid s in
  t ← objects s !! track;
  Some (filteredThreadIds
          ++ push_per_matching_filter (Track_GetName t) filters tid,
        s).

Definition filter_thread_ids (filters : list string) (ids : list N)
    (s : State) : option (list N * State) :=
  foldl (filter_thread_id filters) (Some ([], s)) ids.

Section Sorting.
Context `{Collaborators}.

Definition if_not_empty (s : State) (track : ptr) : option (list ptr) :=
  t ← objects s !! track;
  Some (if Track_IsEmpty (GEventBuffer (globals s)) t then [] else [track]).

Definition append_thread_track (acc : option (list ptr * State))
    (thread_id : N) : option (list ptr * State) :=
  '(sorted, s) ← acc;
  let '(track, s) := GetOrCreateThreadTrack thread_id s in
  shown ← if_not_empty s track;
  Some (sorted ++ shown, s).

Definition append_thread_tracks (ids : list N) (sorted : list ptr)
    (s : State) : option (list ptr * State) :=
  foldl append_thread_track (Some (sorted, s)) ids.

(** Whether [SortTracks] reorders: [millis] is what
    [m_LastThreadReorder.QueryMillis()] returns. *)
Definition reorder_due (millis : double) (s : State) : bool :=
  negb (GIsCapturing (globals s)) || Fp.gt millis Fp.d_1000.

(** The id list after the optional name filter. *)
Definition displayed_thread_ids (s : State) : option (list N * State) :=
  if decide (m_ThreadFilter s ≠ EmptyString)
  then filter_thread_ids (StrSplit (m_ThreadFilter s) " "%char)
         (sorted_thread_ids s) s
  else Some (sorted_thread_ids s, s).

Definition SortTracks (millis : double) (s : State) : option State :=
  let s := count_events s in
  if reorder_due millis s then
    '(sortedThreadIds, s) ← displayed_thread_ids s;
    scheduler ← scheduler_track_ s;
    scheduler_part ← if_not_empty s scheduler;
    let sorted := scheduler_part ++ map_values (gpu_tracks_ s) in
    process ← process_track_ s;
    process_part ← if_not_empty s process;
    let sorted := sorted ++ process_part in
    '(sorted, s) ← append_thread_tracks sortedThreadIds sorted s;
    Some (set_sorted_tracks_ sorted s)
  else Some s.

End Sorting.

(** [TimeGraph::DrawTracks], without the drawing: the labels and names it
    assigns to the tracks of [sorted_tracks_]. *)
Definition name_track (track : ptr) (s : State) : option State :=
  t ← objects s !! track;
  if decide (type_ t = kThreadTrack) then
    let tid := thread_id_ t in
    if decide (tid = 0) then
      let process_name := GProcessName (globals s) in
      s ← with_track track (Track_SetName process_name) s;
      with_track track
        (Track_SetLabel (process_name ++ " (all threads)")%string) s
    else
      let thread_name := default EmptyString (GThreadNames (globals s) !! tid) in
      let s :=
        update_globals
          (λ g, set_GThreadNames (<[tid := thread_name]> (GThreadNames g)) g) s in
      s ← with_track track (Track_SetName thread_name) s;
      with_track track
        (Track_SetLabel (thread_name ++ " [" ++ pretty tid ++ "]")%string) s
  else Some s.

Definition DrawTracks (s : State) : option State :=
  let num_cores := GetNumCores s in
  scheduler ← scheduler_track_ s;
  s ← with_track scheduler
        (Track_SetLabel ("Scheduler (" ++ pretty num_cores ++ " cores)")%string)
        s;
  foldl (λ acc track, s ← acc; name_track track s) (Some s) (sorted_tracks_ s).

(** ** The remaining viewport operations *)

(** The literals [2.0] and [1.1] as the compiler rounds them. *)
Definition d_2 : double := S754_finite false 4503599627370496 (-51).
Definition d_1_1 : double := S754_finite false 4953959590107546 (-52).

(** [double GNumHistorySeconds = 2.f] is a global variable; [ZoomAll] is
    given the value it holds at the time of the call. *)
Definition GNumHistorySeconds_initial : double := d_2.

Definition UpdateMaxTimeStamp (a_Time : N) (s : State) : State :=
  if capture_max_timestamp_ s <? a_Time
  then set_capture_max_timestamp_ a_Time s
  else s.

Definition GetTimeIntervalMicro (a_Ratio : double) (s : State) : double :=
  let CurrentWidth := Fp.dsub (m_MaxTimeUs (view s)) (m_MinTimeUs (view s)) in
  Fp.dmul a_Ratio CurrentWidth.

Section ViewportOperations.
Context `{Collaborators}.

Definition ZoomAll (GNumHistorySeconds : double) (s : State) : option State :=
  '(updated, s) ← UpdateCaptureMinMaxTimestamps s;
  if updated : bool then
    let s :=
      update_view
        (set_m_MaxTimeUs
           (MicroSecondsFromTicks (capture_min_timestamp_ s)
              (capture_max_timestamp_ s))) s in
    let s :=
      update_view
        (set_m_MinTimeUs
           (Fp.dsub (m_MaxTimeUs (view s))
              (Fp.dmul (Fp.dmul GNumHistorySeconds Fp.d_1000) Fp.d_1000)))
        s in
    let s :=
      if Fp.lt (m_MinTimeUs (view s)) Fp.zero
      then update_view (set_m_MinTimeUs Fp.zero) s
      else s in
    Some (NeedsUpdate s)
  else Some s.

(** [TimeGraph::Zoom(TickType min, TickType max)]. *)
Definition Zoom (min max : N) (s : State) : option State :=
  let start := MicroSecondsFromTicks (capture_min_timestamp_ s) min in
  let end_ := MicroSecondsFromTicks (capture_min_timestamp_ s) max in
  let mid := Fp.dadd start (Fp.ddiv (Fp.dsub end_ start) d_2) in
  let extent := Fp.ddiv (Fp.dmul d_1_1 (Fp.dsub end_ start)) d_2 in
  SetMinMax (Fp.dsub mid extent) (Fp.dadd mid extent) s.

(** [TimeGraph::Zoom(const TextBox* a_TextBox)]. *)
Definition Zoom_TextBox (a_TextBox : TextBox) (s : State) : option State :=
  let timer := GetTimer a_TextBox in
  Zoom (m_Start timer) (m_End timer) s.

Definition IsVisible (a_Timer : Timer) (s : State) : bool :=
  let start :=
    MicroSecondsFromTicks (capture_min_timestamp_ s) (m_Start a_Timer) in
  let end_ :=
    MicroSecondsFromTicks (capture_min_timestamp_ s) (m_End a_Timer) in
  let startUs := m_MinTimeUs (view s) in
  if Fp.gt startUs end_ || Fp.lt (m_MaxTimeUs (view s)) start
  then false
  else true.

Definition HorizontallyMoveIntoView (text_box : TextBox) (distance : double)
    (s : State) : option State :=
  let timer := GetTimer text_box in
  if IsVisible timer s then Some s else
  let start :=
    MicroSecondsFromTicks (capture_min_timestamp_ s) (m_Start timer) in
  let end_ :=
    MicroSecondsFromTicks (capture_min_timestamp_ s) (m_End timer) in
  let mid := Fp.dadd start (Fp.ddiv (Fp.dsub end_ start) d_2) in
  let distance :=
    if Fp.lt start (m_MinTimeUs (view s))
    then Fp.dsub Fp.d_one distance
    else distance in
  let CurrentTimeWindowUs :=
    Fp.dsub (m_MaxTimeUs (view s)) (m_MinTimeUs (view s)) in
  s ← SetMinMax
        (Fp.dsub mid (Fp.dmul CurrentTimeWindowUs (Fp.dsub Fp.d_one distance)))
        (Fp.dadd mid (Fp.dmul CurrentTimeWindowUs distance)) s;
  Some (NeedsUpdate s).

Definition OnDrag (a_Ratio : float) (s : State) : option State :=
  let w := view s in
  '(timeSpan, s) ← GetCaptureTimeSpanUs s;
  let timeWindow := Fp.dsub (m_MaxTimeUs w) (m_MinTimeUs w) in
  let s :=
    update_view
      (set_m_MinTimeUs
         (Fp.dmul (Fp.to_double a_Ratio) (Fp.dsub timeSpan timeWindow))) s in
  Some (update_view
          (set_m_MaxTimeUs (Fp.dadd (m_MinTimeUs (view s)) timeWindow)) s).

Definition GetUsFromTick (time : N) (s : State) : double :=
  Fp.dsub (MicroSecondsFromTicks (capture_min_timestamp_ s) time)
          (m_MinTimeUs (view s)).

(** The two reference arguments are returned as a pair. *)
Definition GetWorldMinMax (s : State) : option (float * float) :=
  a_Min ← GetWorldFromTick (capture_min_timestamp_ s) s;
  a_Max ← GetWorldFromTick (capture_max_timestamp_ s) s;
  Some (a_Min, a_Max).

End ViewportOperations.

(** ** The remaining queries *)

Definition GetAllTimerChains (s : State)
  : option (list (option TimerChain)) :=
  foldl (λ acc track,
           chains ← acc; t ← objects s !! track;
           Some (chains ++ Track_GetAllChains t))
        (Some []) (tracks_ s).

(** [selected_callstack_events_per_thread_[tid]] default-inserts an empty
    vector for a thread without a selection. *)
Definition GetSelectedCallstackEvents (tid : N) (s : State)
  : list CallstackEvent * State :=
  match selected_callstack_events_per_thread_ s !! tid with
  | Some events => (events, s)
  | None =>
      ([], set_selected_callstack_events_per_thread_
             (<[tid := []]> (selected_callstack_events_per_thread_ s)) s)
  end.

(** ** The sampled-event strip of a thread track ([EventTrack.cpp]) *)

(** A [Vec2] holds two floats, read as [v[0]] and [v[1]]. *)
Record Vec2 : Type := { Vec2_0 : float; Vec2_1 : float }.

(** The canvas is reached through [m_Canvas]; its class is not part of the
    sources at hand, and of its interface only [ScreenToWorld] is called
    here: it writes the world position of a screen position into its two
    reference arguments, returned here as a [Vec2]. *)
Record GlCanvas : Type := { ScreenToWorld : Z → Z → Vec2 }.

(** [s.c_str()] as [%s] reads it back: the characters before the first
    [NUL]. *)
Fixpoint c_str (s : string) : string :=
  match s with
  | EmptyString => EmptyString
  | String c rest =>
      if Ascii.eqb c "000"%char then EmptyString else String c (c_str rest)
  end.

(** [GetCallstacks()[tid]] default-inserts an empty map for a thread
    without sampled events. *)
Definition EventBuffer_callstacks_at (tid : N) (b : EventBuffer)
  : gmap N CallstackEvent * EventBuffer :=
  match m_CallstackEvents b !! tid with
  | Some callstacks => (callstacks, b)
  | None =>
      (∅, {| m_CallstackEvents := <[tid := ∅]> (m_CallstackEvents b);
             m_MaxTime := m_MaxTime b; m_MinTime := m_MinTime b |})
  end.

Module EventTrack.

(** The members the modelled member functions read or write; [m_Canvas] is
    the canvas of the last [Draw], null before the first one. *)
Record t : Type := {
  m_ThreadId : N;
  m_Color : Color;
  m_MousePos : Vec2 * Vec2;
  m_Picked : bool;
  m_Canvas : option GlCanvas
}.

Definition set_m_MousePos (v : Vec2 * Vec2) (track : t) : t :=
  {| m_ThreadId := m_ThreadId track; m_Color := m_Color track;
     m_MousePos := v; m_Picked := m_Picked track;
     m_Canvas := m_Canvas track |}.

Definition set_m_Picked (v : bool) (track : t) : t :=
  {| m_ThreadId := m_ThreadId track; m_Color := m_Color track;
     m_MousePos := m_MousePos track; m_Picked := v;
     m_Canvas := m_Canvas track |}.

Definition set_m_Canvas (v : option GlCanvas) (track : t) : t :=
  {| m_ThreadId := m_ThreadId track; m_Color := m_Color track;
     m_MousePos := m_MousePos track; m_Picked := m_Picked track;
     m_Canvas := v |}.

(** The constructor body, applied to what the base-class constructor
    left. *)
Definition new (track : t) : t :=
  {| m_ThreadId := m_ThreadId track;
     m_Color := {| red := 0; green := 255; blue := 0; alpha := 255 |};
     m_MousePos := ({| Vec2_0 := Fp.zero; Vec2_1 := Fp.zero |},
                    {| Vec2_0 := Fp.zero; Vec2_1 := Fp.zero |});
     m_Picked := false;
     m_Canvas := m_Canvas track |}.

Definition GetTooltip : string := "Left-click and drag to select samples.".

(** [EventTrack::Draw], without the primitives handed to the canvas'
    batcher: the canvas is remembered. *)
Definition Draw (canvas : GlCanvas) (track : t) : t :=
  set_m_Canvas (Some canvas) track.

(** The first component of the result is the value assigned to
    [Capture::GSelectedThreadId]. *)
Definition OnPick (a_X a_Y : Z) (track : t) : option (N * t) :=
  canvas ← m_Canvas track;
  let mousePos := ScreenToWorld canvas a_X a_Y in
  let track := set_m_MousePos (mousePos, (m_MousePos track).2) track in
  let track :=
    set_m_MousePos ((m_MousePos track).1, (m_MousePos track).1) track in
  Some (m_ThreadId track, set_m_Picked true track).

Definition OnDrag (a_X a_Y : Z) (track : t) : option t :=
  canvas ← m_Canvas track;
  Some (set_m_MousePos
          ((m_MousePos track).1, ScreenToWorld canvas a_X a_Y) track).

Section TimeGraphCalls.
Context `{Collaborators}.

Definition SelectEvents (track : t) (s : State) : option State :=
  let from := (m_MousePos track).1 in
  let to := (m_MousePos track).2 in
  snd <$> SelectEvents (Vec2_0 from) (Vec2_0 to) (m_ThreadId track) s.

Definition OnRelease (track : t) (s : State) : option (t * State) :=
  s ← (if m_Picked track then SelectEvents track s else Some s);
  Some (set_m_Picked false track, s).

End TimeGraphCalls.

Definition IsEmpty (track : t) (b : EventBuffer) : bool * EventBuffer :=
  let '(callstacks, b) := EventBuffer_callstacks_at (m_ThreadId track) b in
  (bool_decide (callstacks = ∅), b).

Definition SafeGetFormattedFunctionName
    (GAddressToFunctionName : gmap N string) (addr : N) : string :=
  default "<i>???</i>"%string (GAddressToFunctionName !! addr).

(** [userData] is what [GetBatcher().GetUserData(id)] returns (null is
    [None]) and, inside it, [m_CustomData] the sampled event the picked box
    stands for.  The result is [None] when the function dereferences a
    null pointer or reads [m_Data[0]] of a callstack without frames. *)
Definition GetSampleTooltip (GAddressToFunctionName : gmap N string)
    (g : Globals) (userData : option (option CallstackEvent))
  : option string :=
  m_CustomData ← userData;
  match m_CustomData with
  | Some callstackEvent =>
      match GSamplingProfiler_callstacks g !! m_Id callstackEvent with
      | Some callstack =>
          first ← m_Data callstack !! 0%nat;
          let functionName :=
            SafeGetFormattedFunctionName GAddressToFunctionName first in
          let result :=
            ("<b>" ++ c_str functionName
             ++ "</b><br/><i>Sampled event</i><br/><br/><b>Callstack:</b>"
            )%string in
          Some (foldl (λ result addr,
                         (result ++ "<br/>"
                          ++ SafeGetFormattedFunctionName
                               GAddressToFunctionName addr)%string)
                      result (m_Data callstack))
      | None => Some "Unknown sampled event"%string
      end
  | None => Some "Unknown sampled event"%string
  end.

End EventTrack.

(** ** Invariants of the track bookkeeping *)

(** The tracks in [tracks_] are distinct live objects; the scheduler track,
    the process track and every track of the two lookup maps are among
    them; the process track is the thread track of id [0]. *)
Definition State_ok (s : State) : Prop :=
  NoDup (tracks_ s)
  ∧ Forall (λ p, p < length (objects s))%nat (tracks_ s)
  ∧ from_option (λ p, p ∈ tracks_ s) False (scheduler_track_ s)
  ∧ is_Some (process_track_ s)
  ∧ process_track_ s = thread_tracks_ s !! 0
  ∧ map_Forall (λ _ p, p ∈ tracks_ s) (thread_tracks_ s)
  ∧ map_Forall (λ _ p, p ∈ tracks_ s) (gpu_tracks_ s).

#[global] Instance State_ok_dec s : Decision (State_ok s).
Proof. unfold State_ok. destruct (scheduler_track_ s); simpl; apply _. Defined.

(** The cached range of a block covers its records, and a record ends no
    earlier than it starts. *)
Definition TextBox_in_range (b : TimerBlock) (box : TextBox) : Prop :=
  min_timestamp_ b ≤ m_Start (GetTimer box)
  ∧ m_Start (GetTimer box) ≤ m_End (GetTimer box)
  ∧ m_End (GetTimer box) ≤ max_timestamp_ b.

Definition TimerBlock_ok (b : TimerBlock) : Prop :=
  Forall (TextBox_in_range b) (data_ b).

Definition TimerChain_ok (chain : TimerChain) : Prop :=
  Forall TimerBlock_ok chain.

Definition chains_ok (chains : list (option TimerChain)) : Prop :=
  Forall (from_option TimerChain_ok True) chains.

Definition Timers_ok (s : State) : Prop :=
  Forall (λ t, TimerChain_ok (timers_ t)) (objects s).

#[global] Instance Timers_ok_dec s : Decision (Timers_ok s).
Proof.
  unfold Timers_ok, TimerChain_ok, TimerBlock_ok, TextBox_in_range. apply _.
Defined.

(** ** Vocabulary of the statements *)

(** Calling a get-or-create function once per key of a list. *)
Definition create_all (create : N -> State -> ptr * State)
    (keys : list N) (s : State) : State :=
  foldl (λ s k, (create k s).2) s keys.

(** The number of records held by the tracks of [tracks_]. *)
Definition track_size (s : State) (p : ptr) : nat :=
  from_option (λ t, TimerChain_size (timers_ t)) 0%nat (objects s !! p).

Definition total_timers (s : State) : nat :=
  sum_list_with (track_size s) (tracks_ s).

(** The boxes an exhaustive scan of the chains visits. *)
Definition chains_boxes (chains : list (option TimerChain)) : list TextBox :=
  chain ← chains; from_option TimerChain_boxes [] chain.

(** What the specification says of a sequence of timers ingested into a
    fresh graph [s0], with the count of [GetNumTimers] as the code computes
    it (a [uint32_t]): the run reaches a state [s']; the maximum timestamp
    never decreases from one call to the next and ends as the largest end
    tick of the sequence; the number of timers is the length of the
    sequence modulo [2^32]. *)
Definition ingests_to `{Collaborators} (timers : list Timer) (s0 s' : State)
  : Prop :=
  ProcessTimers timers s0 = Some s'
  ∧ (∀ before timer after, timers = before ++ timer :: after →
       ∃ s1 s2, ProcessTimers before s0 = Some s1
                ∧ ProcessTimer timer s1 = Some s2
                ∧ capture_max_timestamp_ s1 ≤ capture_max_timestamp_ s2)
  ∧ (∀ timer, timer ∈ timers → m_End timer ≤ capture_max_timestamp_ s')
  ∧ (timers ≠ [] →
       ∃ timer, timer ∈ timers ∧ capture_max_timestamp_ s' = m_End timer)
  ∧ GetNumTimers s' = Some (wrap32 (N.of_nat (length timers)))
  ∧ (N.of_nat (length timers) < UINT32_MOD →
       GetNumTimers s' = Some (N.of_nat (length timers))).

(** The instrumented calls of a thread among the ingested timers: the
    records [ProcessTimer] appends to the thread's own track. *)
Definition instrumented_call (tid : N) (timer : Timer) : Prop :=
  m_TID timer = tid
  ∧ m_Type timer ≠ GPU_ACTIVITY ∧ m_Type timer ≠ CORE_ACTIVITY.

#[global] Instance instrumented_call_dec tid timer :
  Decision (instrumented_call tid timer).
Proof. unfold instrumented_call. apply _. Defined.

Definition instrumented_calls (timers : list Timer) (tid : N) : nat :=
  length (filter (instrumented_call tid) timers).

(** A [uint32_t] counter after [n] increments. *)
Definition counter_after (n : nat) (counter : option N) : option N :=
  match n with
  | O => counter
  | S _ => Some (wrap32 (default 0 counter + N.of_nat n))
  end.

(** The records of the thread tracks: what [GetAllThreadTrackTimerChains]
    hands to the two searches. *)
Definition thread_track_box (s : State) (box : TextBox) : Prop :=
  ∃ tid track t,
    thread_tracks_ s !! tid = Some track ∧ objects s !! track = Some t
    ∧ box ∈ TimerChain_boxes (timers_ t).

(** [box] is the record of function [function_address] that ends closest
    before [current_time] among the records of the thread tracks. *)
Definition closest_before (s : State) (function_address current_time : N)
    (box : TextBox) : Prop :=
  thread_track_box s box
  ∧ m_FunctionAddress (GetTimer box) = function_address
  ∧ m_End (GetTimer box) < current_time
  ∧ ∀ other, thread_track_box s other →
      m_FunctionAddress (GetTimer other) = function_address →
      m_End (GetTimer other) < current_time →
      m_End (GetTimer other) ≤ m_End (GetTimer box).

Definition closest_after (s : State) (function_address current_time : N)
    (box : TextBox) : Prop :=
  thread_track_box s box
  ∧ m_FunctionAddress (GetTimer box) = function_address
  ∧ current_time < m_End (GetTimer box)
  ∧ ∀ other, thread_track_box s other →
      m_FunctionAddress (GetTimer other) = function_address →
      current_time < m_End (GetTimer other) →
      m_End (GetTimer box) ≤ m_End (GetTimer other).

(** The callstack id of the event resolves in the callstack store. *)
Definition resolves (g : Globals) (event : CallstackEvent) : Prop :=
  is_Some (GSamplingProfiler_callstacks g !! m_Id event).

#[global] Instance resolves_dec g event : Decision (resolves g event).
Proof. unfold resolves. apply _. Defined.

Section DisplayOrder.
Context `{Collaborators}.

(** What a track contributes to the display: itself unless it is empty. *)
Definition shown (s : State) (track : ptr) : list ptr :=
  default [] (if_not_empty s track).

(** What a thread id contributes: its thread track unless that is empty. *)
Definition thread_shown (s : State) (tid : N) : list ptr :=
  from_option (shown s) [] (thread_tracks_ s !! tid).

End DisplayOrder.

(** The display name of the track of a thread. *)
Definition thread_name (s : State) (tid : N) : string :=
  from_option Track_GetName EmptyString
    (thread_tracks_ s !! tid ≫= λ track, objects s !! track).

(** The counts the two rankings use: instrumented calls per thread, and
    sampled events per thread as [SortTracks] stores them. *)
Definition call_count (s : State) (tid : N) : N :=
  default 0 (m_ThreadCountMap s !! tid).

Definition sampled_events (s : State) : gmap N (gmap N CallstackEvent) :=
  m_CallstackEvents (GEventBuffer (globals s)).

Definition event_count (s : State) (tid : N) : N :=
  wrap32 (N.of_nat (size (default ∅ (sampled_events s !! tid)))).

Definition ranked_by (count : N → N) (ids : list N) : Prop :=
  StronglySorted (λ a b, count b ≤ count a) ids.

(** The thread ids [SortTracks] computes before the name filter:
    [instrumented] are the threads with a call counter, by descending
    counter; [sampled] are the threads with sampled events and no call
    counter, by descending event count; thread [0] is in neither. *)
Definition ranked_thread_ids (s : State) (instrumented sampled : list N)
  : Prop :=
  NoDup instrumented
  ∧ (∀ tid, tid ∈ instrumented ↔
            tid ≠ 0 ∧ is_Some (m_ThreadCountMap s !! tid))
  ∧ ranked_by (call_count s) instrumented
  ∧ NoDup sampled
  ∧ (∀ tid, tid ∈ sampled ↔
            tid ≠ 0 ∧ m_ThreadCountMap s !! tid = None
            ∧ is_Some (sampled_events s !! tid))
  ∧ ranked_by (event_count s) sampled.

(** The name filter as the code applies it: every id once per token of the
    filter that its track's name contains. *)
Definition filtered_by_name (s : State) (filter_text : string)
    (ids : list N) : list N :=
  tid ← ids;
  push_per_matching_filter (thread_name s tid)
    (StrSplit filter_text " "%char) tid.

(** The ids whose thread tracks [SortTracks] lists: the ranked ids, passed
    through the name filter when one is set. *)
Definition listed_thread_ids (s : State) (instrumented sampled : list N)
  : list N :=
  if decide (m_ThreadFilter s = EmptyString)
  then instrumented ++ sampled
  else filtered_by_name s (m_ThreadFilter s) (instrumented ++ sampled).

(** The display order the specification describes, read off the state after
    the sort. *)
Definition display_order `{Collaborators} (s : State)
    (instrumented sampled : list N) : list ptr :=
  from_option (shown s) [] (scheduler_track_ s)
  ++ map_values (gpu_tracks_ s)
  ++ thread_shown s 0
  ++ (listed_thread_ids s instrumented sampled ≫= thread_shown s).

(** The tokens of the filter that a name contains. *)
Definition matching_filters (name : string) (filters : list string)
  : list string :=
  filter (λ token, StrContains name token = true) filters.

(** ** Vocabulary of the proofs *)

(** The summary of a sequence of [with_track] calls on tracks of
    [tracks_]: [k] records were added; when [wf] holds (the record being
    ingested is well formed) the stored records stay well formed. *)
Record ingested (wf : Prop) (k : nat) (s s' : State) : Prop := {
  ingested_ok : State_ok s';
  ingested_timers : wf → Timers_ok s → Timers_ok s';
  ingested_max : capture_max_timestamp_ s' = capture_max_timestamp_ s;
  ingested_strings : string_manager_ s' = string_manager_ s;
  ingested_scheduler : scheduler_track_ s' = scheduler_track_ s;
  ingested_total : total_timers s' = (total_timers s + k)%nat
}.

(** Both searches are the same scan: a record replaces the current choice
    when it belongs to the queried function, lies on the requested side of
    the reference time and is strictly closer than the current choice; a
    block is skipped when its cached range misses the window between the
    reference time and the current choice. *)
Section ClosestScanDefinitions.
Variable function_address : N.
(** [on_side e]: the end tick [e] lies on the requested side. *)
Variable on_side : N → bool.
(** [closer a e]: the end tick [e] beats the current choice [a]. *)
Variable closer : N → N → bool.
(** [skip b a]: block [b] is pruned when the current choice is [a]. *)
Variable skip : TimerBlock → N → bool.
(** [no_closer x y]: the end tick [x] is not closer than [y]. *)
Variable no_closer : N → N → Prop.
(** The time recorded while nothing is chosen. *)
Variable initial_time : N.

Definition scan_visit (acc : option TextBox * N) (box : TextBox)
  : option TextBox * N :=
  let box_time := m_End (GetTimer box) in
  if (m_FunctionAddress (GetTimer box) =? function_address)
     && on_side box_time && closer acc.2 box_time
  then (Some box, box_time)
  else acc.

Definition scan_block (acc : option TextBox * N) (block : TimerBlock)
  : option TextBox * N :=
  if skip block acc.2 then acc else foldl scan_visit acc (data_ block).

Definition scan_chain (acc : option TextBox * N) (chain : option TimerChain)
  : option TextBox * N :=
  match chain with
  | None => acc
  | Some blocks => foldl scan_block acc blocks
  end.

Definition candidate (box : TextBox) : Prop :=
  m_FunctionAddress (GetTimer box) = function_address
  ∧ on_side (m_End (GetTimer box)) = true.

(** After the boxes [seen] were scanned: the choice, if any, is a candidate
    among them and its end tick is the recorded time; without a choice the
    recorded time is the initial one; no candidate among them is closer
    than the recorded time. *)
Definition scanned (seen : list TextBox) (acc : option TextBox * N) : Prop :=
  from_option
    (λ box, box ∈ seen ∧ candidate box ∧ acc.2 = m_End (GetTimer box))
    (acc.2 = initial_time) acc.1
  ∧ ∀ box, box ∈ seen → candidate box → no_closer (m_End (GetTimer box)) acc.2.

End ClosestScanDefinitions.

(** [s'] is [s] with more thread tracks: nothing that existed is changed. *)
Record extends (s s' : State) : Prop := {
  ext_objects : objects s `prefix_of` objects s';
  ext_threads : thread_tracks_ s ⊆ thread_tracks_ s';
  ext_gpu : gpu_tracks_ s' = gpu_tracks_ s;
  ext_scheduler : scheduler_track_ s' = scheduler_track_ s;
  ext_process : process_track_ s' = process_track_ s;
  ext_globals : globals s' = globals s;
  ext_filter : m_ThreadFilter s' = m_ThreadFilter s;
  ext_counts : m_ThreadCountMap s' = m_ThreadCountMap s
}.

(** ** A concrete choice of collaborators

    Used to run the model on examples: ticks are nanoseconds, a block holds
    two records, a track is empty when it holds no timer and its thread has
    no sampled event. *)

Definition double_of_N (n : N) : double :=
  match n with
  | 0 => Fp.zero
  | Npos p => Fp.of_pos Fp.dprec Fp.demax p
  end.

Definition N_of_double (x : double) : N :=
  match x with
  | S754_finite false m e =>
      match e with
      | Z0 => Npos m
      | Zpos k => Npos m * 2 ^ Npos k
      | Zneg k => Npos m / 2 ^ Npos k
      end
  | _ => 0
  end.

#[local] Instance example_collaborators : Collaborators := {|
  MicroSecondsFromTicks := λ t0 t1,
    Fp.dmul (double_of_N (wrap64 (t1 + UINT64_MOD - t0))) Fp.d_0_001;
  TicksFromMicroseconds := λ us, wrap64 (N_of_double (Fp.dmul us Fp.d_1000));
  kBlockSize := 2;
  Track_IsEmpty := λ buffer t,
    (Track_GetNumTimers t =? 0)
    && bool_decide (default ∅ (m_CallstackEvents buffer !! thread_id_ t) = ∅);
  EventBuffer_HasEvent := λ buffer,
    bool_decide (∃ tid events,
                   m_CallstackEvents buffer !! tid = Some events ∧ events ≠ ∅)
|}.

(** ** Example data *)

Definition example_globals : Globals :=
  {| GEventBuffer := EventBuffer_Reset; GHasContextSwitches := false;
     GFunctionCountMap := ∅; GTargetProcess_functions := {[100]};
     GSamplingProfiler_callstacks := ∅; GIsCapturing := false;
     GThreadNames := {[7 := "ab"%string; 8 := "worker"%string]};
     GProcessName := "game"%string; GSelectionReports := [] |}.

Definition example_timer (tid start stop address : N) (type : TimerType)
  : Timer :=
  {| m_TID := tid; m_Processor := 1; m_Start := start; m_End := stop;
     m_FunctionAddress := address; m_Type := type; m_UserData := (0, 55) |}.

Definition example_timers : list Timer :=
  [ example_timer 7 10 20 100 NONE;
    example_timer 7 30 40 100 NONE;
    example_timer 8 5 50 100 NONE;
    example_timer 7 60 70 100 NONE;
    example_timer 8 41 44 200 NONE;
    example_timer 3 1 2 0 CORE_ACTIVITY;
    example_timer 3 1 2 0 GPU_ACTIVITY ].

Definition example_fresh : State :=
  SetStringManager ∅ (TimeGraph_new example_globals).

(** The state after the example timers were ingested. *)
Definition example_state : State :=
  default example_fresh
    (ProcessTimers (H := example_collaborators) example_timers example_fresh).

Definition example_event (time id tid : N) : CallstackEvent :=
  {| m_Time := time; m_Id := id; ce_TID := tid |}.

Definition example_buffer : EventBuffer :=
  {| m_CallstackEvents :=
       {[ 7 := {[ 1500 := example_event 1500 11 7;
                  2500 := example_event 2500 12 7 ]};
          9 := {[ 1800 := example_event 1800 11 9 ]} ]};
     m_MaxTime := 2500; m_MinTime := 1500 |}.

Definition example_view : Viewport :=
  {| m_MinTimeUs := Fp.zero;
     m_MaxTimeUs := Fp.of_pos Fp.dprec Fp.demax 4;
     m_TimeWindowUs := Fp.of_pos Fp.dprec Fp.demax 4;
     m_RefTimeUs := Fp.zero; m_MouseRatio := Fp.zero; m_ZoomValue := Fp.zero;
     m_WorldStartX := Fp.zero;
     m_WorldWidth := Fp.of_pos Fp.fprec Fp.femax 4 |}.

(** The example state with sampled events, one stored callstack ([11]) and
    a four-microsecond window mapped onto a world four units wide. *)
Definition example_sampled_state : State :=
  set_view example_view
    (update_globals
       (λ g, set_GSamplingProfiler_callstacks
               {[ 11 := {| m_Hash := 11; m_Data := [4096; 4100];
                           m_ThreadId := 0 |} ]}
               (set_GEventBuffer example_buffer g))
       example_state).

(** The example state after one frame ([SortTracks], then [DrawTracks],
    which names the tracks after [Capture::GThreadNames]) and after the
    user typed the filter [a b]. *)
Definition example_drawn_state : State :=
  default example_state
    (SortTracks (H := example_collaborators) Fp.zero example_state
       ≫= DrawTracks).

Definition example_filtered_state : State :=
  SetThreadFilter "a b" example_drawn_state.

(** One half, and a window of [2^-11] microseconds starting at [5]. *)
Definition example_half : double :=
  Fp.ddiv Fp.d_one (Fp.of_pos Fp.dprec Fp.demax 2).

Definition example_narrow_view : Viewport :=
  {| m_MinTimeUs := Fp.of_pos Fp.dprec Fp.demax 5;
     m_MaxTimeUs :=
       Fp.dadd (Fp.of_pos Fp.dprec Fp.demax 5)
         (Fp.ddiv Fp.d_one (Fp.of_pos Fp.dprec Fp.demax 2048));
     m_TimeWindowUs := Fp.ddiv Fp.d_one (Fp.of_pos Fp.dprec Fp.demax 2048);
     m_RefTimeUs := Fp.zero; m_MouseRatio := Fp.zero; m_ZoomValue := Fp.zero;
     m_WorldStartX := Fp.zero;
     m_WorldWidth := Fp.of_pos Fp.fprec Fp.femax 4 |}.

(** ** Vocabulary of the further properties

    *** Ingestion and track bookkeeping *)

(** The records of the track at [p], oldest first (none when [p] points to
    no object). *)
Definition track_boxes (s : State) (p : ptr) : list TextBox :=
  from_option (λ t, TimerChain_boxes (timers_ t)) [] (objects s !! p).

(** The track a record belongs to, by its type. *)
Definition receiving_track (timer : Timer) (s : State) : option ptr :=
  match m_Type timer with
  | GPU_ACTIVITY => gpu_tracks_ s !! GetGpuTimelineHash timer
  | CORE_ACTIVITY => scheduler_track_ s
  | _ => thread_tracks_ s !! m_TID timer
  end.

(** The track at [p] is a live object that satisfies [P]. *)
Definition track_is (P : Track → Prop) (s : State) (p : ptr) : Prop :=
  ∃ t, objects s !! p = Some t ∧ P t.

(** What the three kinds of entries point to; the event strip of a thread
    track has the palette colour of the thread id. *)
Definition is_scheduler_track (t : Track) : Prop :=
  type_ t = kSchedulerTrack.

Definition is_thread_track (tid : N) (t : Track) : Prop :=
  type_ t = kThreadTrack ∧ thread_id_ t = tid
  ∧ event_track_color_ t = GetThreadColor tid.

Definition is_gpu_track (timeline_hash : N) (t : Track) : Prop :=
  type_ t = kGpuTrack ∧ timeline_hash_ t = timeline_hash.

(** The lookup maps agree with the tracks they point to: the scheduler
    pointer leads to a scheduler track, the entry of a thread id to the
    thread track of that id, coloured for that id, and the entry of a
    timeline hash to the gpu track of that hash. *)
Definition Tracks_typed (s : State) : Prop :=
  from_option (track_is is_scheduler_track s) True (scheduler_track_ s)
  ∧ map_Forall (λ tid, track_is (is_thread_track tid) s) (thread_tracks_ s)
  ∧ map_Forall (λ h, track_is (is_gpu_track h) s) (gpu_tracks_ s).

#[global] Instance Color_eq_dec : EqDecision Color.
Proof. solve_decision. Defined.

#[global] Instance track_is_dec (P : Track → Prop) `{∀ t, Decision (P t)}
    s p : Decision (track_is P s p).
Proof.
  unfold track_is. destruct (objects s !! p) as [t|].
  - destruct (decide (P t)) as [HP|HP].
    + left. by exists t.
    + right. intros (t' & [= <-] & HP'). by apply HP.
  - right. by intros (t' & [=] & _).
Defined.

#[global] Instance Tracks_typed_dec s : Decision (Tracks_typed s).
Proof.
  unfold Tracks_typed, is_scheduler_track, is_thread_track, is_gpu_track.
  destruct (scheduler_track_ s); simpl; apply _.
Defined.

(** The display order holds live tracks. *)
Definition Sorted_live (s : State) : Prop :=
  Forall (λ p, p < length (objects s))%nat (sorted_tracks_ s).

(** [f] changes neither the kind of a track nor its key nor the colour of
    its event strip. *)
Definition keeps_identity (f : Track → Track) : Prop :=
  ∀ t, type_ (f t) = type_ t ∧ thread_id_ (f t) = thread_id_ t
       ∧ timeline_hash_ (f t) = timeline_hash_ t
       ∧ event_track_color_ (f t) = event_track_color_ t.

(** How the operations move the state: they keep the bookkeeping invariant
    and the agreement of the lookup maps, never shrink the store, and leave
    the string manager and the display order alone; the maximum timestamp
    does not decrease. *)
Record evolves (s s' : State) : Prop := {
  ev_ok : State_ok s → State_ok s';
  ev_typed : Tracks_typed s → Tracks_typed s';
  ev_length : (length (objects s) ≤ length (objects s'))%nat;
  ev_strings : string_manager_ s' = string_manager_ s;
  ev_max : capture_max_timestamp_ s ≤ capture_max_timestamp_ s';
  ev_sorted : sorted_tracks_ s' = sorted_tracks_ s
}.

(** [s'] differs from [s] at most in the store and the track bookkeeping. *)
Record same_fields (s s' : State) : Prop := {
  sf_cores : cores_seen_ s' = cores_seen_ s;
  sf_counts : m_ThreadCountMap s' = m_ThreadCountMap s;
  sf_events : m_EventCount s' = m_EventCount s;
  sf_min : capture_min_timestamp_ s' = capture_min_timestamp_ s;
  sf_max : capture_max_timestamp_ s' = capture_max_timestamp_ s;
  sf_view : view s' = view s;
  sf_update : m_NeedsUpdatePrimitives s' = m_NeedsUpdatePrimitives s;
  sf_redraw : m_NeedsRedraw s' = m_NeedsRedraw s;
  sf_filter : m_ThreadFilter s' = m_ThreadFilter s;
  sf_selected : selected_callstack_events_per_thread_ s'
                = selected_callstack_events_per_thread_ s;
  sf_strings : string_manager_ s' = string_manager_ s;
  sf_sorted : sorted_tracks_ s' = sorted_tracks_ s;
  sf_globals : globals s' = globals s
}.

(** The processors of the context switches among the records. *)
Definition core_processors (timers : list Timer) : gset N :=
  list_to_set (m_Processor <$> filter (λ t, m_Type t = CORE_ACTIVITY) timers).

(** The records that count as a hit of the function at [addr]: the address
    is not [0] and the target process resolves it. *)
Definition counted_call (g : Globals) (addr : N) (timer : Timer) : Prop :=
  m_FunctionAddress timer = addr ∧ 0 < addr
  ∧ addr ∈ GTargetProcess_functions g.

#[global] Instance counted_call_dec g addr timer :
  Decision (counted_call g addr timer).
Proof. unfold counted_call. apply _. Defined.

Definition counted_calls (g : Globals) (timers : list Timer) (addr : N)
  : nat :=
  length (filter (counted_call g addr) timers).

(** A [uint64_t] counter after [n] increments. *)
Definition counter64_after (n : nat) (counter : option N) : option N :=
  match n with
  | O => counter
  | S _ => Some (wrap64 (default 0 counter + N.of_nat n))
  end.

(** *** The capture range and the window *)

Section CaptureRange.
Context `{Collaborators}.

(** The minimum start time [UpdateCaptureMinMaxTimestamps] reads from a
    track: tracks without timers and a minimum of [0] are skipped. *)
Definition track_min_time (s : State) (p : ptr) : option N :=
  t ← objects s !! p;
  if (0 <? Track_GetNumTimers t) && (0 <? Track_GetMinTime t)
  then Some (Track_GetMinTime t)
  else None.

(** The two capture timestamps as [UpdateCaptureMinMaxTimestamps]
    recomputes them. *)
Definition capture_min_of (s : State) : N :=
  let tracks_min :=
    foldl N.min UINT64_MAX (omap (track_min_time s) (tracks_ s)) in
  let buffer := GEventBuffer (globals s) in
  if EventBuffer_HasEvent buffer
  then N.min tracks_min (m_MinTime buffer)
  else tracks_min.

Definition capture_max_of (s : State) : N :=
  let buffer := GEventBuffer (globals s) in
  if EventBuffer_HasEvent buffer
  then N.max (capture_max_timestamp_ s) (m_MaxTime buffer)
  else capture_max_timestamp_ s.

(** The window lies inside the capture: it does not start before [0] and
    does not end after the capture's time span, which is what
    [GetCaptureTimeSpanUs] returns without changing anything. *)
Definition window_within_capture (s : State) : Prop :=
  Fp.lt (m_MinTimeUs (view s)) Fp.zero = false
  ∧ ∃ span, GetCaptureTimeSpanUs s = Some (span, s)
            ∧ Fp.lt span (m_MaxTimeUs (view s)) = false.

(** What [GetCaptureTimeSpanUs] returns. *)
Definition capture_span_of (s : State) : double :=
  if capture_min_of s =? UINT64_MAX
  then Fp.zero
  else MicroSecondsFromTicks (capture_min_of s) (capture_max_of s).

(** The two capture timestamps are up to date. *)
Definition capture_range_settled (s : State) : Prop :=
  capture_min_timestamp_ s = capture_min_of s
  ∧ capture_max_timestamp_ s = capture_max_of s.

End CaptureRange.

(** A float below zero. *)
Definition is_negative (x : spec_float) : bool :=
  match x with
  | S754_finite true _ _ | S754_infinity true => true
  | _ => false
  end.

(** *** Selections *)

(** What the buckets of [SelectEvents] hold for thread [tid] of an event:
    the event under its own thread, and once more under key [0]. *)
Definition selected_for (tid : N) (event : CallstackEvent)
  : list CallstackEvent :=
  (if decide (ce_TID event = tid) then [event] else [])
  ++ (if decide (tid = 0) then [event] else []).

(** The callstacks a selection adds to its report: one per event whose
    callstack id resolves, tagged with the thread of the event. *)
Definition resolved_callstacks (g : Globals) (events : list CallstackEvent)
  : list CallStack :=
  omap (λ event,
          CallStack_set_ThreadId (ce_TID event)
            <$> GSamplingProfiler_callstacks g !! m_Id event)
       events.

(** The shared callstack store after a selection: a stored callstack is
    re-tagged with the thread of the last selected event that refers to
    it. *)
Definition retagged (events : list CallstackEvent) (id : N) (c : CallStack)
  : CallStack :=
  match last (filter (λ event, m_Id event = id) events) with
  | Some event => CallStack_set_ThreadId (ce_TID event) c
  | None => c
  end.

(** *** The display order, names and labels *)

(** The kind of the track at [p]. *)
Definition track_type (s : State) (p : ptr) : option TrackType :=
  type_ <$> objects s !! p.


(** What [DrawTracks] makes of a track of the display order: a thread track
    is named after its thread ([Capture::GThreadNames], the empty name for
    a thread that has none) and labelled with name and id; the process
    track is named after the process. *)
Definition named (g : Globals) (t : Track) : Track :=
  if decide (type_ t = kThreadTrack) then
    if decide (thread_id_ t = 0) then
      Track_SetLabel (GProcessName g ++ " (all threads)")%string
        (Track_SetName (GProcessName g) t)
    else
      let thread_name :=
        default EmptyString (GThreadNames g !! thread_id_ t) in
      Track_SetLabel
        (thread_name ++ " [" ++ pretty (thread_id_ t) ++ "]")%string
        (Track_SetName thread_name t)
  else t.

(** What [DrawTracks] makes of the track at [p]. *)
Definition drawn (s : State) (p : ptr) (t : Track) : Track :=
  let t :=
    if decide (scheduler_track_ s = Some p)
    then Track_SetLabel
           ("Scheduler (" ++ pretty (GetNumCores s) ++ " cores)")%string t
    else t in
  if decide (p ∈ sorted_tracks_ s) then named (globals s) t else t.

(** The thread names of [g'] read like those of [g]. *)
Definition names_agree (g g' : Globals) : Prop :=
  GProcessName g' = GProcessName g
  ∧ GThreadNames g ⊆ GThreadNames g'
  ∧ ∀ tid, default EmptyString (GThreadNames g' !! tid)
           = default EmptyString (GThreadNames g !! tid).

(** *** Sessions *)

(** A session: the calls made on a [TimeGraph], interleaved with the rest
    of the application replacing the process-wide objects ([Environment]:
    the tracer fills the event buffer, thread names arrive, a capture
    starts or stops). *)
Inductive Call : Type :=
| Call_ProcessTimer (a_Timer : Timer)
| Call_SortTracks (millis : double)
| Call_DrawTracks
| Call_SelectEvents (a_WorldStart a_WorldEnd : float) (a_TID : N)
| Call_GetSelectedCallstackEvents (tid : N)
| Call_UpdateCaptureMinMaxTimestamps
| Call_UpdateMaxTimeStamp (a_Time : N)
| Call_SetMinMax (a_MinTimeUs a_MaxTimeUs : double)
| Call_ZoomTime (a_ZoomValue : float) (a_MouseRatio : double)
| Call_ZoomAll (GNumHistorySeconds : double)
| Call_Zoom (min max : N)
| Call_HorizontallyMoveIntoView (text_box : TextBox) (distance : double)
| Call_OnDrag (a_Ratio : float)
| Call_NeedsUpdate
| Call_SetThreadFilter (a_Filter : string)
| Call_SetStringManager (str_manager : gmap N string)
| Call_GetOrCreateThreadTrack (a_TID : N)
| Call_GetOrCreateGpuTrack (timeline_hash : N)
| Call_Clear
| Environment (g : Globals).

#[global] Instance Call_Clear_dec (c : Call) : Decision (c = Call_Clear).
Proof. destruct c; (by left) || (by right). Defined.

#[global] Instance Call_SortTracks_dec (c : Call) :
  Decision (∃ millis, c = Call_SortTracks millis).
Proof. destruct c; (left; by eexists) || (right; by intros [? ?]). Defined.

#[global] Instance Call_SetStringManager_dec (c : Call) :
  Decision (∃ str_manager, c = Call_SetStringManager str_manager).
Proof. destruct c; (left; by eexists) || (right; by intros [? ?]). Defined.

Section Session.
Context `{Collaborators}.

(** One call, and a session from left to right. *)
Definition call (c : Call) (s : State) : option State :=
  match c with
  | Call_ProcessTimer a_Timer => ProcessTimer a_Timer s
  | Call_SortTracks millis => SortTracks millis s
  | Call_DrawTracks => DrawTracks s
  | Call_SelectEvents a_WorldStart a_WorldEnd a_TID =>
      snd <$> SelectEvents a_WorldStart a_WorldEnd a_TID s
  | Call_GetSelectedCallstackEvents tid =>
      Some (GetSelectedCallstackEvents tid s).2
  | Call_UpdateCaptureMinMaxTimestamps =>
      snd <$> UpdateCaptureMinMaxTimestamps s
  | Call_UpdateMaxTimeStamp a_Time => Some (UpdateMaxTimeStamp a_Time s)
  | Call_SetMinMax a_MinTimeUs a_MaxTimeUs =>
      SetMinMax a_MinTimeUs a_MaxTimeUs s
  | Call_ZoomTime a_ZoomValue a_MouseRatio =>
      ZoomTime a_ZoomValue a_MouseRatio s
  | Call_ZoomAll GNumHistorySeconds => ZoomAll GNumHistorySeconds s
  | Call_Zoom min max => Zoom min max s
  | Call_HorizontallyMoveIntoView text_box distance =>
      HorizontallyMoveIntoView text_box distance s
  | Call_OnDrag a_Ratio => OnDrag a_Ratio s
  | Call_NeedsUpdate => Some (NeedsUpdate s)
  | Call_SetThreadFilter a_Filter => Some (SetThreadFilter a_Filter s)
  | Call_SetStringManager str_manager =>
      Some (SetStringManager str_manager s)
  | Call_GetOrCreateThreadTrack a_TID =>
      Some (GetOrCreateThreadTrack a_TID s).2
  | Call_GetOrCreateGpuTrack timeline_hash =>
      Some (GetOrCreateGpuTrack timeline_hash s).2
  | Call_Clear => Some (Clear s)
  | Environment g => Some (set_globals g s)
  end.

Fixpoint calls (cs : list Call) (s : State) : option State :=
  match cs with
  | [] => Some s
  | c :: cs => s ← call c s; calls cs s
  end.

End Session.

(** What every call relies on and keeps: the bookkeeping invariant, the
    agreement of the lookup maps with the tracks, a display order of live
    tracks, and a string manager. *)
Definition TimeGraph_ok (s : State) : Prop :=
  State_ok s ∧ Tracks_typed s ∧ Sorted_live s ∧ is_Some (string_manager_ s).

#[global] Instance TimeGraph_ok_dec s : Decision (TimeGraph_ok s).
Proof. unfold TimeGraph_ok, Sorted_live. apply _. Defined.

(** *** The event strip *)

Section Gesture.
Context `{Collaborators}.

(** A selection gesture on the event strip: the mouse button goes down at
    one screen position, the pointer is dragged to another, the button is
    released. *)
Definition drag_gesture (x0 y0 x1 y1 : Z) (track : EventTrack.t) (s : State)
  : option (EventTrack.t * State) :=
  '(_, track) ← EventTrack.OnPick x0 y0 track;
  track ← EventTrack.OnDrag x1 y1 track;
  EventTrack.OnRelease track s.

End Gesture.

(** The tooltip of a sample whose callstack resolves to the frames
    [frames], the first of which is [first]. *)
Definition sample_tooltip (names : gmap N string) (first : N)
    (frames : list N) : string :=
  ("<b>" ++ c_str (EventTrack.SafeGetFormattedFunctionName names first)
   ++ "</b><br/><i>Sampled event</i><br/><br/><b>Callstack:</b>"
   ++ String.concat EmptyString
        ((λ addr, "<br/>" ++ EventTrack.SafeGetFormattedFunctionName names addr)
           <$> frames))%string.

(** *** More example data *)

(** The fresh example graph after one context switch of thread [3] on
    processor [1]. *)
Definition example_core_state : State :=
  default example_fresh
    (ProcessTimer (H := example_collaborators)
       (example_timer 3 1 2 0 CORE_ACTIVITY) example_fresh).

(** The example state with the filter [a b] typed before any frame was
    drawn: no thread track has a name yet. *)
Definition example_undrawn_filtered_state : State :=
  SetThreadFilter "a b" example_state.

(** The second record of thread [7]. *)
Definition example_box : TextBox :=
  {| GetTimer := example_timer 7 30 40 100 NONE |}.

(** A short session. *)
Definition example_session : list Call :=
  [ Call_ProcessTimer (example_timer 9 80 90 100 NONE);
    Environment
      (set_GEventBuffer example_buffer (globals example_state));
    Call_SortTracks Fp.zero;
    Call_DrawTracks;
    Call_ZoomAll GNumHistorySeconds_initial;
    Call_SelectEvents Fp.zero (Fp.of_pos Fp.fprec Fp.femax 4) 0 ].

(** * Properties *)

(** ** Get-or-create *)

Lemma GetOrCreateThreadTrack_lookup a_TID s :
  thread_tracks_ (GetOrCreateThreadTrack a_TID s).2 !! a_TID
  = Some (GetOrCreateThreadTrack a_TID s).1.
Proof.
  unfold GetOrCreateThreadTrack.
  destruct (thread_tracks_ s !! a_TID) eqn:E; simpl; [done|].
  apply lookup_insert_eq.
Qed.

Lemma GetOrCreateGpuTrack_lookup h s :
  gpu_tracks_ (GetOrCreateGpuTrack h s).2 !! h
  = Some (GetOrCreateGpuTrack h s).1.
Proof.
  unfold GetOrCreateGpuTrack.
  destruct (gpu_tracks_ s !! h) eqn:E; simpl; [done|].
  apply lookup_insert_eq.
Qed.

Lemma GetOrCreateThreadTrack_again a_TID s :
  GetOrCreateThreadTrack a_TID (GetOrCreateThreadTrack a_TID s).2
  = GetOrCreateThreadTrack a_TID s.
Proof.
  pose proof (GetOrCreateThreadTrack_lookup a_TID s) as E.
  unfold GetOrCreateThreadTrack at 1. rewrite E.
  by destruct (GetOrCreateThreadTrack a_TID s).
Qed.

Lemma GetOrCreateGpuTrack_again h s :
  GetOrCreateGpuTrack h (GetOrCreateGpuTrack h s).2
  = GetOrCreateGpuTrack h s.
Proof.
  pose proof (GetOrCreateGpuTrack_lookup h s) as E.
  unfold GetOrCreateGpuTrack at 1. rewrite E.
  by destruct (GetOrCreateGpuTrack h s).
Qed.

Lemma GetOrCreateThreadTrack_dom a_TID s :
  dom (thread_tracks_ (GetOrCreateThreadTrack a_TID s).2)
  = {[a_TID]} ∪ dom (thread_tracks_ s).
Proof.
  unfold GetOrCreateThreadTrack.
  destruct (thread_tracks_ s !! a_TID) eqn:E; simpl.
  - apply (elem_of_dom_2 (D := gset N)) in E. set_solver.
  - apply dom_insert_L.
Qed.

Lemma GetOrCreateGpuTrack_dom h s :
  dom (gpu_tracks_ (GetOrCreateGpuTrack h s).2)
  = {[h]} ∪ dom (gpu_tracks_ s).
Proof.
  unfold GetOrCreateGpuTrack.
  destruct (gpu_tracks_ s !! h) eqn:E; simpl.
  - apply (elem_of_dom_2 (D := gset N)) in E. set_solver.
  - apply dom_insert_L.
Qed.

Lemma GetOrCreateThreadTrack_count a_TID s :
  length (tracks_ (GetOrCreateThreadTrack a_TID s).2)
  = (length (tracks_ s)
     + if decide (a_TID ∈ dom (thread_tracks_ s)) then 0 else 1)%nat.
Proof.
  unfold GetOrCreateThreadTrack.
  destruct (thread_tracks_ s !! a_TID) eqn:E; simpl.
  - apply (elem_of_dom_2 (D := gset N)) in E. rewrite decide_True by done. lia.
  - apply (not_elem_of_dom (D := gset N)) in E. rewrite decide_False by done.
    by rewrite length_app.
Qed.

Lemma GetOrCreateGpuTrack_count h s :
  length (tracks_ (GetOrCreateGpuTrack h s).2)
  = (length (tracks_ s)
     + if decide (h ∈ dom (gpu_tracks_ s)) then 0 else 1)%nat.
Proof.
  unfold GetOrCreateGpuTrack.
  destruct (gpu_tracks_ s !! h) eqn:E; simpl.
  - apply (elem_of_dom_2 (D := gset N)) in E. rewrite decide_True by done. lia.
  - apply (not_elem_of_dom (D := gset N)) in E. rewrite decide_False by done.
    by rewrite length_app.
Qed.

Lemma size_new_keys (k : N) (ks : list N) (d : gset N) :
  size (list_to_set (k :: ks) ∖ d : gset N)
  = ((if decide (k ∈ d) then 0 else 1)
     + size (list_to_set ks ∖ ({[k]} ∪ d) : gset N))%nat.
Proof.
  destruct (decide (k ∈ d)) as [Hin|Hout].
  - simpl. f_equal. set_solver.
  - replace (list_to_set (k :: ks) ∖ d : gset N)
      with ({[k]} ∪ (list_to_set ks ∖ ({[k]} ∪ d)) : gset N).
    + rewrite size_union by set_solver. by rewrite size_singleton.
    + apply set_eq. intros x. rewrite list_to_set_cons.
      destruct (decide (x = k)); set_solver.
Qed.

Section CreateAll.
Variable create : N -> State -> ptr * State.
Variable keys_of : State -> gset N.
Hypothesis create_dom : ∀ k s, keys_of (create k s).2 = {[k]} ∪ keys_of s.
Hypothesis create_count : ∀ k s,
  length (tracks_ (create k s).2)
  = (length (tracks_ s) + if decide (k ∈ keys_of s) then 0 else 1)%nat.

Lemma create_all_count keys s :
  length (tracks_ (create_all create keys s))
  = (length (tracks_ s) + size (list_to_set keys ∖ keys_of s : gset N))%nat.
Proof.
  revert s. induction keys as [|k ks IH]; intros s.
  - simpl. replace (∅ ∖ keys_of s : gset N) with (∅ : gset N) by set_solver.
    rewrite size_empty. lia.
  - unfold create_all in *. simpl. rewrite IH, create_count, create_dom.
    rewrite (size_new_keys k ks). lia.
Qed.
End CreateAll.

(** C1. Get-or-create is idempotent: a second call with the same thread id
    returns the same track (the same pointer into the same, unchanged
    state), so it creates nothing; over any sequence of calls the length of
    [tracks_] grows by the number of distinct ids that had no track before.
    The same holds for gpu tracks and timeline hashes. *)
Theorem GetOrCreate_idempotent :
  (∀ tid s,
     GetOrCreateThreadTrack tid (GetOrCreateThreadTrack tid s).2
     = GetOrCreateThreadTrack tid s)
  ∧ (∀ tids s,
       length (tracks_ (create_all GetOrCreateThreadTrack tids s))
       = (length (tracks_ s)
          + size (list_to_set tids ∖ dom (thread_tracks_ s) : gset N))%nat)
  ∧ (∀ hash s,
       GetOrCreateGpuTrack hash (GetOrCreateGpuTrack hash s).2
       = GetOrCreateGpuTrack hash s)
  ∧ (∀ hashes s,
       length (tracks_ (create_all GetOrCreateGpuTrack hashes s))
       = (length (tracks_ s)
          + size (list_to_set hashes ∖ dom (gpu_tracks_ s) : gset N))%nat).
Proof.
  split_and!.
  - apply GetOrCreateThreadTrack_again.
  - intros. apply (create_all_count _ (λ s, dom (thread_tracks_ s))).
    + apply GetOrCreateThreadTrack_dom.
    + apply GetOrCreateThreadTrack_count.
  - apply GetOrCreateGpuTrack_again.
  - intros. apply (create_all_count _ (λ s, dom (gpu_tracks_ s))).
    + apply GetOrCreateGpuTrack_dom.
    + apply GetOrCreateGpuTrack_count.
Qed.

(** ** The bookkeeping invariant *)

Lemma State_ok_frame s s' :
  length (objects s') = length (objects s) →
  tracks_ s' = tracks_ s →
  scheduler_track_ s' = scheduler_track_ s →
  process_track_ s' = process_track_ s →
  thread_tracks_ s' = thread_tracks_ s →
  gpu_tracks_ s' = gpu_tracks_ s →
  State_ok s → State_ok s'.
Proof.
  unfold State_ok. intros Hlen -> -> -> -> ->. by rewrite Hlen.
Qed.

Lemma with_track_Some p f s :
  (p < length (objects s))%nat → is_Some (with_track p f s).
Proof.
  intros Hp. unfold with_track.
  destruct (lookup_lt_is_Some_2 (objects s) p Hp) as [t ->]. by eexists.
Qed.

Lemma with_track_inv p f s s' :
  with_track p f s = Some s' →
  ∃ t, objects s !! p = Some t ∧ s' = set_objects (<[p := f t]> (objects s)) s.
Proof.
  unfold with_track. destruct (objects s !! p) as [t|]; [|done].
  intros [= <-]. by exists t.
Qed.

Lemma with_track_ok p f s s' :
  with_track p f s = Some s' → State_ok s → State_ok s'.
Proof.
  intros (t & _ & ->)%with_track_inv.
  apply State_ok_frame; simpl; try done. apply length_insert.
Qed.

Lemma State_ok_fresh s p :
  State_ok s → p ∈ tracks_ s → (p < length (objects s))%nat.
Proof.
  intros (_ & Hlt & _) Hin. by eapply (proj1 (Forall_forall _ _)) in Hlt.
Qed.

Lemma State_ok_scheduler s :
  State_ok s → ∃ p, scheduler_track_ s = Some p ∧ p ∈ tracks_ s.
Proof.
  intros (_ & _ & Hs & _). destruct (scheduler_track_ s); [eauto|done].
Qed.

(** Creating a track keeps the invariant, provided the new pointer is
    entered in the right place. *)
Lemma State_ok_new_track s t :
  State_ok s →
  NoDup (tracks_ s ++ [length (objects s)])
  ∧ Forall (λ p, p < length (objects s ++ [t]))%nat
           (tracks_ s ++ [length (objects s)]).
Proof.
  intros Hok. pose proof Hok as (Hnd & Hlt & _). split.
  - apply NoDup_app. split_and!; [done| |apply NoDup_singleton].
    intros p Hp ->%list_elem_of_singleton.
    apply (State_ok_fresh _ _ Hok) in Hp. lia.
  - rewrite length_app. simpl. apply Forall_app. split.
    + eapply Forall_impl; [done|]. simpl. lia.
    + apply Forall_singleton. lia.
Qed.

Lemma GetOrCreateThreadTrack_ok tid s :
  State_ok s →
  State_ok (GetOrCreateThreadTrack tid s).2
  ∧ (GetOrCreateThreadTrack tid s).1 ∈ tracks_ (GetOrCreateThreadTrack tid s).2.
Proof.
  intros Hok. unfold GetOrCreateThreadTrack.
  destruct (thread_tracks_ s !! tid) as [p|] eqn:E; simpl.
  - split; [done|]. destruct Hok as (_ & _ & _ & _ & _ & Hth & _).
    by apply (Hth tid p).
  - split; [|set_solver].
    destruct (State_ok_new_track s
      (Track_SetEventTrackColor (GetThreadColor tid)
         (Track_new kThreadTrack tid 0)) Hok) as [Hnd Hlt].
    destruct Hok as (_ & _ & Hs & Hp & Hp0 & Hth & Hgpu).
    unfold State_ok; simpl. split_and!; try done.
    + destruct (scheduler_track_ s); simpl in *; [set_solver|done].
    + rewrite lookup_insert_ne; [done|]. intros ->.
      rewrite Hp0, E in Hp. by destruct Hp.
    + apply map_Forall_insert_2; [set_solver|].
      eapply map_Forall_impl; [done|]. set_solver.
    + eapply map_Forall_impl; [done|]. set_solver.
Qed.

Lemma GetOrCreateGpuTrack_ok h s :
  State_ok s →
  State_ok (GetOrCreateGpuTrack h s).2
  ∧ (GetOrCreateGpuTrack h s).1 ∈ tracks_ (GetOrCreateGpuTrack h s).2.
Proof.
  intros Hok. unfold GetOrCreateGpuTrack.
  destruct (gpu_tracks_ s !! h) as [p|] eqn:E; simpl.
  - split; [done|]. destruct Hok as (_ & _ & _ & _ & _ & _ & Hgpu).
    by apply (Hgpu h p).
  - split; [|set_solver].
    destruct (State_ok_new_track s (Track_new kGpuTrack 0 h) Hok)
      as [Hnd Hlt].
    destruct Hok as (_ & _ & Hs & Hp & Hp0 & Hth & Hgpu).
    unfold State_ok; simpl. split_and!; try done.
    + destruct (scheduler_track_ s); simpl in *; [set_solver|done].
    + eapply map_Forall_impl; [done|]. set_solver.
    + apply map_Forall_insert_2; [set_solver|].
      eapply map_Forall_impl; [done|]. set_solver.
Qed.

Lemma Clear_tracks s :
  let p := length (objects s) in
  objects (Clear s)
  = objects s
      ++ [Track_new kSchedulerTrack 0 0;
          Track_SetEventTrackColor (GetThreadColor 0)
            (Track_new kThreadTrack 0 0)]
  ∧ tracks_ (Clear s) = [p; S p]
  ∧ scheduler_track_ (Clear s) = Some p
  ∧ process_track_ (Clear s) = Some (S p)
  ∧ thread_tracks_ (Clear s) = {[0 := S p]}
  ∧ gpu_tracks_ (Clear s) = ∅.
Proof.
  unfold Clear, GetOrCreateSchedulerTrack, GetOrCreateThreadTrack. simpl.
  rewrite lookup_empty. simpl. rewrite length_app, <- app_assoc. simpl.
  replace (length (objects s) + 1)%nat with (S (length (objects s))) by lia.
  by rewrite insert_empty.
Qed.

Lemma TimeGraph_new_tracks g :
  objects (TimeGraph_new g)
  = [Track_new kSchedulerTrack 0 0;
     Track_SetEventTrackColor (GetThreadColor 0) (Track_new kThreadTrack 0 0)]
  ∧ tracks_ (TimeGraph_new g) = [0; 1]%nat
  ∧ scheduler_track_ (TimeGraph_new g) = Some 0%nat
  ∧ process_track_ (TimeGraph_new g) = Some 1%nat
  ∧ thread_tracks_ (TimeGraph_new g) = {[0 := 1%nat]}
  ∧ gpu_tracks_ (TimeGraph_new g) = ∅.
Proof.
  unfold TimeGraph_new, GetOrCreateSchedulerTrack, GetOrCreateThreadTrack.
  simpl. rewrite lookup_empty. simpl. by rewrite insert_empty.
Qed.

Lemma two_tracks_ok s p :
  (S p < length (objects s))%nat →
  tracks_ s = [p; S p] →
  scheduler_track_ s = Some p →
  process_track_ s = Some (S p) →
  thread_tracks_ s = {[0 := S p]} →
  gpu_tracks_ s = ∅ →
  State_ok s.
Proof.
  intros Hlen Ht Hs Hp Hth Hg. unfold State_ok.
  rewrite Ht, Hs, Hp, Hth, Hg. simpl. split_and!.
  - apply NoDup_cons. split; [|apply NoDup_singleton].
    intros ?%list_elem_of_singleton. lia.
  - repeat constructor; lia.
  - set_solver.
  - by eexists.
  - by rewrite lookup_singleton_eq.
  - apply map_Forall_singleton. set_solver.
  - apply map_Forall_empty.
Qed.

Lemma Clear_ok s : State_ok (Clear s).
Proof.
  destruct (Clear_tracks s) as (Ho & Ht & Hs & Hp & Hth & Hg).
  eapply two_tracks_ok; try done. rewrite Ho, length_app. simpl. lia.
Qed.

Lemma TimeGraph_new_ok g : State_ok (TimeGraph_new g).
Proof.
  destruct (TimeGraph_new_tracks g) as (Ho & Ht & Hs & Hp & Hth & Hg).
  eapply two_tracks_ok; try done. rewrite Ho. simpl. lia.
Qed.

(** ** Construction and [Clear] *)

(** C10. After construction and after every [Clear] the scheduler track and
    the process track (the thread track of id [0]) exist, and [tracks_]
    holds exactly these two tracks, both created by the call (their
    pointers lie beyond every object that existed before).  [Clear] drops
    every earlier entry of the thread-track map, which then holds the new
    process track under key [0] only, and leaves the gpu-track map, the
    core-seen set, the thread-count map and the event buffer empty. *)
Theorem Clear_recreates_scheduler_and_process_tracks :
  (∀ g, ∃ scheduler process,
     scheduler_track_ (TimeGraph_new g) = Some scheduler
     ∧ process_track_ (TimeGraph_new g) = Some process
     ∧ tracks_ (TimeGraph_new g) = [scheduler; process]
     ∧ scheduler ≠ process
     ∧ type_ <$> objects (TimeGraph_new g) !! scheduler = Some kSchedulerTrack
     ∧ type_ <$> objects (TimeGraph_new g) !! process = Some kThreadTrack
     ∧ thread_id_ <$> objects (TimeGraph_new g) !! process = Some 0
     ∧ thread_tracks_ (TimeGraph_new g) = {[0 := process]}
     ∧ gpu_tracks_ (TimeGraph_new g) = ∅)
  ∧ (∀ s, ∃ scheduler process,
       scheduler_track_ (Clear s) = Some scheduler
       ∧ process_track_ (Clear s) = Some process
       ∧ tracks_ (Clear s) = [scheduler; process]
       ∧ scheduler ≠ process
       ∧ (length (objects s) ≤ scheduler)%nat
       ∧ (length (objects s) ≤ process)%nat
       ∧ type_ <$> objects (Clear s) !! scheduler = Some kSchedulerTrack
       ∧ type_ <$> objects (Clear s) !! process = Some kThreadTrack
       ∧ thread_id_ <$> objects (Clear s) !! process = Some 0
       ∧ timers_ <$> objects (Clear s) !! scheduler = Some []
       ∧ timers_ <$> objects (Clear s) !! process = Some []
       ∧ thread_tracks_ (Clear s) = {[0 := process]}
       ∧ gpu_tracks_ (Clear s) = ∅
       ∧ cores_seen_ (Clear s) = ∅
       ∧ m_ThreadCountMap (Clear s) = ∅
       ∧ GEventBuffer (globals (Clear s)) = EventBuffer_Reset
       ∧ m_CallstackEvents (GEventBuffer (globals (Clear s))) = ∅).
Proof.
  split.
  - intros g. exists 0%nat, 1%nat.
    destruct (TimeGraph_new_tracks g) as (Ho & Ht & Hs & Hp & Hth & Hg).
    rewrite Ho. by split_and!.
  - intros s. exists (length (objects s)), (S (length (objects s))).
    destruct (Clear_tracks s) as (Ho & Ht & Hs & Hp & Hth & Hg).
    rewrite Ho. split_and!; try done; try lia.
    + rewrite lookup_app_r by lia. by rewrite Nat.sub_diag.
    + rewrite lookup_app_r by lia.
      by replace (S (length (objects s)) - length (objects s))%nat with 1%nat
        by lia.
    + rewrite lookup_app_r by lia.
      by replace (S (length (objects s)) - length (objects s))%nat with 1%nat
        by lia.
    + rewrite lookup_app_r by lia. by rewrite Nat.sub_diag.
    + rewrite lookup_app_r by lia.
      by replace (S (length (objects s)) - length (objects s))%nat with 1%nat
        by lia.
Qed.

(** ** Ingestion *)

Lemma TimerChain_Append_size capacity box chain :
  TimerChain_size (TimerChain_Append capacity box chain)
  = S (TimerChain_size chain).
Proof.
  unfold TimerChain_size, TimerChain_boxes.
  induction chain as [|b [|b' rest] IH].
  - done.
  - simpl. destruct (TimerBlock_size b <? capacity)%nat; simpl;
      rewrite ?app_nil_r, ?length_app; simpl; lia.
  - change (TimerChain_Append capacity box (b :: b' :: rest))
      with (b :: TimerChain_Append capacity box (b' :: rest)).
    rewrite !fmap_cons, !concat_cons, !length_app in *. lia.
Qed.

Lemma Track_OnTimer_size capacity timer t :
  TimerChain_size (timers_ (Track_OnTimer capacity timer t))
  = (TimerChain_size (timers_ t) + 1)%nat.
Proof.
  unfold Track_OnTimer, Track_with_timers. simpl.
  rewrite TimerChain_Append_size. lia.
Qed.

Lemma sum_list_with_agree {A} (f g : A → nat) (l : list A) :
  Forall (λ x, f x = g x) l → sum_list_with f l = sum_list_with g l.
Proof. induction 1 as [|x l Hx _ IH]; simpl; congruence. Qed.

Lemma total_with_track p f s s' k :
  with_track p f s = Some s' →
  (∀ t, TimerChain_size (timers_ (f t))
        = (TimerChain_size (timers_ t) + k)%nat) →
  NoDup (tracks_ s) → p ∈ tracks_ s →
  total_timers s' = (total_timers s + k)%nat.
Proof.
  intros (t & Ht & ->)%with_track_inv Hf Hnd Hin.
  unfold total_timers. simpl.
  assert (∀ l, NoDup l →
    sum_list_with
      (track_size (set_objects (<[p:=f t]> (objects s)) s)) l
    = (sum_list_with (track_size s) l
       + if decide (p ∈ l) then k else 0)%nat) as Hsum.
  { induction l as [|q l IH]; intros Hl.
    - rewrite decide_False by set_solver. simpl. lia.
    - apply NoDup_cons in Hl as [Hq Hl]. cbn [sum_list_with].
      rewrite (IH Hl). unfold track_size at 1 3. cbn [objects set_objects].
      destruct (decide (q = p)) as [->|Hne].
      + rewrite list_lookup_insert_eq by by eapply lookup_lt_Some.
        rewrite Ht. cbn [from_option]. rewrite Hf.
        rewrite decide_False by done. rewrite decide_True by set_solver. lia.
      + rewrite list_lookup_insert_ne by done.
        destruct (decide (p ∈ l)).
        * rewrite decide_True by set_solver. lia.
        * rewrite decide_False by set_solver. lia. }
  rewrite (Hsum _ Hnd). by rewrite decide_True.
Qed.

Lemma total_new_track s s' t :
  Forall (λ p, p < length (objects s))%nat (tracks_ s) →
  objects s' = objects s ++ [t] →
  tracks_ s' = tracks_ s ++ [length (objects s)] →
  timers_ t = [] →
  total_timers s' = total_timers s.
Proof.
  intros Hlt Ho Ht Hempty. unfold total_timers. rewrite Ht.
  rewrite sum_list_with_app. simpl.
  unfold track_size at 2. rewrite Ho.
  rewrite lookup_app_r by lia. rewrite Nat.sub_diag. simpl.
  rewrite Hempty. simpl.
  rewrite !Nat.add_0_r. apply sum_list_with_agree.
  eapply Forall_impl; [done|]. intros p Hp. unfold track_size. rewrite Ho.
  by rewrite lookup_app_l.
Qed.

Lemma GetOrCreateThreadTrack_total tid s :
  State_ok s → total_timers (GetOrCreateThreadTrack tid s).2 = total_timers s.
Proof.
  intros (_ & Hlt & _). unfold GetOrCreateThreadTrack.
  destruct (thread_tracks_ s !! tid); [done|].
  by eapply total_new_track.
Qed.

Lemma GetOrCreateGpuTrack_total h s :
  State_ok s → total_timers (GetOrCreateGpuTrack h s).2 = total_timers s.
Proof.
  intros (_ & Hlt & _). unfold GetOrCreateGpuTrack.
  destruct (gpu_tracks_ s !! h); [done|].
  by eapply total_new_track.
Qed.

(** What [GetOrCreate*Track] leaves alone. *)
Lemma GetOrCreateThreadTrack_frame tid s :
  capture_max_timestamp_ (GetOrCreateThreadTrack tid s).2
  = capture_max_timestamp_ s
  ∧ string_manager_ (GetOrCreateThreadTrack tid s).2 = string_manager_ s
  ∧ scheduler_track_ (GetOrCreateThreadTrack tid s).2 = scheduler_track_ s.
Proof.
  unfold GetOrCreateThreadTrack. by destruct (thread_tracks_ s !! tid).
Qed.

Lemma GetOrCreateGpuTrack_frame h s :
  capture_max_timestamp_ (GetOrCreateGpuTrack h s).2
  = capture_max_timestamp_ s
  ∧ string_manager_ (GetOrCreateGpuTrack h s).2 = string_manager_ s.
Proof.
  unfold GetOrCreateGpuTrack. by destruct (gpu_tracks_ s !! h).
Qed.

Lemma with_track_frame p f s s' :
  with_track p f s = Some s' →
  capture_max_timestamp_ s' = capture_max_timestamp_ s
  ∧ string_manager_ s' = string_manager_ s
  ∧ tracks_ s' = tracks_ s
  ∧ scheduler_track_ s' = scheduler_track_ s.
Proof. by intros (t & _ & ->)%with_track_inv. Qed.


(** Well-formed records keep the stored chains well formed. *)
Lemma TimerBlock_Add_ok box b :
  m_Start (GetTimer box) ≤ m_End (GetTimer box) →
  TimerBlock_ok b → TimerBlock_ok (TimerBlock_Add box b).
Proof.
  intros Hbox Hb. unfold TimerBlock_ok, TimerBlock_Add, TextBox_in_range in *.
  simpl. apply Forall_app. split.
  - eapply Forall_impl; [done|]. simpl. intros ? (? & ? & ?). lia.
  - apply Forall_singleton. lia.
Qed.

Lemma TimerChain_Append_ok capacity box chain :
  m_Start (GetTimer box) ≤ m_End (GetTimer box) →
  TimerChain_ok chain → TimerChain_ok (TimerChain_Append capacity box chain).
Proof.
  intros Hbox. unfold TimerChain_ok.
  assert (TimerBlock_ok (TimerBlock_Add box TimerBlock_empty)) as Hnew.
  { apply TimerBlock_Add_ok; [done|]. by apply Forall_nil. }
  induction chain as [|b [|b' rest] IH]; intros Hc.
  - by apply Forall_singleton.
  - apply Forall_cons in Hc as [Hb _]. simpl.
    destruct (TimerBlock_size b <? capacity)%nat.
    + apply Forall_singleton. apply TimerBlock_Add_ok; done.
    + apply Forall_cons. split; [done|]. by apply Forall_singleton.
  - change (TimerChain_Append capacity box (b :: b' :: rest))
      with (b :: TimerChain_Append capacity box (b' :: rest)).
    apply Forall_cons in Hc as [? ?]. apply Forall_cons. split; [done|].
    by apply IH.
Qed.

Lemma Track_OnTimer_ok capacity timer t :
  m_Start timer ≤ m_End timer →
  TimerChain_ok (timers_ t) →
  TimerChain_ok (timers_ (Track_OnTimer capacity timer t)).
Proof. intros. by apply TimerChain_Append_ok. Qed.

Lemma with_track_timers_ok p f s s' :
  with_track p f s = Some s' →
  (∀ t, TimerChain_ok (timers_ t) → TimerChain_ok (timers_ (f t))) →
  Timers_ok s → Timers_ok s'.
Proof.
  intros (t & Ht & ->)%with_track_inv Hf Hall. unfold Timers_ok in *. simpl.
  apply Forall_insert; [done|]. apply Hf.
  by apply (proj1 (Forall_forall _ _) Hall t), list_elem_of_lookup_2 with p.
Qed.

Lemma GetOrCreateThreadTrack_timers_ok tid s :
  Timers_ok s → Timers_ok (GetOrCreateThreadTrack tid s).2.
Proof.
  unfold GetOrCreateThreadTrack, Timers_ok.
  destruct (thread_tracks_ s !! tid); [done|]. simpl. intros Hall.
  apply Forall_app. split; [done|]. apply Forall_singleton. by apply Forall_nil.
Qed.

Lemma GetOrCreateGpuTrack_timers_ok h s :
  Timers_ok s → Timers_ok (GetOrCreateGpuTrack h s).2.
Proof.
  unfold GetOrCreateGpuTrack, Timers_ok.
  destruct (gpu_tracks_ s !! h); [done|]. simpl. intros Hall.
  apply Forall_app. split; [done|]. apply Forall_singleton. by apply Forall_nil.
Qed.

Lemma ingested_refl wf s : State_ok s → ingested wf 0 s s.
Proof. intros. split; try done; lia. Qed.

Lemma ingested_with_track wf p f k j s s' s'' :
  ingested wf j s s' →
  p ∈ tracks_ s' →
  (∀ t, TimerChain_size (timers_ (f t))
        = (TimerChain_size (timers_ t) + k)%nat) →
  (wf → ∀ t, TimerChain_ok (timers_ t) → TimerChain_ok (timers_ (f t))) →
  with_track p f s' = Some s'' →
  ingested wf (j + k) s s''.
Proof.
  intros [Hok Htm Hmax Hstr Hsch Htot] Hin Hf Hfok Hw.
  destruct (with_track_frame _ _ _ _ Hw) as (Hmax' & Hstr' & _ & Hsch').
  split.
  - by eapply with_track_ok.
  - intros Hwf ?. eapply with_track_timers_ok; [done|by apply Hfok|].
    by apply Htm.
  - congruence.
  - congruence.
  - congruence.
  - rewrite (total_with_track _ _ _ _ k Hw Hf); [lia|apply Hok|done].
Qed.

Lemma ingested_step wf p f k j s s' :
  ingested wf j s s' →
  p ∈ tracks_ s' →
  (∀ t, TimerChain_size (timers_ (f t))
        = (TimerChain_size (timers_ t) + k)%nat) →
  (wf → ∀ t, TimerChain_ok (timers_ t) → TimerChain_ok (timers_ (f t))) →
  ∃ s'', with_track p f s' = Some s'' ∧ ingested wf (j + k) s s''
         ∧ tracks_ s'' = tracks_ s'.
Proof.
  intros Hing Hin Hf Hfok.
  destruct (with_track_Some p f s') as [s'' Hw].
  { eapply State_ok_fresh; [apply Hing|done]. }
  exists s''. split_and!; [done|by eapply ingested_with_track|].
  by apply with_track_frame in Hw as (_ & _ & ? & _).
Qed.

Lemma ingested_frame wf k s s' s'' :
  ingested wf k s s' →
  objects s'' = objects s' → tracks_ s'' = tracks_ s' →
  scheduler_track_ s'' = scheduler_track_ s' →
  process_track_ s'' = process_track_ s' →
  thread_tracks_ s'' = thread_tracks_ s' →
  gpu_tracks_ s'' = gpu_tracks_ s' →
  capture_max_timestamp_ s'' = capture_max_timestamp_ s' →
  string_manager_ s'' = string_manager_ s' →
  ingested wf k s s''.
Proof.
  intros [Hok Htm Hmax Hstr Hsch Htot] Ho Ht Hs Hp Hth Hg Hm Hsm. split.
  - eapply State_ok_frame; [by rewrite Ho|done..].
  - unfold Timers_ok in *. by rewrite Ho.
  - congruence.
  - congruence.
  - congruence.
  - unfold total_timers, track_size in *. by rewrite Ht, Ho.
Qed.

Lemma ingested_GetOrCreateThreadTrack wf k tid s s' :
  ingested wf k s s' →
  ingested wf k s (GetOrCreateThreadTrack tid s').2
  ∧ (GetOrCreateThreadTrack tid s').1 ∈ tracks_ (GetOrCreateThreadTrack tid s').2.
Proof.
  intros [Hok Htm Hmax Hstr Hsch Htot].
  destruct (GetOrCreateThreadTrack_ok tid s' Hok) as [Hok' Hin].
  destruct (GetOrCreateThreadTrack_frame tid s') as (Hm & Hs & Hsc).
  split; [|done]. split; try congruence.
  - intros ? ?. by apply GetOrCreateThreadTrack_timers_ok, Htm.
  - by rewrite GetOrCreateThreadTrack_total.
Qed.

Lemma ingested_GetOrCreateGpuTrack wf k h s s' :
  ingested wf k s s' →
  ingested wf k s (GetOrCreateGpuTrack h s').2
  ∧ (GetOrCreateGpuTrack h s').1 ∈ tracks_ (GetOrCreateGpuTrack h s').2.
Proof.
  intros [Hok Htm Hmax Hstr Hsch Htot].
  destruct (GetOrCreateGpuTrack_ok h s' Hok) as [Hok' Hin].
  destruct (GetOrCreateGpuTrack_frame h s') as (Hm & Hs).
  split; [|done]. split; try congruence.
  - intros ? ?. by apply GetOrCreateGpuTrack_timers_ok, Htm.
  - unfold GetOrCreateGpuTrack. by destruct (gpu_tracks_ s' !! h).
  - by rewrite GetOrCreateGpuTrack_total.
Qed.

Lemma ProcessTimer_counters_frame timer s :
  objects (ProcessTimer_counters timer s) = objects s
  ∧ tracks_ (ProcessTimer_counters timer s) = tracks_ s
  ∧ scheduler_track_ (ProcessTimer_counters timer s) = scheduler_track_ s
  ∧ process_track_ (ProcessTimer_counters timer s) = process_track_ s
  ∧ thread_tracks_ (ProcessTimer_counters timer s) = thread_tracks_ s
  ∧ gpu_tracks_ (ProcessTimer_counters timer s) = gpu_tracks_ s
  ∧ string_manager_ (ProcessTimer_counters timer s) = string_manager_ s
  ∧ m_ThreadCountMap (ProcessTimer_counters timer s) = m_ThreadCountMap s
  ∧ capture_max_timestamp_ (ProcessTimer_counters timer s)
    = N.max (capture_max_timestamp_ s) (m_End timer).
Proof.
  unfold ProcessTimer_counters.
  assert (capture_max_timestamp_
            (if capture_max_timestamp_ s <? m_End timer
             then set_capture_max_timestamp_ (m_End timer) s else s)
          = N.max (capture_max_timestamp_ s) (m_End timer)) as Hmax.
  { destruct (N.ltb_spec (capture_max_timestamp_ s) (m_End timer)); simpl; lia. }
  destruct (capture_max_timestamp_ s <? m_End timer), (m_Type timer);
    cbv zeta;
    match goal with |- context [if ?c then _ else _] => destruct c end;
    by split_and!.
Qed.

Section IngestionProofs.
Context `{Collaborators}.

Lemma no_growth (f : Track → Track) :
  (∀ t, timers_ (f t) = timers_ t) →
  ∀ t, TimerChain_size (timers_ (f t)) = (TimerChain_size (timers_ t) + 0)%nat.
Proof. intros Hf t. rewrite Hf. lia. Qed.

Lemma same_timers_ok (wf : Prop) (f : Track → Track) :
  (∀ t, timers_ (f t) = timers_ t) →
  wf → ∀ t, TimerChain_ok (timers_ t) → TimerChain_ok (timers_ (f t)).
Proof. intros Hf _ t. by rewrite Hf. Qed.

(** [ProcessTimer] succeeds on a state that satisfies the bookkeeping
    invariant and has its string manager set; it keeps both, raises the
    maximum timestamp to the record's end when that is later, adds exactly
    one record to the tracks of [tracks_], and keeps the stored records
    well formed when the record is. *)
Lemma ProcessTimer_ingested timer s :
  State_ok s → is_Some (string_manager_ s) →
  ∃ s', ProcessTimer timer s = Some s'
        ∧ State_ok s'
        ∧ string_manager_ s' = string_manager_ s
        ∧ capture_max_timestamp_ s'
          = N.max (capture_max_timestamp_ s) (m_End timer)
        ∧ total_timers s' = (total_timers s + 1)%nat
        ∧ (m_Start timer ≤ m_End timer → Timers_ok s → Timers_ok s').
Proof.
  intros Hok [strings Hstrings].
  destruct (ProcessTimer_counters_frame timer s)
    as (Ho & Ht & Hsc & Hp & Hth & Hg & Hsm & _ & Hmax).
  assert (ingested (m_Start timer ≤ m_End timer) 0
            (ProcessTimer_counters timer s)
            (ProcessTimer_counters timer s)) as Hing.
  { apply ingested_refl. eapply State_ok_frame; [by rewrite Ho|done..]. }
  assert (total_timers (ProcessTimer_counters timer s) = total_timers s)
    as Htot by (unfold total_timers, track_size; by rewrite Ht, Ho).
  assert (∀ s', ingested (m_Start timer ≤ m_End timer) 1
                  (ProcessTimer_counters timer s) s' →
            State_ok s'
            ∧ string_manager_ s' = string_manager_ s
            ∧ capture_max_timestamp_ s'
              = N.max (capture_max_timestamp_ s) (m_End timer)
            ∧ total_timers s' = (total_timers s + 1)%nat
            ∧ (m_Start timer ≤ m_End timer → Timers_ok s → Timers_ok s'))
    as Hdone.
  { intros s' [? Htm ? ? ? ?]. split_and!; [done|congruence..|].
    intros Hwf Hall. apply Htm; [done|]. unfold Timers_ok in *.
    by rewrite Ho. }
  assert (m_Start timer ≤ m_End timer →
          ∀ t, TimerChain_ok (timers_ t) →
               TimerChain_ok (timers_ (Track_OnTimer kBlockSize timer t)))
    as Hon by (intros; by apply Track_OnTimer_ok).
  unfold ProcessTimer. cbv zeta.
  destruct (decide (m_Type timer = GPU_ACTIVITY)) as [Hgpu|Hgpu].
  - apply (ingested_GetOrCreateGpuTrack _ _ (GetGpuTimelineHash timer)) in Hing
      as [Hing Hin].
    destruct (GetOrCreateGpuTrack _ _) as [track s1]. simpl in Hing, Hin.
    rewrite (ingested_strings _ _ _ _ Hing), Hsm, Hstrings. simpl.
    destruct (ingested_step _ track (Track_SetName
        (default EmptyString (strings !! GetGpuTimelineHash timer)))
        0 _ _ _ Hing Hin) as (s2 & -> & Hing2 & Ht2);
      [by apply no_growth|by apply same_timers_ok|].
    simpl. rewrite <- Ht2 in Hin.
    destruct (ingested_step _ track (Track_SetLabel
        (default EmptyString (strings !! GetGpuTimelineHash timer)))
        0 _ _ _ Hing2 Hin) as (s3 & -> & Hing3 & Ht3);
      [by apply no_growth|by apply same_timers_ok|].
    simpl. rewrite <- Ht3 in Hin.
    destruct (ingested_step _ track (Track_OnTimer kBlockSize timer)
        1 _ _ _ Hing3 Hin) as (s4 & -> & Hing4 & Ht4);
      [apply Track_OnTimer_size|done|].
    exists s4. split; [done|]. rewrite <- Hstrings. by apply Hdone.
  - apply (ingested_GetOrCreateThreadTrack _ _ (m_TID timer)) in Hing
      as [Hing Hin].
    destruct (GetOrCreateThreadTrack _ _) as [track s1]. simpl in Hing, Hin.
    assert (∃ s2, (if decide (m_Type timer = INTROSPECTION)
                   then with_track track (Track_SetColor kGreenIntrospection) s1
                   else Some s1) = Some s2
                  ∧ ingested (m_Start timer ≤ m_End timer) 0
                      (ProcessTimer_counters timer s) s2
                  ∧ tracks_ s2 = tracks_ s1) as (s2 & -> & Hing2 & Ht2).
    { destruct (decide (m_Type timer = INTROSPECTION)); [|by exists s1].
      by apply (ingested_step _ track _ 0 0);
        [..|apply no_growth|apply same_timers_ok]. }
    simpl. rewrite <- Ht2 in Hin.
    destruct (decide (m_Type timer ≠ CORE_ACTIVITY)) as [Hcore|Hcore].
    + destruct (ingested_step _ track (Track_OnTimer kBlockSize timer)
        1 _ _ _ Hing2 Hin) as (s3 & -> & Hing3 & Ht3);
        [apply Track_OnTimer_size|done|].
      simpl. eexists. split; [done|]. apply Hdone.
      by eapply ingested_frame.
    + destruct (State_ok_scheduler s2) as (scheduler & Hsched & Hsin);
        [apply Hing2|].
      rewrite Hsched. simpl.
      destruct (ingested_step _ scheduler (Track_OnTimer kBlockSize timer)
        1 _ _ _ Hing2 Hsin) as (s3 & -> & Hing3 & Ht3);
        [apply Track_OnTimer_size|done|].
      simpl. eexists. split; [done|]. apply Hdone.
      by eapply ingested_frame.
Qed.

End IngestionProofs.

Lemma wrap32_small n : n < UINT32_MOD → wrap32 n = n.
Proof. intros. by apply N.mod_small. Qed.

Lemma wrap32_lt n : wrap32 n < UINT32_MOD.
Proof. by apply N.mod_lt. Qed.

Lemma wrap32_add_l a b : wrap32 (wrap32 a + b) = wrap32 (a + b).
Proof. by apply N.Div0.add_mod_idemp_l. Qed.

Lemma GetNumTimers_from_total s l a :
  Forall (λ p, p < length (objects s))%nat l → a < UINT32_MOD →
  GetNumTimers_from a s l
  = Some (wrap32 (a + N.of_nat (sum_list_with (track_size s) l))).
Proof.
  intros Hl. revert a. unfold GetNumTimers_from.
  induction Hl as [|p l Hp Hl IH]; intros a Ha.
  - simpl. by rewrite N.add_0_r, wrap32_small.
  - cbn [foldl sum_list_with]. unfold track_size at 1.
    destruct (lookup_lt_is_Some_2 (objects s) p Hp) as [t Ht].
    rewrite Ht. cbn [mbind option_bind from_option].
    rewrite IH by apply wrap32_lt. f_equal.
    rewrite wrap32_add_l. f_equal. unfold Track_GetNumTimers. lia.
Qed.

Lemma GetNumTimers_total s :
  State_ok s → GetNumTimers s = Some (wrap32 (N.of_nat (total_timers s))).
Proof.
  intros (_ & Hlt & _). unfold GetNumTimers.
  by rewrite GetNumTimers_from_total.
Qed.

Lemma foldl_max_ge (a : N) (l : list N) : a ≤ foldl N.max a l.
Proof.
  revert a. induction l as [|x l IH]; intros a; simpl; [lia|].
  specialize (IH (a `max` x)). lia.
Qed.

Lemma foldl_max_elem (a : N) (l : list N) x :
  x ∈ l → x ≤ foldl N.max a l.
Proof.
  revert a. induction l as [|y l IH]; intros a Hx; [by inversion Hx|].
  simpl. apply elem_of_cons in Hx as [->|Hx]; [|by apply IH].
  pose proof (foldl_max_ge (a `max` y) l). lia.
Qed.

Lemma foldl_max_attained (a : N) (l : list N) :
  foldl N.max a l = a ∨ foldl N.max a l ∈ l.
Proof.
  revert a. induction l as [|y l IH]; intros a; simpl; [by left|].
  destruct (IH (a `max` y)) as [->|Hin]; [|right; set_solver].
  destruct (N.max_spec a y) as [[_ ->]|[_ ->]]; [right; set_solver|by left].
Qed.

Section IngestionSequence.
Context `{Collaborators}.

Lemma ProcessTimers_app l1 l2 s :
  ProcessTimers (l1 ++ l2) s = ProcessTimers l1 s ≫= ProcessTimers l2.
Proof.
  revert s. induction l1 as [|t l1 IH]; intros s; [done|].
  simpl. destruct (ProcessTimer t s) as [s1|]; simpl; [apply IH|done].
Qed.

Lemma ProcessTimers_ingested timers s :
  State_ok s → is_Some (string_manager_ s) →
  ∃ s', ProcessTimers timers s = Some s'
        ∧ State_ok s'
        ∧ string_manager_ s' = string_manager_ s
        ∧ capture_max_timestamp_ s'
          = foldl N.max (capture_max_timestamp_ s) (m_End <$> timers)
        ∧ total_timers s' = (total_timers s + length timers)%nat
        ∧ (Forall (λ t, m_Start t ≤ m_End t) timers →
           Timers_ok s → Timers_ok s').
Proof.
  revert s. induction timers as [|t timers IH]; intros s Hok Hsm.
  - exists s. split_and!; try done; simpl; lia.
  - destruct (ProcessTimer_ingested t s Hok Hsm)
      as (s1 & Hs1 & Hok1 & Hsm1 & Hmax1 & Htot1 & Htm1).
    destruct (IH s1 Hok1) as (s' & Hs' & Hok' & Hsm' & Hmax' & Htot' & Htm').
    { by rewrite Hsm1. }
    exists s'. simpl. rewrite Hs1. simpl. split_and!; try done.
    + congruence.
    + by rewrite Hmax', Hmax1.
    + rewrite Htot', Htot1. lia.
    + intros [Ht Hts]%Forall_cons Hall. by apply Htm', Htm1.
Qed.

(** The claim about ingestion into a fresh graph, for any starting state
    that satisfies the invariant, has its string manager set, holds no
    timer and has maximum timestamp [0]. *)
Lemma fresh_ingests_to timers s0 :
  State_ok s0 → is_Some (string_manager_ s0) →
  capture_max_timestamp_ s0 = 0 → total_timers s0 = 0%nat →
  ∃ s', ingests_to timers s0 s'.
Proof.
  intros Hok Hsm Hmax Htot.
  destruct (ProcessTimers_ingested timers s0 Hok Hsm)
    as (s' & Hs' & Hok' & Hsm' & Hmax' & Htot' & _).
  exists s'. unfold ingests_to.
  assert (GetNumTimers s' = Some (wrap32 (N.of_nat (length timers)))) as Hnum.
  { rewrite GetNumTimers_total by done. by rewrite Htot', Htot. }
  split_and!; try done.
  - intros before t after ->.
    destruct (ProcessTimers_ingested before s0 Hok Hsm)
      as (s1 & Hs1 & Hok1 & Hsm1 & _).
    destruct (ProcessTimer_ingested t s1 Hok1)
      as (s2 & Hs2 & _ & _ & Hm2 & _ & _).
    { by rewrite Hsm1. }
    exists s1, s2. split_and!; try done. rewrite Hm2. lia.
  - intros t Ht. rewrite Hmax'. apply foldl_max_elem.
    by apply list_elem_of_fmap_2.
  - intros Hne. rewrite Hmax', Hmax.
    destruct (foldl_max_attained 0 (m_End <$> timers)) as [Hz|Hin].
    + destruct timers as [|t timers]; [done|]. exists t. split; [set_solver|].
      rewrite Hz. pose proof (foldl_max_elem 0 (m_End <$> t :: timers)
                                (m_End t)) as Hle.
      rewrite Hz in Hle. specialize (Hle ltac:(set_solver)). lia.
    + apply list_elem_of_fmap in Hin as (t & -> & Ht). by exists t.
  - intros Hlt. by rewrite Hnum, wrap32_small.
Qed.

Lemma fresh_new g strings :
  State_ok (SetStringManager strings (TimeGraph_new g))
  ∧ is_Some (string_manager_ (SetStringManager strings (TimeGraph_new g)))
  ∧ capture_max_timestamp_ (SetStringManager strings (TimeGraph_new g)) = 0
  ∧ total_timers (SetStringManager strings (TimeGraph_new g)) = 0%nat.
Proof.
  split_and!; try done.
  - eapply State_ok_frame; [..|apply (TimeGraph_new_ok g)]; done.
Qed.

Lemma fresh_clear s strings :
  State_ok (SetStringManager strings (Clear s))
  ∧ is_Some (string_manager_ (SetStringManager strings (Clear s)))
  ∧ capture_max_timestamp_ (SetStringManager strings (Clear s)) = 0
  ∧ total_timers (SetStringManager strings (Clear s)) = 0%nat.
Proof.
  split_and!; try done.
  - eapply State_ok_frame; [..|apply (Clear_ok s)]; done.
  - destruct (Clear_tracks s) as (Ho & Ht & _).
    unfold total_timers, track_size. cbn [tracks_ objects SetStringManager
      set_string_manager_]. rewrite Ht, Ho. cbn [sum_list_with].
    rewrite !lookup_app_r by lia. rewrite Nat.sub_diag.
    by replace (S (length (objects s)) - length (objects s))%nat with 1%nat
      by lia.
Qed.

End IngestionSequence.

(** C2 (amended). For every sequence of timers ingested with [ProcessTimer]
    into a freshly constructed or freshly cleared graph: the maximum
    timestamp never decreases from one call to the next and ends as the
    largest end tick of the sequence, and [GetNumTimers] returns the number
    of timers ingested modulo [2^32], hence that number itself whenever
    fewer than [2^32] timers were ingested. *)
Theorem ProcessTimer_max_timestamp_and_count `{Collaborators} :
  (∀ g strings timers,
     ∃ s', ingests_to timers (SetStringManager strings (TimeGraph_new g)) s')
  ∧ (∀ s strings timers,
       ∃ s', ingests_to timers (SetStringManager strings (Clear s)) s').
Proof.
  split.
  - intros g strings timers.
    destruct (fresh_new g strings) as (? & ? & ? & ?).
    by apply fresh_ingests_to.
  - intros s strings timers.
    destruct (fresh_clear s strings) as (? & ? & ? & ?).
    by apply fresh_ingests_to.
Qed.

(** C2 as stated fails once [2^32] timers were ingested: the [uint32_t]
    accumulator of [GetNumTimers] is back at [0]. *)
Lemma GetNumTimers_wraps_around :
  ∃ s',
    ProcessTimers (H := example_collaborators)
      (repeat (example_timer 7 10 20 100 NONE) (N.to_nat UINT32_MOD))
      example_fresh = Some s'
    ∧ GetNumTimers s' = Some 0
    ∧ GetNumTimers s'
      ≠ Some (N.of_nat
                (length (repeat (example_timer 7 10 20 100 NONE)
                           (N.to_nat UINT32_MOD)))).
Proof.
  destruct (fresh_new example_globals ∅) as (Hok & Hsm & Hmax & Htot).
  destruct (ProcessTimers_ingested (H := example_collaborators)
              (repeat (example_timer 7 10 20 100 NONE) (N.to_nat UINT32_MOD))
              example_fresh Hok Hsm)
    as (s' & Hs' & Hok' & _ & _ & Htot' & _).
  exists s'. split; [done|].
  assert (GetNumTimers s' = Some 0) as Hnum.
  { rewrite GetNumTimers_total by done. rewrite Htot'.
    unfold example_fresh. rewrite Htot, repeat_length, Nat.add_0_l.
    rewrite N2Nat.id. by vm_compute. }
  split; [done|]. rewrite Hnum, repeat_length, N2Nat.id.
  intros [=].
Qed.

(** ** The per-thread call counters *)

Lemma counter_after_S n counter :
  counter_after (S n) counter
  = counter_after n (Some (wrap32 (default 0 counter + 1))).
Proof.
  destruct n as [|n]; simpl; [done|]. f_equal.
  rewrite wrap32_add_l. f_equal. lia.
Qed.

Lemma with_track_counts p f s s' :
  with_track p f s = Some s' → m_ThreadCountMap s' = m_ThreadCountMap s.
Proof. by intros (t & _ & ->)%with_track_inv. Qed.

Lemma GetOrCreateThreadTrack_counts tid s :
  m_ThreadCountMap (GetOrCreateThreadTrack tid s).2 = m_ThreadCountMap s.
Proof.
  unfold GetOrCreateThreadTrack. by destruct (thread_tracks_ s !! tid).
Qed.

Lemma GetOrCreateGpuTrack_counts h s :
  m_ThreadCountMap (GetOrCreateGpuTrack h s).2 = m_ThreadCountMap s.
Proof.
  unfold GetOrCreateGpuTrack. by destruct (gpu_tracks_ s !! h).
Qed.

Section CounterProofs.
Context `{Collaborators}.

(** [ProcessTimer] increments the counter of the record's thread exactly
    when the record goes to the thread's own track. *)
Lemma ProcessTimer_counts timer s s' :
  ProcessTimer timer s = Some s' →
  m_ThreadCountMap s'
  = if decide (instrumented_call (m_TID timer) timer)
    then increment32 (m_TID timer) (m_ThreadCountMap s)
    else m_ThreadCountMap s.
Proof.
  destruct (ProcessTimer_counters_frame timer s)
    as (_ & _ & _ & _ & _ & _ & _ & Hcounts & _).
  unfold ProcessTimer, instrumented_call. cbv zeta.
  destruct (decide (m_Type timer = GPU_ACTIVITY)) as [Hgpu|Hgpu].
  - pose proof (GetOrCreateGpuTrack_counts (GetGpuTimelineHash timer)
                  (ProcessTimer_counters timer s)) as Hc1.
    destruct (GetOrCreateGpuTrack _ _) as [track s1]. simpl in Hc1.
    destruct (string_manager_ s1) as [strings|]; [|done].
    cbn [mbind option_bind].
    destruct (with_track track (Track_SetName _) s1) as [s2|] eqn:E2; [|done].
    cbn [mbind option_bind].
    destruct (with_track track (Track_SetLabel _) s2) as [s3|] eqn:E3;
      [|done].
    cbn [mbind option_bind]. intros E4.
    apply with_track_counts in E2, E3, E4.
    rewrite decide_False by tauto. congruence.
  - pose proof (GetOrCreateThreadTrack_counts (m_TID timer)
                  (ProcessTimer_counters timer s)) as Hc1.
    destruct (GetOrCreateThreadTrack _ _) as [track s1]. simpl in Hc1.
    destruct (if decide (m_Type timer = INTROSPECTION)
              then with_track track (Track_SetColor kGreenIntrospection) s1
              else Some s1) as [s2|] eqn:E2; [|done].
    assert (m_ThreadCountMap s2 = m_ThreadCountMap s1) as Hc2.
    { destruct (decide (m_Type timer = INTROSPECTION));
        [by eapply with_track_counts|congruence]. }
    cbn [mbind option_bind].
    destruct (decide (m_Type timer ≠ CORE_ACTIVITY)) as [Hcore|Hcore].
    + destruct (with_track track (Track_OnTimer _ _) s2) as [s3|] eqn:E3;
        [|done].
      cbn [mbind option_bind]. intros [= <-].
      apply with_track_counts in E3.
      rewrite decide_True by done. simpl. congruence.
    + destruct (scheduler_track_ s2) as [scheduler|]; [|done].
      cbn [mbind option_bind].
      destruct (with_track scheduler _ s2) as [s3|] eqn:E3; [|done].
      cbn [mbind option_bind]. intros [= <-].
      apply with_track_counts in E3.
      rewrite decide_False by tauto. simpl. congruence.
Qed.

(** X9. After a sequence of timers the counter of a thread has been
    incremented once per instrumented call of that thread: a thread has a counter
    exactly when it has at least one instrumented call, and the counter is
    the number of calls modulo [2^32]. *)
Lemma ProcessTimers_counts timers s s' tid :
  ProcessTimers timers s = Some s' →
  m_ThreadCountMap s' !! tid
  = counter_after (instrumented_calls timers tid) (m_ThreadCountMap s !! tid).
Proof.
  revert s. induction timers as [|timer timers IH]; intros s.
  - by intros [= <-].
  - simpl. destruct (ProcessTimer timer s) as [s1|] eqn:E1; [|done].
    cbn [mbind option_bind]. intros Hs'. rewrite (IH _ Hs').
    rewrite (ProcessTimer_counts _ _ _ E1). unfold instrumented_calls.
    destruct (decide (instrumented_call tid timer)) as [Hcall|Hcall].
    + rewrite filter_cons_True by done. cbn [length].
      rewrite counter_after_S. destruct Hcall as (<- & ? & ?).
      rewrite decide_True by done. unfold increment32.
      by rewrite lookup_insert_eq.
    + rewrite filter_cons_False by done.
      destruct (decide (instrumented_call (m_TID timer) timer))
        as [Hown|Hown]; [|done].
      unfold increment32. rewrite lookup_insert_ne; [done|].
      intros Heq. apply Hcall. by rewrite <- Heq.
Qed.

End CounterProofs.

(** ** Same-function navigation *)

(** The scan keeps its invariant. *)
Section ClosestScan.
Variable function_address : N.
(** [on_side e]: the end tick [e] lies on the requested side. *)
Variable on_side : N → bool.
(** [closer a e]: the end tick [e] beats the current choice [a]. *)
Variable closer : N → N → bool.
(** [skip b a]: block [b] is pruned when the current choice is [a]. *)
Variable skip : TimerBlock → N → bool.
(** [no_closer x y]: the end tick [x] is not closer than [y]. *)
Variable no_closer : N → N → Prop.
(** The time recorded while nothing is chosen. *)
Variable initial_time : N.

Hypothesis no_closer_refl : ∀ e, no_closer e e.
Hypothesis closer_improves : ∀ a e x,
  closer a e = true → no_closer x a → no_closer x e.
Hypothesis not_closer : ∀ a e, closer a e = false → no_closer e a.
Hypothesis skip_sound : ∀ b a box,
  TimerBlock_ok b → skip b a = true → box ∈ data_ b →
  on_side (m_End (GetTimer box)) = true →
  no_closer (m_End (GetTimer box)) a.

Local Abbreviation the_visit := (scan_visit function_address on_side closer).
Local Abbreviation the_block := (scan_block function_address on_side closer skip).
Local Abbreviation the_chain := (scan_chain function_address on_side closer skip).
Local Abbreviation is_candidate := (candidate function_address on_side).
Local Abbreviation scan_inv :=
  (scanned function_address on_side no_closer initial_time).

Lemma scanned_visit seen acc box :
  scan_inv seen acc → scan_inv (seen ++ [box]) (the_visit acc box).
Proof.
  intros [Hchoice Hbest]. unfold scan_visit. cbv zeta.
  destruct (m_FunctionAddress (GetTimer box) =? function_address) eqn:Ea;
    [destruct (on_side (m_End (GetTimer box))) eqn:Es;
       [destruct (closer acc.2 (m_End (GetTimer box))) eqn:Ec|]|]; simpl.
  - apply N.eqb_eq in Ea. split; simpl.
    + split_and!; [set_solver|done|done].
    + intros c [Hc| ->%list_elem_of_singleton]%elem_of_app Hcand.
      * eapply closer_improves; [done|]. by apply Hbest.
      * apply no_closer_refl.
  - split.
    + destruct acc.1; simpl in *; [|done].
      destruct Hchoice as (? & ? & ?). split_and!; [set_solver|done..].
    + intros c [Hc| ->%list_elem_of_singleton]%elem_of_app Hcand.
      * by apply Hbest.
      * by apply not_closer.
  - split.
    + destruct acc.1; simpl in *; [|done].
      destruct Hchoice as (? & ? & ?). split_and!; [set_solver|done..].
    + intros c [Hc| ->%list_elem_of_singleton]%elem_of_app Hcand.
      * by apply Hbest.
      * destruct Hcand as [_ Hcand]. congruence.
  - split.
    + destruct acc.1; simpl in *; [|done].
      destruct Hchoice as (? & ? & ?). split_and!; [set_solver|done..].
    + intros c [Hc| ->%list_elem_of_singleton]%elem_of_app Hcand.
      * by apply Hbest.
      * destruct Hcand as [Hcand _]. by apply N.eqb_neq in Ea.
Qed.

Lemma scanned_boxes boxes seen acc :
  scan_inv seen acc → scan_inv (seen ++ boxes) (foldl the_visit acc boxes).
Proof.
  revert seen acc. induction boxes as [|box boxes IH]; intros seen acc Hs.
  - by rewrite app_nil_r.
  - simpl. rewrite (assoc_L (++) seen [box] boxes : seen ++ box :: boxes = _).
    apply IH. by apply scanned_visit.
Qed.

Lemma scanned_block seen acc b :
  TimerBlock_ok b →
  scan_inv seen acc → scan_inv (seen ++ data_ b) (the_block acc b).
Proof.
  intros Hok Hs. unfold scan_block.
  destruct (skip b acc.2) eqn:Eskip; [|by apply scanned_boxes].
  destruct Hs as [Hchoice Hbest]. split.
  - destruct acc.1; simpl in *; [|done].
    destruct Hchoice as (? & ? & ?). split_and!; [set_solver|done..].
  - intros c [Hc|Hc]%elem_of_app Hcand; [by apply Hbest|].
    destruct Hcand as [_ Hcand]. by eapply skip_sound.
Qed.

Lemma scanned_chain seen acc chain :
  from_option TimerChain_ok True chain →
  scan_inv seen acc →
  scan_inv (seen ++ from_option TimerChain_boxes [] chain)
          (the_chain acc chain).
Proof.
  destruct chain as [blocks|]; simpl; [|by rewrite app_nil_r].
  unfold TimerChain_boxes. intros Hok. revert seen acc.
  induction Hok as [|block blocks Hb _ IH]; intros seen acc Hs.
  - by rewrite app_nil_r.
  - simpl. rewrite (assoc_L (++)). apply IH. by apply scanned_block.
Qed.

Lemma scanned_chains chains seen acc :
  chains_ok chains →
  scan_inv seen acc →
  scan_inv (seen ++ chains_boxes chains) (foldl the_chain acc chains).
Proof.
  unfold chains_boxes. intros Hok. revert seen acc.
  induction Hok as [|chain chains Hc _ IH]; intros seen acc Hs.
  - by rewrite app_nil_r.
  - simpl. rewrite (assoc_L (++)). apply IH. by apply scanned_chain.
Qed.

End ClosestScan.

Lemma not_Intersects_cases b t0 t1 :
  negb (Intersects b t0 t1) = true →
  max_timestamp_ b < t0 ∨ t1 < min_timestamp_ b.
Proof.
  unfold Intersects. rewrite negb_true_iff, andb_false_iff.
  intros [?%N.leb_gt|?%N.leb_gt]; auto.
Qed.

Lemma previous_scan chains function_address current_time :
  chains_ok chains →
  scanned function_address (λ e, e <? current_time) N.le 0
    (chains_boxes chains)
    (foldl (previous_chain function_address current_time) (None, 0) chains).
Proof.
  intros Hok.
  apply (scanned_chains function_address (λ e, e <? current_time)
           (λ a e, a <? e) (λ b a, negb (Intersects b a current_time))
           N.le 0) with (seen := []); [done| | | |done|].
  - intros a e x Hc%N.ltb_lt Hx. lia.
  - intros a e Hc%N.ltb_ge. lia.
  - intros b a box Hb Hskip Hin Hside%N.ltb_lt.
    apply (proj1 (Forall_forall _ _) Hb) in Hin as (? & ? & ?).
    apply not_Intersects_cases in Hskip as [?|?]; lia.
  - split; [done|]. by intros ? ?%elem_of_nil.
Qed.

Lemma next_scan chains function_address current_time :
  chains_ok chains →
  scanned function_address (λ e, current_time <? e) (λ x y, y ≤ x)
    UINT64_MAX (chains_boxes chains)
    (foldl (next_chain function_address current_time) (None, UINT64_MAX)
           chains).
Proof.
  intros Hok.
  apply (scanned_chains function_address (λ e, current_time <? e)
           (λ a e, e <? a) (λ b a, negb (Intersects b current_time a))
           (λ x y, y ≤ x) UINT64_MAX) with (seen := []); [| | | |done|].
  - intros e. simpl. lia.
  - intros a e x Hc%N.ltb_lt Hx. simpl in *. lia.
  - intros a e Hc%N.ltb_ge. simpl. lia.
  - intros b a box Hb Hskip Hin Hside%N.ltb_lt. simpl.
    apply (proj1 (Forall_forall _ _) Hb) in Hin as (? & ? & ?).
    apply not_Intersects_cases in Hskip as [?|?]; lia.
  - split; [done|]. by intros ? ?%elem_of_nil.
Qed.

(** The chains collected from the thread tracks. *)
Lemma GetAllThreadTrackTimerChains_from s tracks chains :
  Forall (λ p, p < length (objects s))%nat tracks →
  ∃ more,
    foldl (λ acc track,
             chains ← acc; t ← objects s !! track;
             Some (chains ++ Track_GetAllChains t))
          (Some chains) tracks = Some (chains ++ more)
    ∧ (Timers_ok s → chains_ok more)
    ∧ ∀ box, box ∈ chains_boxes more ↔
        ∃ track t, track ∈ tracks ∧ objects s !! track = Some t
                   ∧ box ∈ TimerChain_boxes (timers_ t).
Proof.
  intros Hvalid. revert chains.
  induction Hvalid as [|p tracks Hp _ IH]; intros chains.
  - exists []. rewrite app_nil_r. split_and!; [done|by constructor|].
    intros box. split; [by intros ?%elem_of_nil|].
    by intros (? & ? & ?%elem_of_nil & _).
  - destruct (lookup_lt_is_Some_2 (objects s) p Hp) as [t Ht].
    cbn [foldl]. rewrite Ht. cbn [mbind option_bind].
    destruct (IH (chains ++ Track_GetAllChains t)) as (more & -> & Hok & Hin).
    exists (Track_GetAllChains t ++ more). rewrite (assoc_L (++)).
    split_and!; [done| |].
    + intros Hall. apply Forall_app. split; [|by apply Hok].
      apply Forall_singleton. simpl.
      by apply (proj1 (Forall_forall _ _) Hall t), list_elem_of_lookup_2 with p.
    + intros box. unfold chains_boxes in *. rewrite bind_app, elem_of_app, Hin.
      simpl. rewrite app_nil_r. split.
      * intros [Hbox|(q & t' & Hq & Ht' & Hbox)].
        -- exists p, t. split_and!; [set_solver|done..].
        -- exists q, t'. split_and!; [set_solver|done..].
      * intros (q & t' & [->|Hq]%elem_of_cons & Ht' & Hbox).
        -- left. congruence.
        -- right. by exists q, t'.
Qed.

Lemma GetAllThreadTrackTimerChains_ok s :
  State_ok s →
  ∃ chains,
    GetAllThreadTrackTimerChains s = Some chains
    ∧ (Timers_ok s → chains_ok chains)
    ∧ ∀ box, box ∈ chains_boxes chains ↔ thread_track_box s box.
Proof.
  intros Hok.
  destruct (GetAllThreadTrackTimerChains_from s
              (map_values (thread_tracks_ s)) []) as (chains & Hc & Hcok & Hin).
  { apply Forall_forall. intros p Hp. apply (State_ok_fresh s p Hok).
    unfold map_values in Hp.
    apply list_elem_of_fmap in Hp as ([tid q] & -> & Hq).
    apply elem_of_map_to_list in Hq.
    destruct Hok as (_ & _ & _ & _ & _ & Hth & _). by apply (Hth tid q). }
  exists chains. split_and!; [done..|].
  intros box. rewrite Hin. unfold thread_track_box, map_values. split.
  - intros (p & t & Hp & Ht & Hbox).
    apply list_elem_of_fmap in Hp as ([tid q] & -> & Hq).
    apply elem_of_map_to_list in Hq. by exists tid, q, t.
  - intros (tid & p & t & Hp & Ht & Hbox). exists p, t. split_and!; [|done..].
    apply list_elem_of_fmap. exists (tid, p). split; [done|].
    by apply elem_of_map_to_list.
Qed.


(** The hypotheses of C4 hold of every state reached by ingesting
    well-formed records into a fresh graph. *)
Lemma ingested_state_ok `{Collaborators} g strings timers :
  Forall (λ t, m_Start t ≤ m_End t) timers →
  ∃ s', ProcessTimers timers (SetStringManager strings (TimeGraph_new g))
        = Some s'
        ∧ State_ok s' ∧ Timers_ok s'.
Proof.
  intros Hwf. destruct (fresh_new g strings) as (Hok & Hsm & _ & _).
  destruct (ProcessTimers_ingested timers _ Hok Hsm)
    as (s' & Hs' & Hok' & _ & _ & _ & Htm).
  exists s'. split_and!; [done..|]. apply Htm; [done|].
  unfold Timers_ok. destruct (TimeGraph_new_tracks g) as (Ho & _).
  cbn [objects SetStringManager set_string_manager_]. rewrite Ho.
  repeat constructor.
Qed.


Example FindPreviousFunctionCall_example :
  m_End ∘ GetTimer <$> default None (FindPreviousFunctionCall 100 45 example_state)
  = Some 40.
Proof. vm_compute. reflexivity. Qed.

Example FindNextFunctionCall_example :
  m_End ∘ GetTimer <$> default None (FindNextFunctionCall 100 45 example_state)
  = Some 50.
Proof. vm_compute. reflexivity. Qed.

(** ** Viewport transforms and zoom *)

Lemma positive_not_zero (x : spec_float) :
  Fp.gt x Fp.zero = true → Fp.is_zero x = false.
Proof. by destruct x as [[]|[]| |[] ? ?]. Qed.

Lemma nonzero_not_zero (x : spec_float) :
  Fp.ne x Fp.zero = true → Fp.is_zero x = false.
Proof. by destruct x as [[]|[]| |[] ? ?]. Qed.

Lemma zero_not_positive (x : spec_float) :
  Fp.is_zero x = true → Fp.gt x Fp.zero = false.
Proof. by destruct x as [[]|[]| |[] ? ?]. Qed.

Lemma zero_not_nonzero (x : spec_float) :
  Fp.is_zero x = true → Fp.ne x Fp.zero = false.
Proof. by destruct x as [[]|[]| |[] ? ?]. Qed.

Section ViewportProofs.
Context `{Collaborators}.

Lemma GetTickFromWorld_ratio_Some a_WorldX s :
  is_Some (GetTickFromWorld_ratio a_WorldX s).
Proof.
  unfold GetTickFromWorld_ratio, Fp.checked_div. cbv zeta.
  destruct (Fp.ne (m_WorldWidth (view s)) Fp.zero) eqn:E; [|by eexists].
  rewrite (nonzero_not_zero _ E). by eexists.
Qed.

Lemma GetTickFromWorld_Some a_WorldX s : is_Some (GetTickFromWorld a_WorldX s).
Proof.
  unfold GetTickFromWorld.
  destruct (GetTickFromWorld_ratio_Some a_WorldX s) as [ratio ->]. by eexists.
Qed.

(** C9. Neither transform divides by a zero: [GetWorldFromTick] divides by
    the time window only when it is greater than zero and returns [0] when
    the window is zero; [GetTickFromWorld] divides by the world width only
    when it differs from zero and uses ratio [0] when the width is zero.
    (A [None] result of the model marks a division by zero.) *)
Theorem transforms_never_divide_by_zero :
  (∀ a_Time s, is_Some (GetWorldFromTick a_Time s))
  ∧ (∀ a_Time s,
       Fp.is_zero (m_TimeWindowUs (view s)) = true →
       GetWorldFromTick a_Time s = Some Fp.zero)
  ∧ (∀ a_WorldX s, is_Some (GetTickFromWorld a_WorldX s))
  ∧ (∀ a_WorldX s,
       Fp.is_zero (m_WorldWidth (view s)) = true →
       GetTickFromWorld_ratio a_WorldX s = Some Fp.zero
       ∧ GetTickFromWorld a_WorldX s
         = Some (wrap64 (capture_min_timestamp_ s
                         + TicksFromMicroseconds (GetTime Fp.zero s)))).
Proof.
  split_and!.
  - intros a_Time s. unfold GetWorldFromTick, Fp.checked_div. cbv zeta.
    destruct (Fp.gt (m_TimeWindowUs (view s)) Fp.zero) eqn:E; [|by eexists].
    rewrite (positive_not_zero _ E). by eexists.
  - intros a_Time s Hz. unfold GetWorldFromTick. cbv zeta.
    by rewrite (zero_not_positive _ Hz).
  - apply GetTickFromWorld_Some.
  - intros a_WorldX s Hz.
    assert (GetTickFromWorld_ratio a_WorldX s = Some Fp.zero) as Hr.
    { unfold GetTickFromWorld_ratio. cbv zeta.
      by rewrite (zero_not_nonzero _ Hz). }
    split; [done|]. unfold GetTickFromWorld. by rewrite Hr.
Qed.




End ViewportProofs.

(** ** Sample selection *)

Lemma SFcompare_Lt_Gt x y :
  SFcompare x y = Some Lt → SFcompare y x = Some Gt.
Proof.
  destruct x as [[]|[]| |[] mx ex], y as [[]|[]| |[] my ey]; simpl;
    try done.
  - rewrite (Z.compare_antisym ex ey).
    destruct (ex ?= ey)%Z; simpl; try done.
    change (Pos.compare_cont Eq my mx) with (my ?= mx)%positive.
    change (Pos.compare_cont Eq mx my) with (mx ?= my)%positive.
    rewrite (Pos.compare_antisym mx my).
    by destruct (mx ?= my)%positive.
  - rewrite (Z.compare_antisym ex ey).
    destruct (ex ?= ey)%Z; simpl; try done.
    change (Pos.compare_cont Eq my mx) with (my ?= mx)%positive.
    change (Pos.compare_cont Eq mx my) with (mx ?= my)%positive.
    rewrite (Pos.compare_antisym mx my).
    by destruct (mx ?= my)%positive.
Qed.

Lemma lt_not_gt x y : Fp.lt x y = true → Fp.gt x y = false.
Proof.
  unfold Fp.lt, Fp.gt, SFltb.
  destruct (SFcompare x y) as [[]|] eqn:E; try done.
  by rewrite (SFcompare_Lt_Gt _ _ E).
Qed.

Lemma gt_irrefl x : Fp.gt x x = false.
Proof.
  destruct (Fp.gt x x) eqn:E; [|done].
  by rewrite (lt_not_gt x x E) in E.
Qed.

Lemma add_event_callstacks events profiler g :
  ∃ profiler' g',
    foldl add_event_callstack (profiler, g) events = (profiler', g')
    ∧ length (m_Callstacks profiler')
      = (length (m_Callstacks profiler)
         + length (filter (resolves g) events))%nat
    ∧ dom (GSamplingProfiler_callstacks g')
      = dom (GSamplingProfiler_callstacks g)
    ∧ GSelectionReports g' = GSelectionReports g
    ∧ GEventBuffer g' = GEventBuffer g.
Proof.
  revert profiler g. induction events as [|event events IH]; intros profiler g.
  - exists profiler, g. simpl. split_and!; try done; lia.
  - cbn [foldl]. unfold add_event_callstack at 2.
    destruct (GSamplingProfiler_callstacks g !! m_Id event) as [c|] eqn:E.
    + destruct (IH (AddCallStack (CallStack_set_ThreadId (ce_TID event) c)
                      profiler)
                   (set_GSamplingProfiler_callstacks
                      (<[m_Id event := CallStack_set_ThreadId (ce_TID event) c]>
                         (GSamplingProfiler_callstacks g)) g))
        as (profiler' & g' & -> & Hlen & Hdom & Hrep & Hbuf).
      exists profiler', g'. split; [done|].
      assert (dom (<[m_Id event := CallStack_set_ThreadId (ce_TID event) c]>
                     (GSamplingProfiler_callstacks g))
              = dom (GSamplingProfiler_callstacks g)) as Hsame.
      { rewrite dom_insert_L. apply (elem_of_dom_2 (D := gset N)) in E.
        set_solver. }
      split_and!; [|by rewrite Hdom|done..].
      rewrite Hlen. simpl. rewrite length_app. simpl.
      rewrite filter_cons_True by (by eexists). simpl.
      rewrite (list_filter_iff (resolves _) (resolves g)); [lia|].
      intros ev. unfold resolves. simpl.
      by rewrite <- !(elem_of_dom (D := gset N)), Hsame.
    + destruct (IH profiler g)
        as (profiler' & g' & -> & Hlen & Hdom & Hrep & Hbuf).
      exists profiler', g'. split; [done|]. split_and!; try done.
      rewrite filter_cons_False; [done|]. unfold resolves. rewrite E.
      by intros [? ?].
Qed.

Lemma filter_none_iff {A} (P : A → Prop) `{∀ x, Decision (P x)} (l : list A) :
  length (filter P l) = 0%nat ↔ ¬ Exists P l.
Proof.
  induction l as [|x l IH].
  - split; [by intros _ ?%Exists_nil|done].
  - rewrite Exists_cons. destruct (decide (P x)).
    + rewrite filter_cons_True by done. simpl. split; [done|]. tauto.
    + rewrite filter_cons_False by done. rewrite IH. tauto.
Qed.

Section SelectionProofs.
Context `{Collaborators}.


(** C6. [SelectEvents] always returns; it publishes one report exactly when
    at least one of the selected events has a callstack id that resolves in
    the callstack store, and publishes nothing otherwise, in particular for
    an empty selection. *)
Theorem SelectEvents_publishes_iff_resolved a_WorldStart a_WorldEnd a_TID s :
  ∃ events s',
    SelectEvents a_WorldStart a_WorldEnd a_TID s = Some (events, s')
    ∧ (if decide (Exists (resolves (globals s)) events)
       then ∃ report,
              GSelectionReports (globals s')
              = GSelectionReports (globals s) ++ [report]
              ∧ GetNumSamples report
                = N.of_nat (length (filter (resolves (globals s)) events))
              ∧ m_GenerateSummary report = (a_TID =? 0)
       else GSelectionReports (globals s') = GSelectionReports (globals s))
    ∧ (events = [] →
       GSelectionReports (globals s') = GSelectionReports (globals s)).
Proof.
  unfold SelectEvents.
  destruct (if Fp.gt a_WorldStart a_WorldEnd
            then (a_WorldEnd, a_WorldStart)
            else (a_WorldStart, a_WorldEnd)) as [w0 w1].
  destruct (GetTickFromWorld_Some w0 s) as [t0 ->].
  destruct (GetTickFromWorld_Some w1 s) as [t1 ->].
  cbn [mbind option_bind]. cbv zeta.
  set (events := EventBuffer_GetCallstackEvents _ t0 t1 a_TID).
  destruct (add_event_callstacks events
              (SetGenerateSummary (a_TID =? 0) SamplingProfiler_new)
              (globals s))
    as (profiler & g & Hfold & Hlen & _ & Hrep & _).
  cbn [globals set_selected_callstack_events_per_thread_].
  rewrite Hfold. simpl in Hlen.
  assert (m_GenerateSummary profiler = (a_TID =? 0)) as Hsummary.
  { clear -Hfold. revert Hfold.
    generalize (globals s).
    assert (m_GenerateSummary
              (SetGenerateSummary (a_TID =? 0) SamplingProfiler_new)
            = (a_TID =? 0)) as Hinit by done.
    revert Hinit.
    generalize (SetGenerateSummary (a_TID =? 0) SamplingProfiler_new).
    induction events as [|event events IH]; intros p Hp g0 Hfold.
    - simpl in Hfold. by simplify_eq.
    - cbn [foldl] in Hfold. unfold add_event_callstack at 2 in Hfold.
      destruct (GSamplingProfiler_callstacks g0 !! m_Id event);
        by eapply IH in Hfold. }
  eexists events, _. split; [done|].
  pose proof (filter_none_iff (resolves (globals s)) events) as Hnone.
  unfold GetNumSamples, ProcessSamples. cbn [m_NumSamples].
  rewrite Hlen.
  destruct (decide (Exists (resolves (globals s)) events)) as [Hex|Hex].
  - assert (length (filter (resolves (globals s)) events) ≠ 0%nat) as Hpos
      by (intros ?%Hnone; done).
    assert ((0 <? N.of_nat (length (filter (resolves (globals s)) events)))
            = true) as -> by (apply N.ltb_lt; lia).
    split.
    + eexists. cbn. rewrite Hrep. split; [done|]. by split.
    + intros Hempty. rewrite Hempty in Hpos. done.
  - apply Hnone in Hex. rewrite Hex. cbn. split; [done|]. by intros _.
Qed.

End SelectionProofs.


(** ** Track order *)

Lemma StronglySorted_filter {A} (R : relation A) (P : A → Prop)
    `{∀ x, Decision (P x)} (l : list A) :
  StronglySorted R l → StronglySorted R (filter P l).
Proof.
  induction 1 as [|x l Hl IH Hx]; [constructor|].
  destruct (decide (P x)).
  - rewrite filter_cons_True by done. constructor; [done|].
    apply Forall_forall. intros y [_ Hy]%list_elem_of_filter.
    by apply (proj1 (Forall_forall _ _) Hx).
  - by rewrite filter_cons_False.
Qed.

Lemma StronglySorted_fmap_in {A B} (f : A → B) (R1 : relation A)
    (R2 : relation B) (l : list A) :
  (∀ x y, x ∈ l → y ∈ l → R1 x y → R2 (f x) (f y)) →
  StronglySorted R1 l → StronglySorted R2 (f <$> l).
Proof.
  intros Hf Hl. induction Hl as [|x l Hl IH Hx]; [constructor|].
  rewrite fmap_cons. constructor.
  - apply IH. intros y z Hy Hz. apply Hf; set_solver.
  - apply Forall_fmap, Forall_forall. intros y Hy. simpl.
    apply Hf; [set_solver..|]. by apply (proj1 (Forall_forall _ _) Hx).
Qed.

#[global] Instance value_ge_trans : Transitive value_ge.
Proof. unfold value_ge. intros a b c ? ?. lia. Qed.

#[global] Instance value_ge_total : Total value_ge.
Proof. unfold value_ge. intros a b. lia. Qed.

Lemma ReverseValueSort_perm m : ReverseValueSort m ≡ₚ map_to_list m.
Proof. apply merge_sort_Permutation. Qed.

Lemma ReverseValueSort_elem m k v :
  (k, v) ∈ ReverseValueSort m ↔ m !! k = Some v.
Proof. by rewrite ReverseValueSort_perm, elem_of_map_to_list. Qed.

Lemma ReverseValueSort_keys m :
  NoDup (ReverseValueSort m).*1
  ∧ ∀ k, k ∈ (ReverseValueSort m).*1 ↔ is_Some (m !! k).
Proof.
  split.
  - rewrite ReverseValueSort_perm. apply NoDup_fst_map_to_list.
  - intros k. rewrite list_elem_of_fmap. split.
    + intros ([k' v] & -> & Hin). apply ReverseValueSort_elem in Hin.
      by eexists.
    + intros [v Hv]. exists (k, v). split; [done|].
      by apply ReverseValueSort_elem.
Qed.

Lemma ReverseValueSort_ranked m :
  ranked_by (λ k, default 0 (m !! k)) (ReverseValueSort m).*1.
Proof.
  unfold ranked_by.
  apply (StronglySorted_fmap_in fst value_ge); [|apply StronglySorted_merge_sort; apply _].
  intros [k1 v1] [k2 v2] H1%ReverseValueSort_elem H2%ReverseValueSort_elem.
  unfold value_ge. simpl. by rewrite H1, H2.
Qed.

(** The event counters after the first loop of [SortTracks]. *)
Lemma foldl_insert_lookup {A} (f : A → N) (l : list (N * A))
    (m0 : gmap N N) (k : N) :
  NoDup l.*1 →
  foldl (λ m kv, <[kv.1 := f kv.2]> m) m0 l !! k
  = match (list_to_map l : gmap N A) !! k with
    | Some v => Some (f v)
    | None => m0 !! k
    end.
Proof.
  revert m0. induction l as [|[k0 v0] l IH]; intros m0 Hnd.
  - simpl. by rewrite lookup_empty.
  - rewrite fmap_cons in Hnd. apply NoDup_cons in Hnd as [Hk0 Hnd].
    cbn [foldl list_to_map foldr fst snd uncurry]. rewrite (IH _ Hnd).
    destruct (decide (k = k0)) as [->|Hne].
    + rewrite (not_elem_of_list_to_map_1 l k0 Hk0).
      by rewrite !lookup_insert_eq.
    + by rewrite !lookup_insert_ne.
Qed.

Lemma extends_refl s : extends s s.
Proof. by split. Qed.

Lemma extends_trans s1 s2 s3 : extends s1 s2 → extends s2 s3 → extends s1 s3.
Proof.
  intros [] []. split; try congruence.
  - by etrans.
  - by etrans.
Qed.

Lemma extends_GetOrCreateThreadTrack tid s :
  extends s (GetOrCreateThreadTrack tid s).2.
Proof.
  unfold GetOrCreateThreadTrack.
  destruct (thread_tracks_ s !! tid) eqn:E; [apply extends_refl|].
  split; try done.
  - by apply prefix_app_r.
  - by apply insert_subseteq.
Qed.

Lemma extends_lookup s s' p :
  extends s s' → (p < length (objects s))%nat →
  objects s' !! p = objects s !! p.
Proof.
  intros [[more ->] _ _ _ _ _ _ _] Hp. by apply lookup_app_l.
Qed.

Lemma extends_thread s s' tid p :
  extends s s' → thread_tracks_ s !! tid = Some p →
  thread_tracks_ s' !! tid = Some p.
Proof. intros [_ Hsub _ _ _ _ _ _] Hp. by eapply lookup_weaken. Qed.

Lemma State_ok_thread s tid p :
  State_ok s → thread_tracks_ s !! tid = Some p →
  (p < length (objects s))%nat.
Proof.
  intros Hok Hp. apply (State_ok_fresh s p Hok).
  destruct Hok as (_ & _ & _ & _ & _ & Hth & _). by apply (Hth tid p).
Qed.

Lemma thread_name_extends s s' tid :
  State_ok s → extends s s' → is_Some (thread_tracks_ s !! tid) →
  thread_name s' tid = thread_name s tid.
Proof.
  intros Hok Hext [p Hp]. unfold thread_name.
  rewrite (extends_thread _ _ _ _ Hext Hp), Hp. simpl.
  rewrite (extends_lookup _ _ _ Hext); [done|]. by eapply State_ok_thread.
Qed.

Section SortingProofs.
Context `{Collaborators}.

Lemma shown_extends s s' p :
  extends s s' → (p < length (objects s))%nat → shown s' p = shown s p.
Proof.
  intros Hext Hp. unfold shown, if_not_empty.
  rewrite (extends_lookup _ _ _ Hext Hp). by rewrite (ext_globals _ _ Hext).
Qed.

Lemma if_not_empty_shown s p :
  (p < length (objects s))%nat → if_not_empty s p = Some (shown s p).
Proof.
  intros Hp. unfold shown, if_not_empty.
  destruct (lookup_lt_is_Some_2 (objects s) p Hp) as [t ->]. done.
Qed.

Lemma thread_shown_extends s s' tid :
  State_ok s → extends s s' → is_Some (thread_tracks_ s !! tid) →
  thread_shown s' tid = thread_shown s tid.
Proof.
  intros Hok Hext [p Hp]. unfold thread_shown.
  rewrite (extends_thread _ _ _ _ Hext Hp), Hp. simpl.
  apply shown_extends; [done|]. by eapply State_ok_thread.
Qed.

(** The loop that appends the thread tracks. *)
Lemma append_thread_tracks_shown ids sorted s :
  State_ok s →
  ∃ s', append_thread_tracks ids sorted s
        = Some (sorted ++ (ids ≫= thread_shown s'), s')
        ∧ State_ok s' ∧ extends s s'.
Proof.
  unfold append_thread_tracks.
  revert sorted s. induction ids as [|tid ids IH]; intros sorted s Hok.
  - exists s. simpl. rewrite app_nil_r. by split_and!; [|..|apply extends_refl].
  - cbn [foldl]. unfold append_thread_track at 2. cbn [mbind option_bind].
    pose proof (GetOrCreateThreadTrack_ok tid s Hok) as [Hok1 Hin].
    pose proof (GetOrCreateThreadTrack_lookup tid s) as Hlook.
    pose proof (extends_GetOrCreateThreadTrack tid s) as Hext1.
    destruct (GetOrCreateThreadTrack tid s) as [track s1]. simpl in *.
    assert (track < length (objects s1))%nat as Hvalid
      by by apply State_ok_fresh.
    rewrite (if_not_empty_shown _ _ Hvalid). cbn [mbind option_bind].
    destruct (IH (sorted ++ shown s1 track) s1 Hok1)
      as (s' & -> & Hok' & Hext').
    exists s'. split_and!; [|done|by eapply extends_trans].
    do 2 f_equal. rewrite <- (assoc_L (++)). f_equal.
    cbn [mbind list_bind]. f_equal.
    unfold thread_shown. rewrite (extends_thread _ _ _ _ Hext' Hlook). simpl.
    symmetry. by apply shown_extends.
Qed.

(** The loop of the name filter. *)
Lemma filter_thread_ids_names filters ids s :
  State_ok s →
  ∃ s', filter_thread_ids filters ids s
        = Some (ids ≫= (λ tid, push_per_matching_filter (thread_name s' tid)
                                 filters tid), s')
        ∧ State_ok s' ∧ extends s s'
        ∧ ∀ tid, tid ∈ ids → is_Some (thread_tracks_ s' !! tid).
Proof.
  unfold filter_thread_ids.
  assert (∀ acc s, State_ok s →
    ∃ s', foldl (filter_thread_id filters) (Some (acc, s)) ids
          = Some (acc ++ (ids ≫= (λ tid,
                    push_per_matching_filter (thread_name s' tid)
                      filters tid)), s')
          ∧ State_ok s' ∧ extends s s'
          ∧ ∀ tid, tid ∈ ids → is_Some (thread_tracks_ s' !! tid)) as Hgen.
  { induction ids as [|tid ids IH]; intros acc s0 Hok.
    - exists s0. simpl. rewrite app_nil_r.
      split_and!; [done..|apply extends_refl|by intros ? ?%elem_of_nil].
    - cbn [foldl]. unfold filter_thread_id at 2. cbn [mbind option_bind].
      pose proof (GetOrCreateThreadTrack_ok tid s0 Hok) as [Hok1 Hin].
      pose proof (GetOrCreateThreadTrack_lookup tid s0) as Hlook.
      pose proof (extends_GetOrCreateThreadTrack tid s0) as Hext1.
      destruct (GetOrCreateThreadTrack tid s0) as [track s1]. simpl in *.
      assert (track < length (objects s1))%nat as Hvalid
        by by apply State_ok_fresh.
      destruct (lookup_lt_is_Some_2 (objects s1) track Hvalid) as [t Ht].
      rewrite Ht. cbn [mbind option_bind].
      destruct (IH (acc ++ push_per_matching_filter (Track_GetName t)
                             filters tid) s1 Hok1)
        as (s' & -> & Hok' & Hext' & Hall).
      exists s'. split_and!; [|done|by eapply extends_trans|].
      + do 2 f_equal. rewrite <- (assoc_L (++)). f_equal.
        cbn [mbind list_bind]. f_equal.
        unfold thread_name. rewrite (extends_thread _ _ _ _ Hext' Hlook).
        simpl. by rewrite (extends_lookup _ _ _ Hext' Hvalid), Ht.
      + intros tid' [->|Hin']%elem_of_cons; [|by apply Hall].
        rewrite (extends_thread _ _ _ _ Hext' Hlook). by eexists. }
  intros Hok. apply (Hgen [] s Hok).
Qed.

Lemma GetOrCreateThreadTrack_event_count tid s :
  m_EventCount (GetOrCreateThreadTrack tid s).2 = m_EventCount s.
Proof.
  unfold GetOrCreateThreadTrack. by destruct (thread_tracks_ s !! tid).
Qed.

Lemma count_thread_events_fold l s :
  State_ok s →
  State_ok (foldl count_thread_events s l)
  ∧ extends s (foldl count_thread_events s l)
  ∧ m_EventCount (foldl count_thread_events s l)
    = foldl (λ m kv, <[kv.1 := wrap32 (N.of_nat (size kv.2))]> m)
            (m_EventCount s) l.
Proof.
  revert s. induction l as [|[tid callstacks] l IH]; intros s Hok.
  - split_and!; [done|apply extends_refl|done].
  - cbn [foldl].
    assert (State_ok (count_thread_events s (tid, callstacks))
            ∧ extends s (count_thread_events s (tid, callstacks))
            ∧ m_EventCount (count_thread_events s (tid, callstacks))
              = <[tid := wrap32 (N.of_nat (size callstacks))]> (m_EventCount s))
      as (Hok1 & Hext1 & Hcount1).
    { unfold count_thread_events. cbv zeta. split_and!.
      - apply GetOrCreateThreadTrack_ok. by eapply State_ok_frame.
      - eapply extends_trans; [|apply extends_GetOrCreateThreadTrack].
        by split.
      - by rewrite GetOrCreateThreadTrack_event_count. }
    destruct (IH _ Hok1) as (Hok' & Hext' & Hcount').
    split_and!; [done|by eapply extends_trans|].
    by rewrite Hcount', Hcount1.
Qed.

Lemma count_events_counts s :
  State_ok s →
  State_ok (count_events s)
  ∧ extends s (count_events s)
  ∧ m_EventCount (count_events s)
    = (λ callstacks : gmap N CallstackEvent,
         wrap32 (N.of_nat (size callstacks))) <$> sampled_events s.
Proof.
  intros Hok. unfold count_events. cbv zeta.
  destruct (count_thread_events_fold
              (map_to_list (EventBuffer_GetCallstacks
                              (GEventBuffer (globals (set_m_EventCount ∅ s)))))
              (set_m_EventCount ∅ s)) as (Hok' & Hext' & Hcount').
  { by eapply State_ok_frame. }
  split_and!; [done| |].
  - eapply extends_trans; [|done]. by split.
  - rewrite Hcount'. apply map_eq. intros k.
    pose proof (foldl_insert_lookup
                  (λ callstacks : gmap N CallstackEvent,
                     wrap32 (N.of_nat (size callstacks)))
                  (map_to_list (EventBuffer_GetCallstacks
                     (GEventBuffer (globals (set_m_EventCount ∅ s)))))
                  (m_EventCount (set_m_EventCount ∅ s)) k
                  (NoDup_fst_map_to_list _)) as Hl.
    cbv beta in Hl. rewrite Hl. clear Hl.
    rewrite list_to_map_to_list, lookup_fmap. unfold sampled_events.
    cbn [globals set_m_EventCount m_EventCount EventBuffer_GetCallstacks].
    unfold EventBuffer_GetCallstacks.
    destruct (m_CallstackEvents (GEventBuffer (globals s)) !! k); simpl;
      [done|]. by rewrite lookup_empty.
Qed.

Lemma ranked_by_ext (c1 c2 : N → N) (l : list N) :
  (∀ k, c1 k = c2 k) → ranked_by c1 l → ranked_by c2 l.
Proof.
  intros Heq Hl. unfold ranked_by in *. rewrite <- (list_fmap_id l).
  eapply (StronglySorted_fmap_in id); [|done].
  intros x y _ _. simpl. by rewrite !Heq.
Qed.

Lemma sorted_thread_ids_ranked s s1 :
  m_ThreadCountMap s1 = m_ThreadCountMap s →
  m_EventCount s1
  = (λ callstacks : gmap N CallstackEvent,
       wrap32 (N.of_nat (size callstacks))) <$> sampled_events s →
  ranked_thread_ids s (instrumented_thread_ids s1) (sampled_thread_ids s1).
Proof.
  intros Hcalls Hevents.
  unfold ranked_thread_ids, instrumented_thread_ids, sampled_thread_ids.
  rewrite Hcalls, Hevents.
  destruct (ReverseValueSort_keys (m_ThreadCountMap s)) as [Hnd1 Hin1].
  destruct (ReverseValueSort_keys
              ((λ callstacks : gmap N CallstackEvent,
                  wrap32 (N.of_nat (size callstacks))) <$> sampled_events s))
    as [Hnd2 Hin2].
  split_and!.
  - by apply NoDup_filter.
  - intros tid. by rewrite list_elem_of_filter, Hin1.
  - apply StronglySorted_filter, ReverseValueSort_ranked.
  - by apply NoDup_filter.
  - intros tid. rewrite list_elem_of_filter, Hin2, lookup_fmap.
    rewrite fmap_is_Some. tauto.
  - apply StronglySorted_filter.
    eapply ranked_by_ext; [|apply ReverseValueSort_ranked].
    intros k. unfold event_count. rewrite lookup_fmap.
    by destruct (sampled_events s !! k).
Qed.

Lemma bind_agree {A B} (f g : A → list B) (l : list A) :
  (∀ x, x ∈ l → f x = g x) → l ≫= f = l ≫= g.
Proof.
  induction l as [|x l IH]; intros Hfg; [done|].
  cbn [mbind list_bind]. rewrite (Hfg x) by set_solver.
  f_equal. apply IH. intros y Hy. apply Hfg. set_solver.
Qed.

End SortingProofs.

Section DisplayOrderProofs.
Context `{Collaborators}.

Lemma extends_set_sorted_tracks v s : extends s (set_sorted_tracks_ v s).
Proof. by split. Qed.

Lemma displayed_thread_ids_listed s :
  State_ok s →
  ∃ s', displayed_thread_ids s
        = Some (if decide (m_ThreadFilter s = EmptyString)
                then sorted_thread_ids s
                else filtered_by_name s' (m_ThreadFilter s)
                       (sorted_thread_ids s), s')
        ∧ State_ok s' ∧ extends s s'
        ∧ (m_ThreadFilter s ≠ EmptyString →
           ∀ tid, tid ∈ sorted_thread_ids s →
                  is_Some (thread_tracks_ s' !! tid)).
Proof.
  intros Hok. unfold displayed_thread_ids.
  destruct (decide (m_ThreadFilter s ≠ EmptyString)) as [Hfilter|Hfilter].
  - destruct (filter_thread_ids_names
                (StrSplit (m_ThreadFilter s) " "%char)
                (sorted_thread_ids s) s Hok) as (s' & -> & Hok' & Hext & Hall).
    exists s'. rewrite decide_False by done. by split_and!.
  - exists s. apply dec_stable in Hfilter. rewrite decide_True by done.
    split_and!; [done..|apply extends_refl|done].
Qed.

Lemma SortTracks_reorders millis s :
  State_ok s → reorder_due millis s = true →
  ∃ s' instrumented sampled,
    SortTracks millis s = Some s'
    ∧ State_ok s' ∧ extends s s'
    ∧ ranked_thread_ids s instrumented sampled
    ∧ sorted_tracks_ s' = display_order s' instrumented sampled
    ∧ process_track_ s' = thread_tracks_ s' !! 0.
Proof.
  intros Hok Hdue. unfold SortTracks. cbv zeta.
  destruct (count_events_counts s Hok) as (Hok1 & Hext1 & Hcount1).
  set (s1 := count_events s) in *.
  assert (reorder_due millis s1 = true) as ->.
  { unfold reorder_due in *. by rewrite (ext_globals _ _ Hext1). }
  pose proof (sorted_thread_ids_ranked s s1 (ext_counts _ _ Hext1) Hcount1)
    as Hranked.
  destruct (displayed_thread_ids_listed s1 Hok1)
    as (s2 & -> & Hok2 & Hext2 & Hall2).
  cbn [mbind option_bind].
  destruct (State_ok_scheduler s2 Hok2) as (scheduler & Hsched & Hsin).
  rewrite Hsched. cbn [mbind option_bind].
  pose proof (State_ok_fresh _ _ Hok2 Hsin) as Hsvalid.
  rewrite (if_not_empty_shown _ _ Hsvalid). cbn [mbind option_bind].
  pose proof Hok2 as (_ & _ & _ & [process Hproc] & Hproc0 & Hth2 & _).
  rewrite Hproc. cbn [mbind option_bind].
  assert (process < length (objects s2))%nat as Hpvalid.
  { apply (State_ok_thread s2 0); [done|]. by rewrite <- Hproc0. }
  rewrite (if_not_empty_shown _ _ Hpvalid). cbn [mbind option_bind].
  match goal with
  | |- context [append_thread_tracks ?ids ?sorted s2] =>
      destruct (append_thread_tracks_shown ids sorted s2 Hok2)
        as (s3 & -> & Hok3 & Hext3)
  end.
  cbn [mbind option_bind].
  eexists _, (instrumented_thread_ids s1), (sampled_thread_ids s1).
  split; [done|].
  assert (extends s s3) as Hext.
  { eapply extends_trans; [done|]. by eapply extends_trans. }
  split_and!.
  - by eapply State_ok_frame.
  - eapply extends_trans; [done|]. apply extends_set_sorted_tracks.
  - done.
  - change (sorted_tracks_ (set_sorted_tracks_ ?v s3)) with v.
    change (display_order (set_sorted_tracks_ ?v s3) ?i ?j)
      with (display_order s3 i j).
    unfold display_order. rewrite <- !(assoc_L (++)).
    rewrite (ext_scheduler _ _ Hext3), Hsched. cbn [from_option].
    rewrite (shown_extends _ _ _ Hext3 Hsvalid). f_equal.
    rewrite (ext_gpu _ _ Hext3). f_equal.
    assert (thread_shown s3 0 = shown s2 process) as ->.
    { rewrite (thread_shown_extends s2 s3 0 Hok2 Hext3).
      - unfold thread_shown. by rewrite <- Hproc0, Hproc.
      - rewrite <- Hproc0, Hproc. by eexists. }
    f_equal. f_equal. unfold listed_thread_ids.
    rewrite (ext_filter _ _ Hext3), (ext_filter _ _ Hext2).
    destruct (decide (m_ThreadFilter s1 = EmptyString)) as [Hf|Hf]; [done|].
    unfold filtered_by_name. apply bind_agree. intros tid Htid.
    rewrite (thread_name_extends s2 s3 tid Hok2 Hext3); [done|].
    by apply Hall2.
  - change (process_track_ (set_sorted_tracks_ ?v s3))
      with (process_track_ s3).
    change (thread_tracks_ (set_sorted_tracks_ ?v s3))
      with (thread_tracks_ s3).
    rewrite (ext_process _ _ Hext3), Hproc. symmetry.
    apply (extends_thread s2 s3 0 process Hext3). by rewrite <- Hproc0.
Qed.

End DisplayOrderProofs.



Example SortTracks_example_order :
  (s ← SortTracks (H := example_collaborators) Fp.zero example_sampled_state;
   Some (sorted_tracks_ s, thread_tracks_ s !! 7, thread_tracks_ s !! 8,
         thread_tracks_ s !! 9, sorted_thread_ids s))
  = Some ([0; 5; 2; 3; 6]%nat, Some 2%nat, Some 3%nat, Some 6%nat, [7; 8; 9]).
Proof. vm_compute. reflexivity. Qed.

(** ** The name filter *)

Lemma push_per_matching_filter_repeat name filters tid :
  push_per_matching_filter name filters tid
  = repeat tid (length (matching_filters name filters)).
Proof.
  unfold push_per_matching_filter, matching_filters.
  induction filters as [|token filters IH]; [done|]. simpl.
  destruct (StrContains name token) eqn:E.
  - rewrite filter_cons_True by done. simpl. by rewrite IH.
  - rewrite filter_cons_False by (by rewrite E). by rewrite IH.
Qed.

Lemma elem_of_push_per_matching_filter name filters tid tid' :
  tid' ∈ push_per_matching_filter name filters tid
  ↔ tid' = tid
    ∧ ∃ token, token ∈ filters ∧ StrContains name token = true.
Proof.
  unfold push_per_matching_filter.
  induction filters as [|token filters IH].
  - simpl. split; [by intros ?%elem_of_nil|].
    by intros (_ & ? & ?%elem_of_nil & _).
  - simpl. rewrite elem_of_app, IH. split.
    + intros [Hin|(-> & token' & Hin & Hmatch)].
      * destruct (StrContains name token) eqn:E;
          [|by apply elem_of_nil in Hin].
        apply list_elem_of_singleton in Hin as ->. split; [done|].
        exists token. split; [set_solver|done].
      * split; [done|]. exists token'. split; [set_solver|done].
    + intros (-> & token' & [->|Hin]%elem_of_cons & Hmatch).
      * left. rewrite Hmatch. set_solver.
      * right. split; [done|]. by exists token'.
Qed.

(** What the filter retains: an id of the sorted list is kept exactly when
    its track's name contains at least one token; it is kept once per
    matching token, at its place in the sorted order. *)
Lemma filtered_by_name_retains s filter_text ids tid :
  tid ∈ filtered_by_name s filter_text ids
  ↔ tid ∈ ids
    ∧ ∃ token, token ∈ StrSplit filter_text " "%char
               ∧ StrContains (thread_name s tid) token = true.
Proof.
  unfold filtered_by_name. rewrite list_elem_of_bind. split.
  - intros (tid' & [-> Hmatch]%elem_of_push_per_matching_filter & Hids).
    done.
  - intros (Hids & Hmatch). exists tid. split; [|done].
    by apply elem_of_push_per_matching_filter.
Qed.

(** When no name matches more than one token, the filter is the plain
    selection the claim describes. *)
Lemma filtered_by_name_selects s filter_text ids :
  Forall (λ tid,
            (length (matching_filters (thread_name s tid)
                       (StrSplit filter_text " "%char)) ≤ 1)%nat) ids →
  filtered_by_name s filter_text ids
  = filter (λ tid, matching_filters (thread_name s tid)
                     (StrSplit filter_text " "%char) ≠ []) ids.
Proof.
  unfold filtered_by_name. induction 1 as [|tid ids Htid _ IH]; [done|].
  rewrite bind_cons, IH, push_per_matching_filter_repeat.
  destruct (matching_filters (thread_name s tid) (StrSplit filter_text " "))
    as [|token [|token' rest]] eqn:E; simpl in *.
  - by rewrite filter_cons_False by (rewrite E; intros []; done).
  - by rewrite filter_cons_True by (by rewrite E).
  - lia.
Qed.

(** C7 fails on the code: the inner loop over the tokens has no [break], so
    a thread whose name contains two tokens is retained twice and its
    track is listed twice.  Here thread [7] is named [ab] and the filter is
    [a b]; thread [8], named [worker], is dropped. *)
Theorem name_filter_repeats_thread :
  thread_name example_filtered_state 7 = "ab"%string
  ∧ StrSplit (m_ThreadFilter example_filtered_state) " "%char
    = ["a"; "b"]%string
  ∧ sorted_thread_ids (count_events example_filtered_state) = [7; 8]
  ∧ fst <$> displayed_thread_ids (count_events example_filtered_state)
    = Some [7; 7]
  ∧ thread_tracks_ example_filtered_state !! 7 = Some 2%nat
  ∧ sorted_tracks_
    <$> SortTracks (H := example_collaborators) Fp.zero example_filtered_state
    = Some [0; 5; 2; 2]%nat.
Proof. vm_compute. by split_and!. Qed.

(** ** Worked examples *)

(** Seven timers on two threads, the scheduler and one gpu timeline. *)
Example example_state_summary :
  capture_max_timestamp_ example_state = 70
  ∧ GetNumTimers example_state = Some 7
  ∧ map_to_list (m_ThreadCountMap example_state) = [(8, 2); (7, 3)]
  ∧ GetNumCores example_state = 1
  ∧ length (objects example_state) = 6%nat
  ∧ tracks_ (Clear example_state) = [6; 7]%nat.
Proof. vm_compute. by split_and!. Qed.

(** With a zero window and a zero world width both transforms take their
    guarded branch. *)
Example transforms_zero_window_example :
  GetWorldFromTick (H := example_collaborators) 2000
    (set_view Viewport_default example_state) = Some Fp.zero
  ∧ GetTickFromWorld_ratio (Fp.of_pos Fp.fprec Fp.femax 3)
      (set_view Viewport_default example_state) = Some Fp.zero.
Proof. vm_compute. by split_and!. Qed.

(** Two microseconds after the capture start, in a four-microsecond window
    mapped onto a world four units wide, is world coordinate [2]. *)
Example GetWorldFromTick_example :
  GetWorldFromTick (H := example_collaborators) 2000
    (set_capture_min_timestamp_ 0 example_sampled_state)
  = Some (Fp.of_pos Fp.fprec Fp.femax 2).
Proof. vm_compute. reflexivity. Qed.

(** Zooming a window of [2^-11] microseconds is rejected: the window stays,
    the zoom value, mouse ratio and reference time are recorded. *)
Example ZoomTime_rejected_example :
  zoom_rejected (Fp.of_pos Fp.fprec Fp.femax 1) example_half
    example_narrow_view = true
  ∧ (view <$> ZoomTime (H := example_collaborators)
                (Fp.of_pos Fp.fprec Fp.femax 1) example_half
                (set_view example_narrow_view example_state))
    = Some
        {| m_MinTimeUs := m_MinTimeUs example_narrow_view;
           m_MaxTimeUs := m_MaxTimeUs example_narrow_view;
           m_TimeWindowUs := m_TimeWindowUs example_narrow_view;
           m_RefTimeUs := zoom_ref_time example_half example_narrow_view;
           m_MouseRatio := example_half;
           m_ZoomValue := Fp.of_pos Fp.fprec Fp.femax 1;
           m_WorldStartX := m_WorldStartX example_narrow_view;
           m_WorldWidth := m_WorldWidth example_narrow_view |}.
Proof. vm_compute. by split_and!. Qed.

(** Zooming the four-microsecond window is accepted and clamped to the
    capture. *)
Example ZoomTime_accepted_example :
  zoom_rejected (Fp.of_pos Fp.fprec Fp.femax 1) example_half example_view
  = false
  ∧ (m_MinTimeUs ∘ view <$> ZoomTime (H := example_collaborators)
                (Fp.of_pos Fp.fprec Fp.femax 1) example_half
                example_sampled_state)
    = Some Fp.zero.
Proof. vm_compute. by split_and!. Qed.

(** A selection whose only event has an unknown callstack id publishes
    nothing; a selection with resolvable events publishes one report. *)
Example SelectEvents_unresolved_example :
  (λ r : list CallstackEvent * State,
     (m_Id <$> r.1, GSelectionReports (globals r.2)))
  <$> SelectEvents (H := example_collaborators)
        (Fp.of_pos Fp.fprec Fp.femax 2) (Fp.of_pos Fp.fprec Fp.femax 3) 7
        example_sampled_state
  = Some ([12], []).
Proof. vm_compute. reflexivity. Qed.

Example SelectEvents_resolved_example :
  (λ r : list CallstackEvent * State,
     (m_Id <$> r.1, GetNumSamples <$> GSelectionReports (globals r.2)))
  <$> SelectEvents (H := example_collaborators)
        (Fp.of_pos Fp.fprec Fp.femax 1) (Fp.of_pos Fp.fprec Fp.femax 3) 0
        example_sampled_state
  = Some ([11; 11; 12], [2]).
Proof. vm_compute. reflexivity. Qed.

(** The counters of the example threads count their instrumented calls. *)
Example instrumented_calls_example :
  instrumented_calls example_timers 7 = 3%nat
  ∧ instrumented_calls example_timers 8 = 2%nat
  ∧ instrumented_calls example_timers 3 = 0%nat
  ∧ m_ThreadCountMap example_state !! 3 = None.
Proof. vm_compute. by split_and!. Qed.

(** ** How the operations move the state *)

Lemma TimerChain_Append_boxes capacity box chain :
  TimerChain_boxes (TimerChain_Append capacity box chain)
  = TimerChain_boxes chain ++ [box].
Proof.
  unfold TimerChain_boxes.
  induction chain as [|b rest IH]; [done|].
  cbn [TimerChain_Append]. destruct rest as [|b' rest'].
  - destruct (TimerBlock_size b <? capacity)%nat; simpl.
    + by rewrite !app_nil_r.
    + by rewrite !app_nil_r.
  - rewrite fmap_cons. cbn [concat]. rewrite IH.
    rewrite (fmap_cons _ b). cbn [concat]. by rewrite (assoc_L (++)).
Qed.

Lemma track_boxes_with_track p f s s' q :
  with_track p f s = Some s' →
  track_boxes s' q
  = if decide (q = p)
    then from_option (λ t, TimerChain_boxes (timers_ (f t))) []
           (objects s !! p)
    else track_boxes s q.
Proof.
  intros (t & Ht & ->)%with_track_inv. unfold track_boxes.
  cbn [objects set_objects]. destruct (decide (q = p)) as [->|Hne].
  - rewrite list_lookup_insert_eq by by eapply lookup_lt_Some. by rewrite Ht.
  - by rewrite list_lookup_insert_ne.
Qed.

Lemma track_boxes_same p f s s' q :
  with_track p f s = Some s' → (∀ t, timers_ (f t) = timers_ t) →
  track_boxes s' q = track_boxes s q.
Proof.
  intros Hs' Hf. rewrite (track_boxes_with_track _ _ _ _ _ Hs').
  destruct (decide (q = p)) as [->|]; [|done].
  unfold track_boxes. destruct (objects s !! p); simpl; [|done].
  by rewrite Hf.
Qed.

Lemma track_boxes_OnTimer p capacity timer s s' q :
  with_track p (Track_OnTimer capacity timer) s = Some s' →
  track_boxes s' q
  = if decide (q = p) then track_boxes s q ++ [{| GetTimer := timer |}]
    else track_boxes s q.
Proof.
  intros Hs'. rewrite (track_boxes_with_track _ _ _ _ _ Hs').
  destruct (decide (q = p)) as [->|]; [|done].
  apply with_track_inv in Hs' as (t & Ht & _). unfold track_boxes.
  rewrite Ht. simpl. apply TimerChain_Append_boxes.
Qed.

Lemma track_boxes_GetOrCreateThreadTrack tid s q :
  track_boxes (GetOrCreateThreadTrack tid s).2 q = track_boxes s q.
Proof.
  unfold GetOrCreateThreadTrack. destruct (thread_tracks_ s !! tid); [done|].
  unfold track_boxes. simpl.
  destruct (decide (q < length (objects s))%nat).
  - by rewrite lookup_app_l.
  - rewrite (lookup_ge_None_2 (objects s)) by lia.
    destruct (decide (q = length (objects s))) as [->|].
    + rewrite lookup_app_r by lia. by rewrite Nat.sub_diag.
    + rewrite lookup_ge_None_2; [done|]. rewrite length_app. simpl. lia.
Qed.

Lemma track_boxes_GetOrCreateGpuTrack h s q :
  track_boxes (GetOrCreateGpuTrack h s).2 q = track_boxes s q.
Proof.
  unfold GetOrCreateGpuTrack. destruct (gpu_tracks_ s !! h); [done|].
  unfold track_boxes. simpl.
  destruct (decide (q < length (objects s))%nat).
  - by rewrite lookup_app_l.
  - rewrite (lookup_ge_None_2 (objects s)) by lia.
    destruct (decide (q = length (objects s))) as [->|].
    + rewrite lookup_app_r by lia. by rewrite Nat.sub_diag.
    + rewrite lookup_ge_None_2; [done|]. rewrite length_app. simpl. lia.
Qed.

Lemma evolves_refl s : evolves s s.
Proof. by split. Qed.

Lemma evolves_trans s1 s2 s3 : evolves s1 s2 → evolves s2 s3 → evolves s1 s3.
Proof.
  intros [] []. split; try congruence; try tauto; lia.
Qed.

Lemma track_is_frame P s s' p :
  objects s' = objects s → track_is P s p → track_is P s' p.
Proof. unfold track_is. by intros ->. Qed.

Lemma Tracks_typed_frame s s' :
  objects s' = objects s →
  scheduler_track_ s' = scheduler_track_ s →
  thread_tracks_ s' = thread_tracks_ s →
  gpu_tracks_ s' = gpu_tracks_ s →
  Tracks_typed s → Tracks_typed s'.
Proof.
  unfold Tracks_typed, track_is. by intros -> -> -> ->.
Qed.

(** A change of members other than the store and the track bookkeeping. *)
Lemma evolves_fields s s' :
  objects s' = objects s →
  tracks_ s' = tracks_ s →
  scheduler_track_ s' = scheduler_track_ s →
  process_track_ s' = process_track_ s →
  thread_tracks_ s' = thread_tracks_ s →
  gpu_tracks_ s' = gpu_tracks_ s →
  string_manager_ s' = string_manager_ s →
  sorted_tracks_ s' = sorted_tracks_ s →
  capture_max_timestamp_ s ≤ capture_max_timestamp_ s' →
  evolves s s'.
Proof.
  intros Ho Ht Hs Hp Hth Hg Hsm Hso Hmax. split; try done.
  - apply State_ok_frame; try done. by rewrite Ho.
  - by apply Tracks_typed_frame.
  - by rewrite Ho.
Qed.

Lemma track_is_insert P s p q f t :
  objects s !! q = Some t → (∀ t, P t → P (f t)) →
  track_is P s p →
  track_is P (set_objects (<[q := f t]> (objects s)) s) p.
Proof.
  intros Hq Hf (t' & Hp & HP). unfold track_is.
  cbn [objects set_objects]. destruct (decide (p = q)) as [->|Hne].
  - rewrite list_lookup_insert_eq by by eapply lookup_lt_Some.
    exists (f t). assert (t' = t) as -> by congruence. auto.
  - rewrite list_lookup_insert_ne by done. by exists t'.
Qed.

Lemma evolves_with_track p f s s' :
  with_track p f s = Some s' → keeps_identity f → evolves s s'.
Proof.
  intros Hs' Hf. pose proof Hs' as (t & Ht & ->)%with_track_inv.
  split; try done.
  - by apply (with_track_ok p f).
  - intros (Hsc & Hth & Hg). split_and!.
    + cbn [scheduler_track_ set_objects].
      destruct (scheduler_track_ s) as [q|]; [|done]. simpl in *.
      apply track_is_insert; [done| |done].
      intros t0. unfold is_scheduler_track. destruct (Hf t0) as (-> & _). done.
    + intros k q Hq. apply track_is_insert; [done| |by apply (Hth k q)].
      intros t0. unfold is_thread_track.
      destruct (Hf t0) as (-> & -> & _ & ->). done.
    + intros k q Hq. apply track_is_insert; [done| |by apply (Hg k q)].
      intros t0. unfold is_gpu_track.
      destruct (Hf t0) as (-> & _ & -> & _). done.
  - cbn [objects set_objects]. by rewrite length_insert.
Qed.

Lemma track_is_app P s s' p more :
  objects s' = objects s ++ more →
  track_is P s p → track_is P s' p.
Proof.
  intros Ho (t & Hp & HP). exists t. split; [|done].
  rewrite Ho. by apply lookup_app_l_Some.
Qed.

Lemma evolves_GetOrCreateThreadTrack tid s :
  evolves s (GetOrCreateThreadTrack tid s).2.
Proof.
  split.
  - intros Hok. by apply GetOrCreateThreadTrack_ok.
  - unfold GetOrCreateThreadTrack.
    destruct (thread_tracks_ s !! tid) eqn:E; [done|].
    intros (Hsc & Hth & Hg). split_and!.
    + cbn. destruct (scheduler_track_ s) as [q|]; [|done]. simpl in *.
      by eapply track_is_app.
    + cbn. apply map_Forall_insert_2.
      * eexists. split.
        -- cbn. rewrite lookup_app_r by lia. by rewrite Nat.sub_diag.
        -- done.
      * eapply map_Forall_impl; [done|]. intros k q Hq.
        by eapply track_is_app.
    + cbn. eapply map_Forall_impl; [done|]. intros k q Hq.
      by eapply track_is_app.
  - unfold GetOrCreateThreadTrack.
    destruct (thread_tracks_ s !! tid); [done|]. cbn.
    rewrite length_app. lia.
  - unfold GetOrCreateThreadTrack. by destruct (thread_tracks_ s !! tid).
  - unfold GetOrCreateThreadTrack. by destruct (thread_tracks_ s !! tid).
  - unfold GetOrCreateThreadTrack. by destruct (thread_tracks_ s !! tid).
Qed.

Lemma evolves_GetOrCreateGpuTrack h s :
  evolves s (GetOrCreateGpuTrack h s).2.
Proof.
  split.
  - intros Hok. by apply GetOrCreateGpuTrack_ok.
  - unfold GetOrCreateGpuTrack.
    destruct (gpu_tracks_ s !! h) eqn:E; [done|].
    intros (Hsc & Hth & Hg). split_and!.
    + cbn. destruct (scheduler_track_ s) as [q|]; [|done]. simpl in *.
      by eapply track_is_app.
    + cbn. eapply map_Forall_impl; [done|]. intros k q Hq.
      by eapply track_is_app.
    + cbn. apply map_Forall_insert_2.
      * eexists. split.
        -- cbn. rewrite lookup_app_r by lia. by rewrite Nat.sub_diag.
        -- done.
      * eapply map_Forall_impl; [done|]. intros k q Hq.
        by eapply track_is_app.
  - unfold GetOrCreateGpuTrack.
    destruct (gpu_tracks_ s !! h); [done|]. cbn.
    rewrite length_app. lia.
  - unfold GetOrCreateGpuTrack. by destruct (gpu_tracks_ s !! h).
  - unfold GetOrCreateGpuTrack. by destruct (gpu_tracks_ s !! h).
  - unfold GetOrCreateGpuTrack. by destruct (gpu_tracks_ s !! h).
Qed.

Lemma same_fields_refl s : same_fields s s.
Proof. by split. Qed.

Lemma same_fields_trans s1 s2 s3 :
  same_fields s1 s2 → same_fields s2 s3 → same_fields s1 s3.
Proof. intros [] []. split; congruence. Qed.

Lemma same_fields_with_track p f s s' :
  with_track p f s = Some s' → same_fields s s'.
Proof. by intros (t & _ & ->)%with_track_inv. Qed.

Lemma same_fields_GetOrCreateThreadTrack tid s :
  same_fields s (GetOrCreateThreadTrack tid s).2.
Proof.
  unfold GetOrCreateThreadTrack. by destruct (thread_tracks_ s !! tid).
Qed.

Lemma same_fields_GetOrCreateGpuTrack h s :
  same_fields s (GetOrCreateGpuTrack h s).2.
Proof.
  unfold GetOrCreateGpuTrack. by destruct (gpu_tracks_ s !! h).
Qed.

Lemma keeps_identity_SetName n : keeps_identity (Track_SetName n).
Proof. done. Qed.
Lemma keeps_identity_SetLabel l : keeps_identity (Track_SetLabel l).
Proof. done. Qed.
Lemma keeps_identity_SetColor c : keeps_identity (Track_SetColor c).
Proof. done. Qed.
Lemma keeps_identity_OnTimer capacity timer :
  keeps_identity (Track_OnTimer capacity timer).
Proof. done. Qed.

Lemma ProcessTimer_counters_evolves timer s :
  evolves s (ProcessTimer_counters timer s)
  ∧ track_boxes (ProcessTimer_counters timer s) = track_boxes s.
Proof.
  destruct (ProcessTimer_counters_frame timer s)
    as (Ho & Ht & Hsc & Hp & Hth & Hg & Hsm & _ & Hmax).
  split.
  - apply evolves_fields; try done; [|lia].
    unfold ProcessTimer_counters.
    destruct (capture_max_timestamp_ s <? m_End timer), (m_Type timer);
      cbv zeta;
      match goal with |- context [if ?c then _ else _] => destruct c end;
      done.
  - unfold track_boxes. by rewrite Ho.
Qed.

Section MoreIngestion.
Context `{Collaborators}.

Lemma ProcessTimer_routes timer s :
  State_ok s →
  (m_Type timer = GPU_ACTIVITY → is_Some (string_manager_ s)) →
  ∃ s' p,
    ProcessTimer timer s = Some s'
    ∧ evolves s s'
    ∧ receiving_track timer s' = Some p
    ∧ (∀ q, track_boxes s' q
            = if decide (q = p)
              then track_boxes s q ++ [{| GetTimer := timer |}]
              else track_boxes s q)
    ∧ (m_Type timer ≠ GPU_ACTIVITY →
       is_Some (thread_tracks_ s' !! m_TID timer)).
Proof.
  intros Hok Hsm.
  destruct (ProcessTimer_counters_evolves timer s) as [Hev0 Hb0].
  pose proof (ev_ok _ _ Hev0 Hok) as Hok0.
  unfold ProcessTimer, receiving_track. cbv zeta.
  set (s0 := ProcessTimer_counters timer s) in *.
  destruct (decide (m_Type timer = GPU_ACTIVITY)) as [Hgpu|Hgpu].
  - destruct (Hsm Hgpu) as [strings Hstrings].
    pose proof (GetOrCreateGpuTrack_ok (GetGpuTimelineHash timer) s0 Hok0)
      as [Hok1 Hin1].
    pose proof (evolves_GetOrCreateGpuTrack (GetGpuTimelineHash timer) s0)
      as Hev1.
    pose proof (GetOrCreateGpuTrack_lookup (GetGpuTimelineHash timer) s0)
      as Hlook.
    pose proof (track_boxes_GetOrCreateGpuTrack (GetGpuTimelineHash timer) s0)
      as Hb1.
    destruct (GetOrCreateGpuTrack _ s0) as [track s1]. simpl in *.
    rewrite (ev_strings _ _ Hev1), (ev_strings _ _ Hev0), Hstrings.
    cbn [mbind option_bind].
    set (text := default EmptyString (strings !! GetGpuTimelineHash timer)).
    destruct (with_track_Some track (Track_SetName text) s1) as [s2 E2];
      [by apply State_ok_fresh|].
    rewrite E2. cbn [mbind option_bind].
    pose proof (evolves_with_track _ _ _ _ E2 (keeps_identity_SetName _))
      as Hev2.
    destruct (with_track_Some track (Track_SetLabel text) s2) as [s3 E3].
    { eapply Nat.lt_le_trans; [by apply (State_ok_fresh s1)|].
      apply (ev_length _ _ Hev2). }
    rewrite E3. cbn [mbind option_bind].
    pose proof (evolves_with_track _ _ _ _ E3 (keeps_identity_SetLabel _))
      as Hev3.
    destruct (with_track_Some track (Track_OnTimer kBlockSize timer) s3)
      as [s4 E4].
    { eapply Nat.lt_le_trans; [by apply (State_ok_fresh s1)|].
      etrans; [apply (ev_length _ _ Hev2)|apply (ev_length _ _ Hev3)]. }
    rewrite E4.
    pose proof (evolves_with_track _ _ _ _ E4 (keeps_identity_OnTimer _ _))
      as Hev4.
    exists s4, track. split_and!; [done| | | |done].
    + repeat (eapply evolves_trans; [|done]). done.
    + rewrite Hgpu.
      pose proof E2 as (? & _ & ->)%with_track_inv.
      pose proof E3 as (? & _ & ->)%with_track_inv.
      pose proof E4 as (? & _ & ->)%with_track_inv. done.
    + intros q. rewrite (track_boxes_OnTimer _ _ _ _ _ _ E4).
      rewrite (track_boxes_same _ _ _ _ _ E3) by done.
      rewrite (track_boxes_same _ _ _ _ _ E2) by done.
      by rewrite Hb1, Hb0.
  - pose proof (GetOrCreateThreadTrack_ok (m_TID timer) s0 Hok0)
      as [Hok1 Hin1].
    pose proof (evolves_GetOrCreateThreadTrack (m_TID timer) s0) as Hev1.
    pose proof (GetOrCreateThreadTrack_lookup (m_TID timer) s0) as Hlook.
    pose proof (track_boxes_GetOrCreateThreadTrack (m_TID timer) s0) as Hb1.
    destruct (GetOrCreateThreadTrack _ s0) as [track s1]. simpl in *.
    assert (∃ s2, (if decide (m_Type timer = INTROSPECTION)
                   then with_track track (Track_SetColor kGreenIntrospection) s1
                   else Some s1) = Some s2
                  ∧ evolves s1 s2
                  ∧ (∀ q, track_boxes s2 q = track_boxes s1 q)
                  ∧ thread_tracks_ s2 = thread_tracks_ s1
                  ∧ scheduler_track_ s2 = scheduler_track_ s1)
      as (s2 & -> & Hev2 & Hb2 & Hth2 & Hsc2).
    { destruct (decide (m_Type timer = INTROSPECTION)).
      - destruct (with_track_Some track (Track_SetColor kGreenIntrospection)
                    s1) as [s2 E2]; [by apply State_ok_fresh|].
        exists s2. split_and!; [done| | | |].
        + by eapply evolves_with_track.
        + intros q. by apply (track_boxes_same _ _ _ _ _ E2).
        + by apply with_track_inv in E2 as (? & _ & ->).
        + by apply with_track_inv in E2 as (? & _ & ->).
      - exists s1. split_and!; [done|apply evolves_refl|done..]. }
    cbn [mbind option_bind].
    pose proof (ev_ok _ _ Hev2 Hok1) as Hok2.
    destruct (decide (m_Type timer ≠ CORE_ACTIVITY)) as [Hcore|Hcore].
    + destruct (with_track_Some track (Track_OnTimer kBlockSize timer) s2)
        as [s3 E3].
      { eapply Nat.lt_le_trans; [by apply (State_ok_fresh s1)|].
        apply (ev_length _ _ Hev2). }
      rewrite E3. cbn [mbind option_bind].
      pose proof (evolves_with_track _ _ _ _ E3 (keeps_identity_OnTimer _ _))
        as Hev3.
      eexists _, track. split_and!; [done| | | |].
      * eapply evolves_trans; [done|]. eapply evolves_trans; [done|].
        eapply evolves_trans; [done|]. eapply evolves_trans; [done|].
        apply evolves_fields; done.
      * pose proof E3 as (? & _ & ->)%with_track_inv.
        cbn. rewrite Hth2, Hlook.
        by destruct (m_Type timer).
      * intros q. change (track_boxes (set_m_ThreadCountMap ?v s3) q)
          with (track_boxes s3 q).
        rewrite (track_boxes_OnTimer _ _ _ _ _ _ E3).
        by rewrite Hb2, Hb1, Hb0.
      * intros _. pose proof E3 as (? & _ & ->)%with_track_inv.
        cbn. rewrite Hth2, Hlook. by eexists.
    + apply dec_stable in Hcore.
      destruct (State_ok_scheduler s2 Hok2) as (scheduler & Hsched & Hsin).
      rewrite Hsched. cbn [mbind option_bind].
      destruct (with_track_Some scheduler (Track_OnTimer kBlockSize timer) s2)
        as [s3 E3]; [by apply State_ok_fresh|].
      rewrite E3. cbn [mbind option_bind].
      pose proof (evolves_with_track _ _ _ _ E3 (keeps_identity_OnTimer _ _))
        as Hev3.
      eexists _, scheduler. split_and!; [done| | | |].
      * eapply evolves_trans; [done|]. eapply evolves_trans; [done|].
        eapply evolves_trans; [done|]. eapply evolves_trans; [done|].
        apply evolves_fields; done.
      * pose proof E3 as (? & _ & ->)%with_track_inv.
        cbn. by rewrite Hcore.
      * intros q. change (track_boxes (set_cores_seen_ ?v s3) q)
          with (track_boxes s3 q).
        rewrite (track_boxes_OnTimer _ _ _ _ _ _ E3).
        by rewrite Hb2, Hb1, Hb0.
      * intros _. pose proof E3 as (? & _ & ->)%with_track_inv.
        cbn. rewrite Hth2, Hlook. by eexists.
Qed.

End MoreIngestion.

Lemma same_fields_counters timer s :
  cores_seen_ (ProcessTimer_counters timer s) = cores_seen_ s
  ∧ view (ProcessTimer_counters timer s) = view s
  ∧ m_EventCount (ProcessTimer_counters timer s) = m_EventCount s
  ∧ capture_min_timestamp_ (ProcessTimer_counters timer s)
    = capture_min_timestamp_ s
  ∧ GTargetProcess_functions (globals (ProcessTimer_counters timer s))
    = GTargetProcess_functions (globals s)
  ∧ GHasContextSwitches (globals (ProcessTimer_counters timer s))
    = GHasContextSwitches (globals s)
      || bool_decide (m_Type timer = CORE_ACTIVITY)
  ∧ GFunctionCountMap (globals (ProcessTimer_counters timer s))
    = if decide (counted_call (globals s) (m_FunctionAddress timer) timer)
      then increment64 (m_FunctionAddress timer)
             (GFunctionCountMap (globals s))
      else GFunctionCountMap (globals s).
Proof.
  unfold ProcessTimer_counters, counted_call. cbv zeta.
  destruct (capture_max_timestamp_ s <? m_End timer);
    destruct (m_Type timer) eqn:Ety; cbn [globals update_globals set_globals
      set_capture_max_timestamp_ GTargetProcess_functions
      set_GHasContextSwitches];
    destruct (N.ltb_spec 0 (m_FunctionAddress timer)) as [Hpos|Hpos];
    cbn [andb];
    try (rewrite decide_False by lia);
    try (destruct (decide (m_FunctionAddress timer
                            ∈ GTargetProcess_functions (globals s)))
           as [Hin|Hin];
         [rewrite bool_decide_eq_true_2 by done; rewrite decide_True by done
         |rewrite bool_decide_eq_false_2 by done;
          rewrite decide_False by tauto]);
    cbn; rewrite ?orb_true_r, ?orb_false_r; by split_and!.
Qed.

Lemma wrap64_add_l a b : wrap64 (wrap64 a + b) = wrap64 (a + b).
Proof. unfold wrap64. by rewrite N.Div0.add_mod_idemp_l. Qed.

Lemma counter64_after_S n counter :
  counter64_after (S n) counter
  = counter64_after n (Some (wrap64 (default 0 counter + 1))).
Proof.
  destruct n as [|n]; simpl; [done|]. f_equal.
  rewrite wrap64_add_l. f_equal. lia.
Qed.

Section MoreIngestion2.
Context `{Collaborators}.

Lemma ProcessTimer_gpu_needs_strings timer s :
  m_Type timer = GPU_ACTIVITY → string_manager_ s = None →
  ProcessTimer timer s = None.
Proof.
  intros Hgpu Hnone. unfold ProcessTimer. cbv zeta.
  rewrite decide_True by done.
  destruct (ProcessTimer_counters_frame timer s)
    as (_ & _ & _ & _ & _ & _ & Hsm & _).
  pose proof (GetOrCreateGpuTrack_frame (GetGpuTimelineHash timer)
                (ProcessTimer_counters timer s)) as (_ & Hsm1).
  destruct (GetOrCreateGpuTrack _ _) as [track s1]. simpl in *.
  by rewrite Hsm1, Hsm, Hnone.
Qed.

(** What [ProcessTimer] does to the members other than the tracks. *)
Lemma ProcessTimer_effects timer s s' :
  ProcessTimer timer s = Some s' →
  globals s' = globals (ProcessTimer_counters timer s)
  ∧ cores_seen_ s'
    = (if decide (m_Type timer = CORE_ACTIVITY)
       then {[m_Processor timer]} ∪ cores_seen_ s
       else cores_seen_ s)
  ∧ view s' = view s
  ∧ m_EventCount s' = m_EventCount s
  ∧ capture_min_timestamp_ s' = capture_min_timestamp_ s.
Proof.
  destruct (same_fields_counters timer s) as (Hc0 & Hv0 & He0 & Hm0 & _).
  unfold ProcessTimer. cbv zeta.
  set (s0 := ProcessTimer_counters timer s) in *.
  destruct (decide (m_Type timer = GPU_ACTIVITY)) as [Hgpu|Hgpu].
  - pose proof (same_fields_GetOrCreateGpuTrack (GetGpuTimelineHash timer) s0)
      as Hf1.
    destruct (GetOrCreateGpuTrack _ _) as [track s1]. simpl in Hf1.
    destruct (string_manager_ s1) as [strings|]; [|done].
    cbn [mbind option_bind].
    destruct (with_track track (Track_SetName _) s1) as [s2|] eqn:E2; [|done].
    cbn [mbind option_bind].
    destruct (with_track track (Track_SetLabel _) s2) as [s3|] eqn:E3;
      [|done].
    cbn [mbind option_bind]. intros E4.
    apply same_fields_with_track in E2, E3, E4.
    destruct Hf1, E2, E3, E4.
    rewrite decide_False by congruence. split_and!; congruence.
  - pose proof (same_fields_GetOrCreateThreadTrack (m_TID timer) s0) as Hf1.
    destruct (GetOrCreateThreadTrack _ _) as [track s1]. simpl in Hf1.
    destruct (if decide (m_Type timer = INTROSPECTION)
              then with_track track (Track_SetColor kGreenIntrospection) s1
              else Some s1) as [s2|] eqn:E2; [|done].
    assert (same_fields s1 s2) as Hf2.
    { destruct (decide (m_Type timer = INTROSPECTION));
        [by eapply same_fields_with_track|]. simplify_eq.
      apply same_fields_refl. }
    cbn [mbind option_bind].
    destruct (decide (m_Type timer ≠ CORE_ACTIVITY)) as [Hcore|Hcore].
    + destruct (with_track track (Track_OnTimer _ _) s2) as [s3|] eqn:E3;
        [|done].
      cbn [mbind option_bind]. intros [= <-].
      apply same_fields_with_track in E3. destruct Hf1, Hf2, E3.
      rewrite decide_False by done. cbn. split_and!; congruence.
    + apply dec_stable in Hcore.
      destruct (scheduler_track_ s2) as [scheduler|]; [|done].
      cbn [mbind option_bind].
      destruct (with_track scheduler _ s2) as [s3|] eqn:E3; [|done].
      cbn [mbind option_bind]. intros [= <-].
      apply same_fields_with_track in E3. destruct Hf1, Hf2, E3.
      rewrite decide_True by done. cbn. split_and!; congruence.
Qed.

Lemma ProcessTimers_effects timers s s' :
  ProcessTimers timers s = Some s' →
  cores_seen_ s' = cores_seen_ s ∪ core_processors timers
  ∧ GTargetProcess_functions (globals s')
    = GTargetProcess_functions (globals s)
  ∧ GHasContextSwitches (globals s')
    = GHasContextSwitches (globals s)
      || bool_decide (Exists (λ t, m_Type t = CORE_ACTIVITY) timers)
  ∧ ∀ addr,
      GFunctionCountMap (globals s') !! addr
      = counter64_after (counted_calls (globals s) timers addr)
          (GFunctionCountMap (globals s) !! addr).
Proof.
  revert s. induction timers as [|timer timers IH]; intros s.
  - intros [= <-]. unfold core_processors. split_and!; [set_solver|done| |done].
    rewrite bool_decide_eq_false_2 by (by intros ?%Exists_nil).
    by rewrite orb_false_r.
  - simpl. destruct (ProcessTimer timer s) as [s1|] eqn:E1; [|done].
    cbn [mbind option_bind]. intros Hs'.
    destruct (IH _ Hs') as (Hcores & Hfun & Hcs & Hcount).
    destruct (ProcessTimer_effects _ _ _ E1) as (Hg1 & Hc1 & _).
    destruct (same_fields_counters timer s)
      as (_ & _ & _ & _ & Hfun0 & Hcs0 & Hcount0).
    rewrite <- Hg1 in Hfun0, Hcs0, Hcount0. split_and!.
    + rewrite Hcores, Hc1. unfold core_processors.
      destruct (decide (m_Type timer = CORE_ACTIVITY)).
      * rewrite filter_cons_True by done. set_solver.
      * rewrite filter_cons_False by done. set_solver.
    + congruence.
    + rewrite Hcs, Hcs0, <- orb_assoc. f_equal.
      destruct (decide (m_Type timer = CORE_ACTIVITY)) as [Hcore|Hcore].
      * rewrite (bool_decide_eq_true_2 _ Hcore). simpl. symmetry.
        apply bool_decide_eq_true_2. by left.
      * rewrite (bool_decide_eq_false_2 _ Hcore). simpl.
        apply bool_decide_ext. rewrite Exists_cons. tauto.
    + intros addr. rewrite Hcount, Hcount0. unfold counted_calls.
      assert (∀ t, counted_call (globals s1) addr t
                   ↔ counted_call (globals s) addr t) as Hsame.
      { intros t. unfold counted_call. by rewrite Hfun0. }
      rewrite (list_filter_iff _ _ _ Hsame).
      destruct (decide (counted_call (globals s) addr timer)) as [Hcall|Hcall].
      * rewrite filter_cons_True by done. cbn [length].
        rewrite counter64_after_S. destruct Hcall as (<- & ? & ?).
        rewrite decide_True by done. unfold increment64.
        by rewrite lookup_insert_eq.
      * rewrite filter_cons_False by done.
        destruct (decide (counted_call (globals s) (m_FunctionAddress timer)
                            timer)) as [Hown|Hown]; [|done].
        unfold increment64. rewrite lookup_insert_ne; [done|].
        intros Heq. apply Hcall. by rewrite <- Heq.
Qed.

End MoreIngestion2.

(** ** More on ingestion *)

Section IngestionTheorems.
Context `{Collaborators}.

(** X1. [ProcessTimer] dereferences a null pointer in exactly one
    situation: a gpu record arrives while no string manager is set.  On a
    state that satisfies the bookkeeping invariant it fails if and only if
    the record is of type [GPU_ACTIVITY] and [string_manager_] is null;
    records of every other type are ingested without a string manager, and
    whenever it returns the bookkeeping invariant holds again. *)
Theorem ProcessTimer_fails_only_without_string_manager a_Timer s :
  State_ok s →
  (ProcessTimer a_Timer s = None
   ↔ m_Type a_Timer = GPU_ACTIVITY ∧ string_manager_ s = None)
  ∧ ∀ s', ProcessTimer a_Timer s = Some s' → State_ok s'.
Proof.
  intros Hok.
  destruct (decide (m_Type a_Timer = GPU_ACTIVITY ∧ string_manager_ s = None))
    as [[Hgpu Hnone]|Hfine].
  - rewrite ProcessTimer_gpu_needs_strings by done. by split.
  - destruct (ProcessTimer_routes a_Timer s Hok) as (s' & p & Hs' & Hev & _).
    { intros Hgpu. destruct (string_manager_ s) eqn:E; [by eexists|].
      by destruct Hfine. }
    rewrite Hs'. split.
    + split; [done|]. by intros ?%Hfine.
    + intros ? [= <-]. by apply (ev_ok _ _ Hev).
Qed.

(** X2. [ProcessTimer] appends the record to one track, chosen by the type
    of the record, and to no other.  On a state that satisfies the
    bookkeeping invariant, when it returns: a [GPU_ACTIVITY] record is the
    new last record of the gpu track of the timeline hash in its second
    user-data slot, a [CORE_ACTIVITY] record of the scheduler track, a
    record of any other type of the thread track of its thread id; the
    records of every other track are as before.  A record that is not a
    gpu record leaves a thread track for its thread id behind, also when it
    is a context switch that went to the scheduler track. *)
Theorem ProcessTimer_appends_to_one_track a_Timer s s' :
  State_ok s → ProcessTimer a_Timer s = Some s' →
  ∃ p,
    receiving_track a_Timer s' = Some p
    ∧ (∀ q, track_boxes s' q
            = if decide (q = p)
              then track_boxes s q ++ [{| GetTimer := a_Timer |}]
              else track_boxes s q)
    ∧ (m_Type a_Timer ≠ GPU_ACTIVITY →
       is_Some (thread_tracks_ s' !! m_TID a_Timer)).
Proof.
  intros Hok Hs'.
  destruct (ProcessTimer_routes a_Timer s Hok)
    as (s'' & p & Hs'' & _ & Hp & Hboxes & Hthread).
  { intros Hgpu. destruct (string_manager_ s) eqn:E; [by eexists|].
    by rewrite ProcessTimer_gpu_needs_strings in Hs'. }
  assert (s'' = s') as -> by congruence.
  by exists p.
Qed.

(** X3. The cores the graph has seen are the processors of the context
    switches it ingested.  After a sequence of records, [cores_seen_] has
    gained exactly the processors of the [CORE_ACTIVITY] records, so
    [GetNumCores] is the number of distinct such processors (as a
    [uint32_t]) when the graph was fresh or cleared; and
    [Capture::GHasContextSwitches] is set if and only if it was set before
    or a [CORE_ACTIVITY] record was among them. *)
Theorem GetNumCores_counts_context_switch_processors timers s s' :
  ProcessTimers timers s = Some s' →
  cores_seen_ s' = cores_seen_ s ∪ core_processors timers
  ∧ (cores_seen_ s = ∅ →
     GetNumCores s' = wrap32 (N.of_nat (size (core_processors timers))))
  ∧ GHasContextSwitches (globals s')
    = GHasContextSwitches (globals s)
      || bool_decide (Exists (λ t, m_Type t = CORE_ACTIVITY) timers).
Proof.
  intros Hs'.
  destruct (ProcessTimers_effects timers s s' Hs') as (Hcores & _ & Hcs & _).
  split_and!; [done| |done].
  intros Hempty. unfold GetNumCores. rewrite Hcores, Hempty.
  by rewrite (left_id_L ∅ (∪)).
Qed.

(** X4. The per-function hit counters count the records of resolved
    functions.  After a sequence of records the counter of an address in
    [Capture::GFunctionCountMap] has been incremented once per record that
    carries this address, provided the address is not [0] and the target
    process resolves it to a function; the counter of any other address is
    untouched (an address without such a record has no counter unless it
    had one before).  The counter is a [uint64_t]. *)
Theorem GFunctionCountMap_counts_resolved_calls timers s s' addr :
  ProcessTimers timers s = Some s' →
  GFunctionCountMap (globals s') !! addr
  = counter64_after (counted_calls (globals s) timers addr)
      (GFunctionCountMap (globals s) !! addr)
  ∧ GTargetProcess_functions (globals s')
    = GTargetProcess_functions (globals s).
Proof.
  intros Hs'.
  destruct (ProcessTimers_effects timers s s' Hs') as (_ & Hfun & _ & Hcount).
  by split.
Qed.

End IngestionTheorems.

(** ** The capture range and the window *)

Section CaptureRangeProofs.
Context `{Collaborators}.

Lemma UpdateCaptureMinMaxTimestamps_fold s tracks m :
  Forall (λ p, p < length (objects s))%nat tracks →
  foldl (λ acc track,
           s ← acc; t ← objects s !! track;
           if 0 <? Track_GetNumTimers t then
             let min := Track_GetMinTime t in
             if (0 <? min) && (min <? capture_min_timestamp_ s)
             then Some (set_capture_min_timestamp_ min s)
             else Some s
           else Some s)
        (Some (set_capture_min_timestamp_ m s)) tracks
  = Some (set_capture_min_timestamp_
            (foldl N.min m (omap (track_min_time s) tracks)) s).
Proof.
  intros Hvalid. set (step := λ (acc : option State) (track : ptr), _).
  revert m. induction Hvalid as [|p tracks Hp _ IH]; intros m; [done|].
  destruct (lookup_lt_is_Some_2 (objects s) p Hp) as [t Ht].
  assert (omap (track_min_time s) (p :: tracks)
          = (if (0 <? Track_GetNumTimers t) && (0 <? Track_GetMinTime t)
             then [Track_GetMinTime t] else [])
            ++ omap (track_min_time s) tracks) as ->.
  { cbn [omap list_omap]. unfold track_min_time at 1. rewrite Ht.
    cbn [mbind option_bind].
    by destruct ((0 <? Track_GetNumTimers t) && (0 <? Track_GetMinTime t)). }
  rewrite foldl_app. cbn [foldl].
  assert (step (Some (set_capture_min_timestamp_ m s)) p
          = Some (set_capture_min_timestamp_
                    (foldl N.min m
                       (if (0 <? Track_GetNumTimers t)
                           && (0 <? Track_GetMinTime t)
                        then [Track_GetMinTime t] else [])) s)) as ->.
  { unfold step. cbn [mbind option_bind objects set_capture_min_timestamp_].
    rewrite Ht. cbn [mbind option_bind].
    destruct (0 <? Track_GetNumTimers t); cbn [andb]; [|done].
    cbv zeta. cbn [capture_min_timestamp_ set_capture_min_timestamp_].
    destruct (N.ltb_spec 0 (Track_GetMinTime t)); cbn [andb foldl]; [|done].
    destruct (N.ltb_spec (Track_GetMinTime t) m).
    - replace (N.min m (Track_GetMinTime t)) with (Track_GetMinTime t) by lia.
      done.
    - replace (N.min m (Track_GetMinTime t)) with m by lia. done. }
  apply IH.
Qed.

End CaptureRangeProofs.

Section CaptureRangeProofs2.
Context `{Collaborators}.

Lemma UpdateCaptureMinMaxTimestamps_range s :
  State_ok s →
  UpdateCaptureMinMaxTimestamps s
  = Some (negb (capture_min_of s =? UINT64_MAX),
          set_capture_max_timestamp_ (capture_max_of s)
            (set_capture_min_timestamp_ (capture_min_of s) s)).
Proof.
  intros (_ & Hvalid & _). unfold UpdateCaptureMinMaxTimestamps. cbv zeta.
  pose proof (UpdateCaptureMinMaxTimestamps_fold s (tracks_ s) UINT64_MAX
                Hvalid) as Hfold.
  change (tracks_ (set_capture_min_timestamp_ UINT64_MAX s)) with (tracks_ s).
  cbv zeta in Hfold. rewrite Hfold. cbn [mbind option_bind].
  unfold capture_min_of, capture_max_of. cbv zeta.
  cbn [globals set_capture_min_timestamp_].
  by destruct (EventBuffer_HasEvent (GEventBuffer (globals s))).
Qed.

End CaptureRangeProofs2.

Lemma lt_irrefl x : Fp.lt x x = false.
Proof. apply gt_irrefl. Qed.

Lemma std_max_zero_not_negative a :
  Fp.lt (Fp.std_max a Fp.zero) Fp.zero = false.
Proof.
  unfold Fp.std_max. destruct (Fp.lt a Fp.zero) eqn:E; [done|by rewrite E].
Qed.

Lemma std_min_not_above x span : Fp.lt span (Fp.std_min x span) = false.
Proof.
  unfold Fp.std_min. destruct (Fp.lt span x) eqn:E; [|by rewrite E].
  apply lt_irrefl.
Qed.

Section CaptureRangeProofs3.
Context `{Collaborators}.

Lemma capture_range_frame s s' :
  objects s' = objects s → tracks_ s' = tracks_ s → globals s' = globals s →
  capture_min_of s' = capture_min_of s
  ∧ (capture_max_timestamp_ s' = capture_max_timestamp_ s →
     capture_max_of s' = capture_max_of s).
Proof.
  intros Ho Ht Hg. unfold capture_min_of, capture_max_of, track_min_time.
  rewrite Ho, Ht, Hg. split; [done|]. by intros ->.
Qed.

Lemma capture_max_of_ge s : capture_max_timestamp_ s ≤ capture_max_of s.
Proof.
  unfold capture_max_of. cbv zeta.
  destruct (EventBuffer_HasEvent _); lia.
Qed.

(** After the update the two timestamps are settled: a second update
    changes nothing. *)
Lemma capture_range_settles s :
  capture_range_settled
    (set_capture_max_timestamp_ (capture_max_of s)
       (set_capture_min_timestamp_ (capture_min_of s) s)).
Proof.
  unfold capture_range_settled, capture_min_of, capture_max_of. cbv zeta.
  cbn. split; [done|]. destruct (EventBuffer_HasEvent _); lia.
Qed.

Lemma UpdateCaptureMinMaxTimestamps_settled s :
  State_ok s → capture_range_settled s →
  UpdateCaptureMinMaxTimestamps s
  = Some (negb (capture_min_of s =? UINT64_MAX), s).
Proof.
  intros Hok [Hmin Hmax]. rewrite UpdateCaptureMinMaxTimestamps_range by done.
  rewrite <- Hmin, <- Hmax. done.
Qed.

Lemma GetCaptureTimeSpanUs_range s :
  State_ok s →
  GetCaptureTimeSpanUs s
  = Some (capture_span_of s,
          set_capture_max_timestamp_ (capture_max_of s)
            (set_capture_min_timestamp_ (capture_min_of s) s)).
Proof.
  intros Hok. unfold GetCaptureTimeSpanUs, capture_span_of.
  rewrite UpdateCaptureMinMaxTimestamps_range by done.
  cbn [mbind option_bind]. by destruct (capture_min_of s =? UINT64_MAX).
Qed.

Lemma GetCaptureTimeSpanUs_settled s :
  State_ok s → capture_range_settled s →
  GetCaptureTimeSpanUs s = Some (capture_span_of s, s).
Proof.
  intros Hok [Hmin Hmax]. rewrite GetCaptureTimeSpanUs_range by done.
  rewrite <- Hmin, <- Hmax. done.
Qed.

Lemma settled_frame s s' :
  objects s' = objects s → tracks_ s' = tracks_ s → globals s' = globals s →
  capture_min_timestamp_ s' = capture_min_timestamp_ s →
  capture_max_timestamp_ s' = capture_max_timestamp_ s →
  capture_range_settled s → capture_range_settled s'.
Proof.
  intros Ho Ht Hg Hmin Hmax [Hs1 Hs2].
  destruct (capture_range_frame s s' Ho Ht Hg) as [Hmin' Hmax'].
  split; [congruence|]. rewrite Hmax' by done. congruence.
Qed.

Lemma capture_span_frame s s' :
  objects s' = objects s → tracks_ s' = tracks_ s → globals s' = globals s →
  capture_max_timestamp_ s' = capture_max_timestamp_ s →
  capture_span_of s' = capture_span_of s.
Proof.
  intros Ho Ht Hg Hmax. unfold capture_span_of.
  destruct (capture_range_frame s s' Ho Ht Hg) as [-> Hmax'].
  by rewrite Hmax'.
Qed.

(** [SetMinMax] in closed form. *)
Lemma SetMinMax_range a_MinTimeUs a_MaxTimeUs s :
  State_ok s →
  ∃ s', SetMinMax a_MinTimeUs a_MaxTimeUs s = Some s'
        ∧ evolves s s'
        ∧ same_fields
            (NeedsUpdate
               (set_view (view s')
                  (set_capture_max_timestamp_ (capture_max_of s)
                     (set_capture_min_timestamp_ (capture_min_of s) s)))) s'
        ∧ objects s' = objects s ∧ tracks_ s' = tracks_ s
        ∧ m_MinTimeUs (view s') = Fp.std_max a_MinTimeUs Fp.zero
        ∧ m_MaxTimeUs (view s')
          = Fp.std_min
              (Fp.dadd (Fp.std_max a_MinTimeUs Fp.zero)
                       (Fp.dsub a_MaxTimeUs a_MinTimeUs))
              (capture_span_of s)
        ∧ capture_span_of s' = capture_span_of s
        ∧ capture_range_settled s'
        ∧ NeedsUpdate s' = s'
        ∧ window_within_capture s'.
Proof.
  intros Hok. unfold SetMinMax. cbv zeta.
  set (s0 := update_view _ s).
  assert (State_ok s0) as Hok0 by by eapply State_ok_frame.
  rewrite (GetCaptureTimeSpanUs_range s0 Hok0). cbn [mbind option_bind].
  destruct (capture_range_frame s s0) as [Hmin0 Hmax0]; [done..|].
  specialize (Hmax0 eq_refl).
  assert (capture_span_of s0 = capture_span_of s) as Hspan0
    by by apply capture_span_frame.
  rewrite Hmin0, Hmax0, Hspan0.
  eexists. split; [done|].
  pose proof (capture_max_of_ge s) as Hge.
  pose proof (capture_range_settles s) as Hset.
  match goal with |- evolves s ?x ∧ _ => set (s' := x) end.
  assert (capture_range_settled s') as Hset'.
  { revert Hset. by apply settled_frame. }
  assert (capture_span_of s' = capture_span_of s) as Hspan'.
  { unfold capture_span_of.
    destruct (capture_range_frame s s') as [-> _]; [done..|].
    destruct Hset' as [_ <-]. done. }
  assert (State_ok s') as Hok' by by eapply State_ok_frame.
  split_and!; try done. split.
  - apply std_max_zero_not_negative.
  - exists (capture_span_of s'). split.
    + by apply GetCaptureTimeSpanUs_settled.
    + rewrite Hspan'. apply std_min_not_above.
Qed.

End CaptureRangeProofs3.

Lemma lt_zero_negative x : Fp.lt x Fp.zero = is_negative x.
Proof. by destruct x as [[]|[]| |[] ? ?]. Qed.

Lemma binary_round_aux_sign prec emax m e l :
  is_negative (binary_round_aux prec emax false m e l) = false.
Proof.
  unfold binary_round_aux.
  destruct (shr_fexp prec emax m e l) as [mrs' e'].
  destruct (shr_fexp prec emax _ e' loc_Exact) as [mrs'' e''].
  destruct (shr_m mrs''); [done| |done].
  by destruct (e'' <=? emax - prec)%Z.
Qed.

Lemma binary_round_sign prec emax m e :
  is_negative (binary_round prec emax false m e) = false.
Proof.
  unfold binary_round. destruct (shl_align _ _ _) as [mz ez].
  apply binary_round_aux_sign.
Qed.

Lemma renorm_sign prec emax x :
  is_negative x = false → is_negative (Fp.renorm prec emax x) = false.
Proof.
  destruct x as [[]|[]| |[] m e]; try done. intros _. simpl.
  apply binary_round_sign.
Qed.

Lemma dmul_sign x y :
  is_negative x = false → is_negative y = false →
  is_negative (Fp.dmul x y) = false.
Proof.
  destruct x as [[]|[]| |[] mx ex], y as [[]|[]| |[] my ey]; try done.
  intros _ _. apply binary_round_aux_sign.
Qed.

Lemma foldl_min_least (m : N) (l : list N) :
  foldl N.min m l ≤ m
  ∧ (∀ x, x ∈ l → foldl N.min m l ≤ x)
  ∧ (foldl N.min m l = m ∨ foldl N.min m l ∈ l).
Proof.
  revert m. induction l as [|y l IH]; intros m; simpl.
  - split_and!; [done|by intros ? ?%elem_of_nil|by left].
  - destruct (IH (N.min m y)) as (Hle & Hall & Hat). split_and!.
    + lia.
    + intros x [->|Hx]%elem_of_cons; [lia|by apply Hall].
    + destruct Hat as [Hat|Hat]; [|right; set_solver].
      destruct (N.min_spec m y) as [[_ Hm]|[_ Hm]]; rewrite Hm in *.
      * by left.
      * right. rewrite Hat. set_solver.
Qed.

Section ViewportTheorems.
Context `{Collaborators}.

(** X5. [UpdateCaptureMinMaxTimestamps] recomputes the minimum timestamp
    from scratch and never lowers the maximum: on a state that satisfies
    the bookkeeping invariant it returns, the new minimum is the least of
    [2^64 - 1], the minimum start times of the tracks that hold a timer
    and whose minimum is not [0], and the event buffer's minimum time when
    the buffer has events; the maximum is raised to the buffer's maximum
    time when the buffer has events; nothing else is written; the result
    tells whether the minimum differs from [2^64 - 1]; and a second call
    right after changes nothing. *)
Theorem UpdateCaptureMinMaxTimestamps_recomputes s :
  State_ok s →
  ∃ s', UpdateCaptureMinMaxTimestamps s
        = Some (negb (capture_min_timestamp_ s' =? UINT64_MAX), s')
    ∧ s' = set_capture_max_timestamp_ (capture_max_of s)
             (set_capture_min_timestamp_ (capture_min_of s) s)
    ∧ UpdateCaptureMinMaxTimestamps s'
      = Some (negb (capture_min_timestamp_ s' =? UINT64_MAX), s')
    ∧ capture_max_timestamp_ s ≤ capture_max_timestamp_ s'
    ∧ capture_min_timestamp_ s' ≤ UINT64_MAX
    ∧ (∀ p v, p ∈ tracks_ s → track_min_time s p = Some v →
              capture_min_timestamp_ s' ≤ v)
    ∧ (EventBuffer_HasEvent (GEventBuffer (globals s)) = true →
       capture_min_timestamp_ s' ≤ m_MinTime (GEventBuffer (globals s)))
    ∧ (capture_min_timestamp_ s' = UINT64_MAX
       ∨ (∃ p, p ∈ tracks_ s
               ∧ track_min_time s p = Some (capture_min_timestamp_ s'))
       ∨ (EventBuffer_HasEvent (GEventBuffer (globals s)) = true
          ∧ capture_min_timestamp_ s' = m_MinTime (GEventBuffer (globals s)))).
Proof.
  intros Hok. eexists. split_and!; [|reflexivity|..].
  - by apply UpdateCaptureMinMaxTimestamps_range.
  - rewrite UpdateCaptureMinMaxTimestamps_settled;
      [|by eapply State_ok_frame|apply capture_range_settles].
    by rewrite <- (proj1 (capture_range_settles s)).
  - apply capture_max_of_ge.
  - cbn. unfold capture_min_of. cbv zeta.
    destruct (foldl_min_least UINT64_MAX
                (omap (track_min_time s) (tracks_ s))) as (Hle & _).
    destruct (EventBuffer_HasEvent _); lia.
  - intros p v Hp Hv. cbn. unfold capture_min_of. cbv zeta.
    destruct (foldl_min_least UINT64_MAX
                (omap (track_min_time s) (tracks_ s))) as (_ & Hall & _).
    assert (v ∈ omap (track_min_time s) (tracks_ s)) as Hin
      by (apply list_elem_of_omap; eauto).
    apply Hall in Hin. destruct (EventBuffer_HasEvent _); lia.
  - intros Hev. cbn. unfold capture_min_of. cbv zeta. rewrite Hev. lia.
  - cbn. unfold capture_min_of. cbv zeta.
    destruct (foldl_min_least UINT64_MAX
                (omap (track_min_time s) (tracks_ s))) as (_ & _ & Hat).
    assert (∀ v, v ∈ omap (track_min_time s) (tracks_ s) →
                 ∃ p, p ∈ tracks_ s ∧ track_min_time s p = Some v) as Hfrom.
    { intros v (p & Hp & Hv)%list_elem_of_omap. eauto. }
    destruct (EventBuffer_HasEvent _) eqn:Hev.
    + destruct (N.min_spec
                  (foldl N.min UINT64_MAX (omap (track_min_time s) (tracks_ s)))
                  (m_MinTime (GEventBuffer (globals s))))
        as [[_ ->]|[_ ->]]; [|by right; right].
      destruct Hat as [->|Hat]; [by left|]. right. left.
      by apply Hfrom.
    + destruct Hat as [->|Hat]; [by left|]. right. left. by apply Hfrom.
Qed.

Lemma Zoom_range min max s :
  State_ok s →
  ∃ s', Zoom min max s = Some s' ∧ evolves s s' ∧ window_within_capture s'.
Proof.
  intros Hok. unfold Zoom. cbv zeta.
  destruct (SetMinMax_range
              (Fp.dsub
                 (Fp.dadd (MicroSecondsFromTicks (capture_min_timestamp_ s) min)
                    (Fp.ddiv
                       (Fp.dsub
                          (MicroSecondsFromTicks (capture_min_timestamp_ s) max)
                          (MicroSecondsFromTicks (capture_min_timestamp_ s) min))
                       d_2))
                 (Fp.ddiv
                    (Fp.dmul d_1_1
                       (Fp.dsub
                          (MicroSecondsFromTicks (capture_min_timestamp_ s) max)
                          (MicroSecondsFromTicks (capture_min_timestamp_ s) min)))
                    d_2))
              (Fp.dadd
                 (Fp.dadd (MicroSecondsFromTicks (capture_min_timestamp_ s) min)
                    (Fp.ddiv
                       (Fp.dsub
                          (MicroSecondsFromTicks (capture_min_timestamp_ s) max)
                          (MicroSecondsFromTicks (capture_min_timestamp_ s) min))
                       d_2))
                 (Fp.ddiv
                    (Fp.dmul d_1_1
                       (Fp.dsub
                          (MicroSecondsFromTicks (capture_min_timestamp_ s) max)
                          (MicroSecondsFromTicks (capture_min_timestamp_ s) min)))
                    d_2))
              s Hok) as (s' & Hs' & Hev & _ & _ & _ & _ & _ & _ & _ & _ & Hin).
  by exists s'.
Qed.

Lemma HorizontallyMoveIntoView_range text_box distance s :
  State_ok s →
  ∃ s', HorizontallyMoveIntoView text_box distance s = Some s'
        ∧ evolves s s'
        ∧ if IsVisible (GetTimer text_box) s
          then s' = s
          else window_within_capture s'.
Proof.
  intros Hok. unfold HorizontallyMoveIntoView. cbv zeta.
  destruct (IsVisible (GetTimer text_box) s).
  { exists s. split_and!; [done|apply evolves_refl|done]. }
  match goal with
  | |- context [SetMinMax ?a ?b s] =>
      destruct (SetMinMax_range a b s Hok)
        as (s' & -> & Hev & _ & _ & _ & _ & _ & _ & _ & Hflags & Hin)
  end.
  cbn [mbind option_bind]. rewrite Hflags. by exists s'.
Qed.

Lemma ZoomTime_range a_ZoomValue a_MouseRatio s :
  State_ok s →
  ∃ s', ZoomTime a_ZoomValue a_MouseRatio s = Some s'
        ∧ evolves s s'
        ∧ (zoom_rejected a_ZoomValue a_MouseRatio (view s) = false →
           window_within_capture s').
Proof.
  intros Hok. unfold ZoomTime. cbv zeta.
  destruct (zoom_bounds a_ZoomValue a_MouseRatio (view s))
    as [minTimeUs maxTimeUs].
  destruct (zoom_rejected a_ZoomValue a_MouseRatio (view s)).
  { eexists. split_and!; [done| |done]. by apply evolves_fields. }
  match goal with
  | |- context [SetMinMax ?a ?b ?s0] =>
      assert (State_ok s0) as Hok0 by (by eapply State_ok_frame);
      destruct (SetMinMax_range a b s0 Hok0)
        as (s' & -> & Hev & _ & _ & _ & _ & _ & _ & _ & _ & Hin);
      assert (evolves s s0) as Hev0 by (by apply evolves_fields)
  end.
  exists s'. split_and!; [done|by eapply evolves_trans|done].
Qed.

(** X6. Every operation that moves the window through [SetMinMax] leaves
    it inside the capture: on a state that satisfies the bookkeeping
    invariant, [SetMinMax], both [Zoom] overloads, [ZoomTime] when it does
    not reject the zoom, and [HorizontallyMoveIntoView] for a record that
    is not visible all return, and afterwards the window does not start
    before [0] and does not end after the capture's time span
    ([GetCaptureTimeSpanUs], which then changes nothing).
    [HorizontallyMoveIntoView] leaves the state alone when the record is
    visible. *)
Theorem window_stays_within_capture s :
  State_ok s →
  (∀ a_MinTimeUs a_MaxTimeUs,
     ∃ s', SetMinMax a_MinTimeUs a_MaxTimeUs s = Some s'
           ∧ window_within_capture s')
  ∧ (∀ min max, ∃ s', Zoom min max s = Some s' ∧ window_within_capture s')
  ∧ (∀ a_TextBox,
       ∃ s', Zoom_TextBox a_TextBox s = Some s' ∧ window_within_capture s')
  ∧ (∀ a_ZoomValue a_MouseRatio,
       ∃ s', ZoomTime a_ZoomValue a_MouseRatio s = Some s'
             ∧ (zoom_rejected a_ZoomValue a_MouseRatio (view s) = false →
                window_within_capture s'))
  ∧ (∀ text_box distance,
       ∃ s', HorizontallyMoveIntoView text_box distance s = Some s'
             ∧ if IsVisible (GetTimer text_box) s
               then s' = s
               else window_within_capture s').
Proof.
  intros Hok. split_and!.
  - intros a b.
    destruct (SetMinMax_range a b s Hok)
      as (s' & -> & _ & _ & _ & _ & _ & _ & _ & _ & _ & Hin).
    by exists s'.
  - intros min max. destruct (Zoom_range min max s Hok) as (s' & ? & _ & ?).
    by exists s'.
  - intros box. unfold Zoom_TextBox. cbv zeta.
    destruct (Zoom_range (m_Start (GetTimer box)) (m_End (GetTimer box)) s Hok)
      as (s' & ? & _ & ?).
    by exists s'.
  - intros z r. destruct (ZoomTime_range z r s Hok) as (s' & ? & _ & ?).
    by exists s'.
  - intros box d.
    destruct (HorizontallyMoveIntoView_range box d s Hok) as (s' & ? & _ & ?).
    by exists s'.
Qed.

Lemma ZoomAll_range GNumHistorySeconds s :
  State_ok s →
  ∃ s', ZoomAll GNumHistorySeconds s = Some s'
    ∧ evolves s s'
    ∧ if capture_min_of s =? UINT64_MAX
      then s' = set_capture_max_timestamp_ (capture_max_of s)
                  (set_capture_min_timestamp_ (capture_min_of s) s)
      else m_MaxTimeUs (view s') = capture_span_of s
           ∧ (m_MinTimeUs (view s') = Fp.zero
              ∨ m_MinTimeUs (view s')
                = Fp.dsub (capture_span_of s)
                    (Fp.dmul (Fp.dmul GNumHistorySeconds Fp.d_1000)
                       Fp.d_1000))
           ∧ Fp.lt (m_MinTimeUs (view s')) Fp.zero = false
           ∧ GetCaptureTimeSpanUs s' = Some (m_MaxTimeUs (view s'), s')
           ∧ m_NeedsUpdatePrimitives s' = true ∧ m_NeedsRedraw s' = true.
Proof.
  intros Hok. unfold ZoomAll.
  rewrite UpdateCaptureMinMaxTimestamps_range by done.
  cbn [mbind option_bind].
  pose proof (capture_max_of_ge s) as Hge.
  pose proof (capture_range_settles s) as Hset.
  unfold capture_span_of.
  destruct (capture_min_of s =? UINT64_MAX) eqn:Emin; cbn [negb].
  { eexists. split_and!; [done| |done]. by apply evolves_fields. }
  cbv zeta.
  cbn [view update_view set_view capture_min_timestamp_
       capture_max_timestamp_ set_capture_max_timestamp_
       set_capture_min_timestamp_ m_MaxTimeUs m_MinTimeUs set_m_MaxTimeUs
       set_m_MinTimeUs].
  set (span := MicroSecondsFromTicks (capture_min_of s) (capture_max_of s)).
  set (low := Fp.dsub span _).
  assert (∀ s', State_ok s' → capture_range_settled s' →
                objects s' = objects s → tracks_ s' = tracks_ s →
                globals s' = globals s →
                capture_max_timestamp_ s' = capture_max_of s →
                m_MaxTimeUs (view s') = span →
                GetCaptureTimeSpanUs s' = Some (m_MaxTimeUs (view s'), s'))
    as Hspan.
  { intros s' Hok' Hset' Ho Ht Hg Hmax ->.
    rewrite GetCaptureTimeSpanUs_settled by done. unfold capture_span_of.
    destruct (capture_range_frame s s' Ho Ht Hg) as [-> _].
    rewrite Emin. destruct Hset' as [_ <-]. by rewrite Hmax. }
  destruct (Fp.lt low Fp.zero) eqn:Elow.
  - eexists. split_and!; [done|by apply evolves_fields|done|by left|done| |done..].
    apply Hspan; try done; try (by eapply State_ok_frame);
      revert Hset; by apply settled_frame.
  - eexists. split_and!; [done|by apply evolves_fields|done|by right|done| |done..].
    apply Hspan; try done; try (by eapply State_ok_frame);
      revert Hset; by apply settled_frame.
Qed.


Lemma OnDrag_range a_Ratio s :
  State_ok s →
  ∃ s', OnDrag a_Ratio s = Some s'
    ∧ evolves s s'
    ∧ m_MinTimeUs (view s')
      = Fp.dmul (Fp.to_double a_Ratio)
          (Fp.dsub (capture_span_of s) (GetCurrentTimeSpanUs s))
    ∧ m_MaxTimeUs (view s')
      = Fp.dadd (m_MinTimeUs (view s')) (GetCurrentTimeSpanUs s)
    ∧ m_NeedsUpdatePrimitives s' = m_NeedsUpdatePrimitives s
    ∧ m_NeedsRedraw s' = m_NeedsRedraw s.
Proof.
  intros Hok. unfold OnDrag. cbv zeta.
  rewrite GetCaptureTimeSpanUs_range by done. cbn [mbind option_bind].
  pose proof (capture_max_of_ge s) as Hge.
  eexists. split_and!; [done|by apply evolves_fields|done..].
Qed.

(** X8. [OnDrag] keeps the width of the window and does not ask for a
    redraw: on a state that satisfies the bookkeeping invariant it
    returns, the window starts at the ratio times the slack (capture time
    span minus window width) and ends one window width later, and the two
    update flags are as before.  When neither the ratio nor the slack is
    negative, the window does not start before [0]. *)
Theorem OnDrag_places_window a_Ratio s :
  State_ok s →
  ∃ s', OnDrag a_Ratio s = Some s'
    ∧ m_MinTimeUs (view s')
      = Fp.dmul (Fp.to_double a_Ratio)
          (Fp.dsub (capture_span_of s) (GetCurrentTimeSpanUs s))
    ∧ m_MaxTimeUs (view s')
      = Fp.dadd (m_MinTimeUs (view s')) (GetCurrentTimeSpanUs s)
    ∧ m_NeedsUpdatePrimitives s' = m_NeedsUpdatePrimitives s
    ∧ m_NeedsRedraw s' = m_NeedsRedraw s
    ∧ (Fp.lt a_Ratio Fp.zero = false →
       Fp.lt (Fp.dsub (capture_span_of s) (GetCurrentTimeSpanUs s)) Fp.zero
       = false →
       Fp.lt (m_MinTimeUs (view s')) Fp.zero = false).
Proof.
  intros Hok.
  destruct (OnDrag_range a_Ratio s Hok)
    as (s' & Hs' & _ & Hmin & Hmax & Hup & Hre).
  exists s'. split_and!; try done.
  rewrite Hmin, !lt_zero_negative. intros Hr Hslack.
  apply dmul_sign; [|done]. by apply renorm_sign.
Qed.

(** The world-coordinate queries built on [GetWorldFromTick] never
    divide by zero: [GetWorldFromUs] and [GetWorldMinMax] always return;
    when [m_TimeWindowUs] is not above zero every coordinate is [0];
    otherwise the coordinate of a tick is the world start plus
    [GetUsFromTick] of the tick, divided by the window width and multiplied
    by the world width. *)
Theorem world_queries_never_divide_by_zero s :
  (∀ a_Micros, is_Some (GetWorldFromUs a_Micros s))
  ∧ is_Some (GetWorldMinMax s)
  ∧ (Fp.gt (m_TimeWindowUs (view s)) Fp.zero = false →
     (∀ a_Micros, GetWorldFromUs a_Micros s = Some Fp.zero)
     ∧ GetWorldMinMax s = Some (Fp.zero, Fp.zero))
  ∧ (Fp.gt (m_TimeWindowUs (view s)) Fp.zero = true →
     ∀ a_Time,
       GetWorldFromTick a_Time s
       = Some (Fp.to_float
                 (Fp.dadd (Fp.to_double (m_WorldStartX (view s)))
                    (Fp.dmul
                       (Fp.ddiv (GetUsFromTick a_Time s)
                          (m_TimeWindowUs (view s)))
                       (Fp.to_double (m_WorldWidth (view s))))))).
Proof.
  assert (∀ a_Time, is_Some (GetWorldFromTick a_Time s)) as Htotal.
  { intros t. unfold GetWorldFromTick, Fp.checked_div. cbv zeta.
    destruct (Fp.gt (m_TimeWindowUs (view s)) Fp.zero) eqn:E; [|by eexists].
    rewrite (positive_not_zero _ E). by eexists. }
  assert (Fp.gt (m_TimeWindowUs (view s)) Fp.zero = false →
          ∀ a_Time, GetWorldFromTick a_Time s = Some Fp.zero) as Hzero.
  { intros E t. unfold GetWorldFromTick. cbv zeta. by rewrite E. }
  split_and!.
  - intros us. apply Htotal.
  - unfold GetWorldMinMax.
    destruct (Htotal (capture_min_timestamp_ s)) as [a ->].
    destruct (Htotal (capture_max_timestamp_ s)) as [b ->]. by eexists.
  - intros E. split.
    + intros us. by apply Hzero.
    + unfold GetWorldMinMax. by rewrite !Hzero.
  - intros E t. unfold GetWorldFromTick, Fp.checked_div, GetUsFromTick.
    cbv zeta. rewrite E. by rewrite (positive_not_zero _ E).
Qed.

End ViewportTheorems.

(** ** Chains, navigation round trips and selections *)

Lemma track_size_boxes s p : track_size s p = length (track_boxes s p).
Proof. unfold track_size, track_boxes. by destruct (objects s !! p). Qed.

Lemma length_bind_sum {A B} (f : A → list B) (l : list A) :
  length (l ≫= f) = sum_list_with (λ x, length (f x)) l.
Proof.
  induction l as [|x l IH]; [done|].
  cbn [mbind list_bind sum_list_with]. rewrite length_app.
  by rewrite <- IH.
Qed.

Lemma collected_chains s tracks chains :
  Forall (λ p, p < length (objects s))%nat tracks →
  ∃ more,
    foldl (λ acc track,
             chains ← acc; t ← objects s !! track;
             Some (chains ++ Track_GetAllChains t))
          (Some chains) tracks = Some (chains ++ more)
    ∧ chains_boxes more = tracks ≫= track_boxes s
    ∧ Forall is_Some more.
Proof.
  intros Hvalid. revert chains.
  induction Hvalid as [|p tracks Hp _ IH]; intros chains.
  - exists []. by rewrite app_nil_r.
  - destruct (lookup_lt_is_Some_2 (objects s) p Hp) as [t Ht].
    cbn [foldl]. rewrite Ht. cbn [mbind option_bind].
    destruct (IH (chains ++ Track_GetAllChains t))
      as (more & -> & Hboxes & Hsome).
    exists (Track_GetAllChains t ++ more). rewrite (assoc_L (++)).
    split_and!; [done| |].
    + unfold chains_boxes in *. rewrite bind_app, Hboxes.
      cbn [mbind list_bind]. f_equal. unfold track_boxes. rewrite Ht.
      simpl. by rewrite app_nil_r.
    + apply Forall_app. split; [|done]. by repeat constructor.
Qed.

(** X10. [GetAllTimerChains] hands out the chain of every track of
    [tracks_], none of them null: on a state that satisfies the
    bookkeeping invariant it returns, the records of the chains are the
    records of the tracks in the order of [tracks_], their number modulo
    [2^32] is what [GetNumTimers] returns, and every record that the
    same-function searches can reach (a record of a thread track) is among
    them. *)
Theorem GetAllTimerChains_holds_every_record s :
  State_ok s →
  ∃ chains,
    GetAllTimerChains s = Some chains
    ∧ Forall is_Some chains
    ∧ chains_boxes chains = tracks_ s ≫= track_boxes s
    ∧ GetNumTimers s
      = Some (wrap32 (N.of_nat (length (chains_boxes chains))))
    ∧ ∀ box, thread_track_box s box → box ∈ chains_boxes chains.
Proof.
  intros Hok. pose proof Hok as (_ & Hvalid & _ & _ & _ & Hth & _).
  destruct (collected_chains s (tracks_ s) [] Hvalid)
    as (chains & Hc & Hboxes & Hsome).
  exists chains. split_and!; [done..| |].
  - rewrite GetNumTimers_total by done. do 3 f_equal.
    rewrite Hboxes, length_bind_sum. unfold total_timers.
    apply sum_list_with_agree. apply Forall_forall. intros p _.
    apply track_size_boxes.
  - intros box (tid & p & t & Hp & Ht & Hbox). rewrite Hboxes.
    apply list_elem_of_bind. exists p. split.
    + unfold track_boxes. by rewrite Ht.
    + by apply (Hth tid p).
Qed.

(** The result of the backward search. *)
Lemma FindPreviousFunctionCall_closest function_address current_time s :
  State_ok s → Timers_ok s →
  ∃ previous,
    FindPreviousFunctionCall function_address current_time s = Some previous
    ∧ from_option (closest_before s function_address current_time)
        (∀ box, thread_track_box s box →
           m_FunctionAddress (GetTimer box) = function_address →
           m_End (GetTimer box) < current_time →
           m_End (GetTimer box) = 0)
        previous.
Proof.
  intros Hok Htimers.
  destruct (GetAllThreadTrackTimerChains_ok s Hok) as (chains & Hc & Hcok & Hin).
  specialize (Hcok Htimers).
  unfold FindPreviousFunctionCall. rewrite Hc.
  cbn [mbind option_bind]. eexists. split; [done|].
  destruct (previous_scan chains function_address current_time Hcok)
    as [Hchoice Hbest].
  unfold FindPreviousFunctionCall_in. unfold closest_before, candidate in *.
  destruct (foldl _ _ chains) as [[box|] time]; simpl in *.
  - destruct Hchoice as (Hbox & [Ha Hside%N.ltb_lt] & ->).
    split_and!; [by apply Hin|done..|].
    intros other Hother Hoa Hot. apply Hbest; [by apply Hin|].
    split; [done|by apply N.ltb_lt].
  - subst time. intros box Hbox Ha Hlt.
    assert (m_End (GetTimer box) ≤ 0); [|lia].
    apply Hbest; [by apply Hin|]. split; [done|by apply N.ltb_lt].
Qed.

(** The result of the forward search. *)
Lemma FindNextFunctionCall_closest function_address current_time s :
  State_ok s → Timers_ok s →
  ∃ next,
    FindNextFunctionCall function_address current_time s = Some next
    ∧ from_option (closest_after s function_address current_time)
        (∀ box, thread_track_box s box →
           m_FunctionAddress (GetTimer box) = function_address →
           current_time < m_End (GetTimer box) →
           UINT64_MAX ≤ m_End (GetTimer box))
        next.
Proof.
  intros Hok Htimers.
  destruct (GetAllThreadTrackTimerChains_ok s Hok) as (chains & Hc & Hcok & Hin).
  specialize (Hcok Htimers).
  unfold FindNextFunctionCall. rewrite Hc.
  cbn [mbind option_bind]. eexists. split; [done|].
  destruct (next_scan chains function_address current_time Hcok)
    as [Hchoice Hbest].
  unfold FindNextFunctionCall_in. unfold closest_after, candidate in *.
  destruct (foldl _ _ chains) as [[box|] time]; simpl in *.
  - destruct Hchoice as (Hbox & [Ha Hside%N.ltb_lt] & ->).
    split_and!; [by apply Hin|done..|].
    intros other Hother Hoa Hot. apply Hbest; [by apply Hin|].
    split; [done|by apply N.ltb_lt].
  - subst time. intros box Hbox Ha Hlt.
    apply Hbest; [by apply Hin|]. split; [done|by apply N.ltb_lt].
Qed.

(** X11. Jumping to the next call of the same function and back returns to
    the time of departure, and so does jumping to the previous call and
    forth.  On a state that satisfies the bookkeeping invariant and whose
    stored records are well formed, for a record [box] of a thread track:
    when [FindNextFunctionCall] from the end of [box] finds a record,
    [FindPreviousFunctionCall] from the end of that record finds a record
    of the same function that ends when [box] ends, provided [box] does
    not end at tick [0]; symmetrically for the other direction, provided
    [box] does not end at tick [2^64 - 1]. *)
Theorem same_function_jump_round_trip s box :
  State_ok s → Timers_ok s → thread_track_box s box →
  (0 < m_End (GetTimer box) →
   ∀ next,
     FindNextFunctionCall (m_FunctionAddress (GetTimer box))
       (m_End (GetTimer box)) s = Some (Some next) →
     ∃ back,
       FindPreviousFunctionCall (m_FunctionAddress (GetTimer box))
         (m_End (GetTimer next)) s = Some (Some back)
       ∧ m_FunctionAddress (GetTimer back) = m_FunctionAddress (GetTimer box)
       ∧ m_End (GetTimer back) = m_End (GetTimer box))
  ∧ (m_End (GetTimer box) < UINT64_MAX →
     ∀ previous,
       FindPreviousFunctionCall (m_FunctionAddress (GetTimer box))
         (m_End (GetTimer box)) s = Some (Some previous) →
       ∃ forth,
         FindNextFunctionCall (m_FunctionAddress (GetTimer box))
           (m_End (GetTimer previous)) s = Some (Some forth)
         ∧ m_FunctionAddress (GetTimer forth)
           = m_FunctionAddress (GetTimer box)
         ∧ m_End (GetTimer forth) = m_End (GetTimer box)).
Proof.
  intros Hok Htimers Hbox. split.
  - intros Hpos next Hnext.
    destruct (FindNextFunctionCall_closest (m_FunctionAddress (GetTimer box))
                (m_End (GetTimer box)) s Hok Htimers) as (next' & Hn & Hn').
    rewrite Hnext in Hn. simplify_eq. simpl in Hn'.
    destruct Hn' as (Hnbox & Hna & Hnt & Hnbest).
    destruct (FindPreviousFunctionCall_closest
                (m_FunctionAddress (GetTimer box)) (m_End (GetTimer next)) s
                Hok Htimers) as ([back|] & Hb & Hb'); simpl in Hb'.
    + exists back. destruct Hb' as (Hbbox & Hba & Hbt & Hbbest).
      split_and!; [done..|].
      pose proof (Hbbest box Hbox eq_refl Hnt) as Hle.
      destruct (decide (m_End (GetTimer box) < m_End (GetTimer back)))
        as [Hlt|Hge]; [|lia].
      pose proof (Hnbest back Hbbox Hba Hlt). lia.
    + pose proof (Hb' box Hbox eq_refl Hnt). lia.
  - intros Hmax previous Hprev.
    destruct (FindPreviousFunctionCall_closest
                (m_FunctionAddress (GetTimer box)) (m_End (GetTimer box)) s
                Hok Htimers) as (previous' & Hp & Hp').
    rewrite Hprev in Hp. simplify_eq. simpl in Hp'.
    destruct Hp' as (Hpbox & Hpa & Hpt & Hpbest).
    destruct (FindNextFunctionCall_closest
                (m_FunctionAddress (GetTimer box))
                (m_End (GetTimer previous)) s
                Hok Htimers) as ([forth|] & Hf & Hf'); simpl in Hf'.
    + exists forth. destruct Hf' as (Hfbox & Hfa & Hft & Hfbest).
      split_and!; [done..|].
      pose proof (Hfbest box Hbox eq_refl Hpt) as Hle.
      destruct (decide (m_End (GetTimer forth) < m_End (GetTimer box)))
        as [Hlt|Hge]; [|lia].
      pose proof (Hpbest forth Hfbox Hfa Hlt). lia.
    + pose proof (Hf' box Hbox eq_refl Hpt). lia.
Qed.

(** ** Selection *)
Lemma emplace_back_at_lookup k event m t :
  default [] (emplace_back_at k event m !! t)
  = default [] (m !! t) ++ (if decide (k = t) then [event] else []).
Proof.
  unfold emplace_back_at. destruct (decide (k = t)) as [->|Hne].
  - by rewrite lookup_insert_eq.
  - rewrite lookup_insert_ne by done. by rewrite app_nil_r.
Qed.

Lemma bucket_events_from events m t :
  default []
    (foldl (λ m event,
              emplace_back_at 0 event
                (emplace_back_at (ce_TID event) event m)) m events !! t)
  = default [] (m !! t) ++ (events ≫= selected_for t).
Proof.
  revert m. induction events as [|event events IH]; intros m.
  - simpl. by rewrite app_nil_r.
  - cbn [foldl]. rewrite IH, !emplace_back_at_lookup.
    cbn [mbind list_bind]. unfold selected_for at 2.
    rewrite <- !(assoc_L (++)). do 2 f_equal.
    destruct (decide (0 = t)), (decide (t = 0)); done.
Qed.

Lemma bucket_events_lookup events t :
  default [] (bucket_events events !! t) = events ≫= selected_for t.
Proof.
  unfold bucket_events. rewrite bucket_events_from. by rewrite lookup_empty.
Qed.

Lemma GetSelectedCallstackEvents_lookup tid s :
  (GetSelectedCallstackEvents tid s).1
  = default [] (selected_callstack_events_per_thread_ s !! tid).
Proof.
  unfold GetSelectedCallstackEvents.
  by destruct (selected_callstack_events_per_thread_ s !! tid).
Qed.

Lemma GetSelectedCallstackEvents_again tid tid' s :
  (GetSelectedCallstackEvents tid' (GetSelectedCallstackEvents tid s).2).1
  = (GetSelectedCallstackEvents tid' s).1.
Proof.
  rewrite !GetSelectedCallstackEvents_lookup.
  unfold GetSelectedCallstackEvents.
  destruct (selected_callstack_events_per_thread_ s !! tid) eqn:E; [done|].
  cbn. destruct (decide (tid = tid')) as [->|Hne].
  - by rewrite lookup_insert_eq, E.
  - by rewrite lookup_insert_ne.
Qed.

Lemma CallStack_set_ThreadId_twice a b c :
  CallStack_set_ThreadId a (CallStack_set_ThreadId b c)
  = CallStack_set_ThreadId a c.
Proof. done. Qed.

Lemma resolved_callstacks_ext g g' events :
  (∀ id tid,
     CallStack_set_ThreadId tid <$> GSamplingProfiler_callstacks g' !! id
     = CallStack_set_ThreadId tid <$> GSamplingProfiler_callstacks g !! id) →
  resolved_callstacks g' events = resolved_callstacks g events.
Proof.
  intros Hsame. unfold resolved_callstacks.
  induction events as [|event events IH]; [done|].
  cbn [omap list_omap]. by rewrite Hsame, IH.
Qed.

Lemma retagged_cons event events id c :
  retagged (event :: events) id c
  = retagged events id
      (if decide (m_Id event = id)
       then CallStack_set_ThreadId (ce_TID event) c
       else c).
Proof.
  unfold retagged. destruct (decide (m_Id event = id)) as [Hid|Hid].
  - rewrite filter_cons_True by done.
    destruct (filter _ events) as [|e l] eqn:E; [done|].
    rewrite last_cons.
    destruct (last (e :: l)) eqn:El; [done|].
    by apply last_None in El.
  - by rewrite filter_cons_False.
Qed.

(** The report loop of [SelectEvents] in closed form. *)
Lemma add_event_callstacks_exact events profiler g :
  ∃ g',
    foldl add_event_callstack (profiler, g) events
    = ({| m_GenerateSummary := m_GenerateSummary profiler;
          m_Callstacks := m_Callstacks profiler ++ resolved_callstacks g events;
          m_NumSamples := m_NumSamples profiler |}, g')
    ∧ g' = set_GSamplingProfiler_callstacks (GSamplingProfiler_callstacks g') g
    ∧ ∀ id, GSamplingProfiler_callstacks g' !! id
            = retagged events id <$> GSamplingProfiler_callstacks g !! id.
Proof.
  revert profiler g. induction events as [|event events IH]; intros profiler g.
  - exists g. simpl. rewrite app_nil_r. split_and!; [by destruct profiler|done|].
    intros id. unfold retagged. simpl.
    by destruct (GSamplingProfiler_callstacks g !! id).
  - cbn [foldl]. unfold add_event_callstack at 2.
    destruct (GSamplingProfiler_callstacks g !! m_Id event) as [c|] eqn:E.
    + destruct (IH (AddCallStack (CallStack_set_ThreadId (ce_TID event) c)
                      profiler)
                   (set_GSamplingProfiler_callstacks
                      (<[m_Id event := CallStack_set_ThreadId (ce_TID event) c]>
                         (GSamplingProfiler_callstacks g)) g))
        as (g' & -> & Hg' & Hstore).
      exists g'. split_and!.
      * f_equal. cbn [m_GenerateSummary m_Callstacks m_NumSamples AddCallStack].
        f_equal. rewrite <- (assoc_L (++)). f_equal.
        unfold resolved_callstacks at 2. cbn [omap list_omap]. rewrite E.
        cbn [fmap option_fmap option_map]. f_equal.
        apply resolved_callstacks_ext. intros id tid.
        cbn [GSamplingProfiler_callstacks set_GSamplingProfiler_callstacks].
        destruct (decide (m_Id event = id)) as [<-|Hne].
        -- by rewrite lookup_insert_eq, E.
        -- by rewrite lookup_insert_ne.
      * rewrite Hg' at 1. done.
      * intros id. rewrite Hstore.
        cbn [GSamplingProfiler_callstacks set_GSamplingProfiler_callstacks].
        destruct (decide (m_Id event = id)) as [<-|Hne].
        -- rewrite lookup_insert_eq, E. cbn. f_equal.
           rewrite retagged_cons. by rewrite decide_True.
        -- rewrite lookup_insert_ne by done.
           destruct (GSamplingProfiler_callstacks g !! id); [|done]. cbn.
           f_equal. rewrite retagged_cons. by rewrite decide_False.
    + destruct (IH profiler g) as (g' & -> & Hg' & Hstore).
      exists g'. split_and!; [|done|].
      * f_equal. f_equal. f_equal. unfold resolved_callstacks at 2.
        cbn [omap list_omap]. by rewrite E.
      * intros id. rewrite Hstore.
        destruct (GSamplingProfiler_callstacks g !! id) eqn:E'; [|done]. cbn.
        f_equal. rewrite retagged_cons. rewrite decide_False; [done|].
        intros <-. congruence.
Qed.

Section SelectionTheorems.
Context `{Collaborators}.

Lemma SelectEvents_exact a_WorldStart a_WorldEnd a_TID s :
  ∃ events s',
    SelectEvents a_WorldStart a_WorldEnd a_TID s = Some (events, s')
    ∧ evolves s s'
    ∧ selected_callstack_events_per_thread_ s' = bucket_events events
    ∧ (∀ id, GSamplingProfiler_callstacks (globals s') !! id
             = retagged events id
                 <$> GSamplingProfiler_callstacks (globals s) !! id)
    ∧ GSelectionReports (globals s')
      = GSelectionReports (globals s)
        ++ (if decide (resolved_callstacks (globals s) events = [])
            then []
            else [ {| m_GenerateSummary := (a_TID =? 0);
                      m_Callstacks := resolved_callstacks (globals s) events;
                      m_NumSamples :=
                        N.of_nat (length (resolved_callstacks (globals s)
                                            events)) |} ])
    ∧ GEventBuffer (globals s') = GEventBuffer (globals s)
    ∧ view s' = view s
    ∧ m_NeedsUpdatePrimitives s' = true ∧ m_NeedsRedraw s' = true.
Proof.
  unfold SelectEvents.
  destruct (if Fp.gt a_WorldStart a_WorldEnd
            then (a_WorldEnd, a_WorldStart)
            else (a_WorldStart, a_WorldEnd)) as [w0 w1].
  destruct (GetTickFromWorld_Some w0 s) as [t0 ->].
  destruct (GetTickFromWorld_Some w1 s) as [t1 ->].
  cbn [mbind option_bind]. cbv zeta.
  set (events := EventBuffer_GetCallstackEvents _ t0 t1 a_TID).
  destruct (add_event_callstacks_exact events
              (SetGenerateSummary (a_TID =? 0) SamplingProfiler_new)
              (globals s))
    as (g' & Hfold & Hg' & Hstore).
  cbn [globals set_selected_callstack_events_per_thread_].
  rewrite Hfold. clear Hfold.
  cbn [m_GenerateSummary m_Callstacks m_NumSamples SetGenerateSummary
       SamplingProfiler_new app].
  unfold GetNumSamples, ProcessSamples. cbn [m_NumSamples m_Callstacks
    m_GenerateSummary].
  eexists events, _. split; [done|].
  assert (GSelectionReports g' = GSelectionReports (globals s)
          ∧ GEventBuffer g' = GEventBuffer (globals s)) as [Hrep Hbuf]
    by (by rewrite Hg').
  destruct (decide (resolved_callstacks (globals s) events = []))
    as [Hnone|Hsome].
  - rewrite Hnone. cbn. rewrite app_nil_r.
    by split_and!.
  - assert ((0 <? N.of_nat (length (resolved_callstacks (globals s) events)))
            = true) as ->.
    { apply N.ltb_lt. destruct (resolved_callstacks (globals s) events);
        [done|simpl; lia]. }
    cbn. rewrite Hrep. by split_and!.
Qed.

(** X12. The selection made by [SelectEvents] is read back by
    [GetSelectedCallstackEvents]: for a thread other than [0] it returns
    the selected events of that thread, in the order [SelectEvents]
    returned them; for thread [0] it returns every selected event, an
    event whose own thread id is [0] twice.  A thread without selected
    events gets the empty list, and reading one thread's selection does
    not change what is read for any thread afterwards. *)
Theorem GetSelectedCallstackEvents_reads_selection
    a_WorldStart a_WorldEnd a_TID s :
  ∃ events s',
    SelectEvents a_WorldStart a_WorldEnd a_TID s = Some (events, s')
    ∧ (∀ tid, (GetSelectedCallstackEvents tid s').1
              = events ≫= selected_for tid)
    ∧ (∀ tid, tid ≠ 0 →
              (GetSelectedCallstackEvents tid s').1
              = filter (λ event, ce_TID event = tid) events)
    ∧ (∀ tid tid',
         (GetSelectedCallstackEvents tid'
            (GetSelectedCallstackEvents tid s').2).1
         = (GetSelectedCallstackEvents tid' s').1).
Proof.
  destruct (SelectEvents_exact a_WorldStart a_WorldEnd a_TID s)
    as (events & s' & Hs' & _ & Hsel & _).
  exists events, s'. split; [done|].
  assert (∀ tid, (GetSelectedCallstackEvents tid s').1
                 = events ≫= selected_for tid) as Hread.
  { intros tid. rewrite GetSelectedCallstackEvents_lookup, Hsel.
    apply bucket_events_lookup. }
  split_and!; [done| |].
  - intros tid Htid. rewrite Hread. clear -Htid.
    induction events as [|event events IH]; [done|].
    cbn [mbind list_bind]. rewrite IH. unfold selected_for.
    rewrite (decide_False (P := tid = 0)) by done. rewrite app_nil_r.
    destruct (decide (ce_TID event = tid)).
    + by rewrite filter_cons_True.
    + by rewrite filter_cons_False.
  - intros tid tid'. apply GetSelectedCallstackEvents_again.
Qed.

(** X13. The report of a selection and its effect on the shared callstack
    store.  [SelectEvents] always returns.  The report holds, in the order
    of the selected events, one copy of the stored callstack per event
    whose callstack id resolves, tagged with the thread id of the event;
    its sample count is their number, its summary flag says whether the
    selection was made for thread [0]; it is published exactly when it
    holds a callstack.  In the store the callstacks keep their keys and
    change in nothing but the thread id: a callstack is re-tagged with the
    thread of the last selected event that refers to it. *)
Theorem SelectEvents_report_and_store a_WorldStart a_WorldEnd a_TID s :
  ∃ events s',
    SelectEvents a_WorldStart a_WorldEnd a_TID s = Some (events, s')
    ∧ GSelectionReports (globals s')
      = GSelectionReports (globals s)
        ++ (if decide (resolved_callstacks (globals s) events = [])
            then []
            else [ {| m_GenerateSummary := (a_TID =? 0);
                      m_Callstacks := resolved_callstacks (globals s) events;
                      m_NumSamples :=
                        N.of_nat (length (resolved_callstacks (globals s)
                                            events)) |} ])
    ∧ (∀ id, GSamplingProfiler_callstacks (globals s') !! id
             = retagged events id
                 <$> GSamplingProfiler_callstacks (globals s) !! id)
    ∧ GEventBuffer (globals s') = GEventBuffer (globals s).
Proof.
  destruct (SelectEvents_exact a_WorldStart a_WorldEnd a_TID s)
    as (events & s' & Hs' & _ & _ & Hstore & Hrep & Hbuf & _).
  by exists events, s'.
Qed.

End SelectionTheorems.

(** ** More on the track order *)

(** A loop whose every iteration get-or-creates a thread track and does
    nothing else to the state. *)
Lemma thread_track_loop {A} (step : option (A * State) → N → option (A * State))
    (ids : list N) :
  (∀ tid, step None tid = None) →
  (∀ a s tid r s', step (Some (a, s)) tid = Some (r, s') →
                   s' = (GetOrCreateThreadTrack tid s).2) →
  ∀ a s r s', foldl step (Some (a, s)) ids = Some (r, s') →
              evolves s s' ∧ same_fields s s' ∧ extends s s'.
Proof.
  intros Hnone Hstep. induction ids as [|tid ids IH]; intros a s r s' Hfold.
  - simpl in Hfold. simplify_eq.
    split_and!; [apply evolves_refl|apply same_fields_refl|apply extends_refl].
  - cbn [foldl] in Hfold.
    destruct (step (Some (a, s)) tid) as [[a1 s1]|] eqn:E.
    + apply Hstep in E as ->. apply IH in Hfold as (Hev & Hsf & Hext).
      split_and!.
      * eapply evolves_trans; [apply evolves_GetOrCreateThreadTrack|done].
      * eapply same_fields_trans;
          [apply same_fields_GetOrCreateThreadTrack|done].
      * eapply extends_trans; [apply extends_GetOrCreateThreadTrack|done].
    + exfalso. clear -Hfold Hnone.
      induction ids as [|x ids IH]; [done|].
      apply IH. cbn [foldl] in Hfold. by rewrite Hnone in Hfold.
Qed.

Lemma filter_thread_ids_steps filters ids s l s' :
  filter_thread_ids filters ids s = Some (l, s') →
  evolves s s' ∧ same_fields s s' ∧ extends s s'.
Proof.
  apply thread_track_loop.
  - done.
  - intros a s0 tid r s1. unfold filter_thread_id.
    cbn [mbind option_bind].
    destruct (GetOrCreateThreadTrack tid s0) as [track s2]. simpl.
    destruct (objects s2 !! track); [|done]. cbn [mbind option_bind].
    by intros [= _ <-].
Qed.

Section SortingSteps.
Context `{Collaborators}.

Lemma append_thread_tracks_steps ids sorted s l s' :
  append_thread_tracks ids sorted s = Some (l, s') →
  evolves s s' ∧ same_fields s s' ∧ extends s s'.
Proof.
  apply thread_track_loop.
  - done.
  - intros a s0 tid r s1. unfold append_thread_track.
    cbn [mbind option_bind].
    destruct (GetOrCreateThreadTrack tid s0) as [track s2]. simpl.
    destruct (if_not_empty s2 track); [|done]. cbn [mbind option_bind].
    by intros [= _ <-].
Qed.

Lemma count_thread_events_steps l s :
  evolves s (foldl count_thread_events s l)
  ∧ same_fields
      (set_m_EventCount (m_EventCount (foldl count_thread_events s l)) s)
      (foldl count_thread_events s l)
  ∧ (State_ok s →
     ∀ tid callstacks, (tid, callstacks) ∈ l →
       is_Some (thread_tracks_ (foldl count_thread_events s l) !! tid)).
Proof.
  revert s. induction l as [|[tid callstacks] l IH]; intros s.
  - split_and!; [apply evolves_refl|by split|by intros _ ? ? ?%elem_of_nil].
  - cbn [foldl]. destruct (IH (count_thread_events s (tid, callstacks)))
      as (Hev & Hsf & Hth).
    assert (evolves s (count_thread_events s (tid, callstacks))) as Hev1.
    { unfold count_thread_events. cbv zeta.
      eapply evolves_trans; [|apply evolves_GetOrCreateThreadTrack].
      by apply evolves_fields. }
    assert (∀ v, same_fields (set_m_EventCount v s)
                   (set_m_EventCount v
                      (count_thread_events s (tid, callstacks)))) as Hsf1.
    { intros v. unfold count_thread_events. cbv zeta.
      pose proof (same_fields_GetOrCreateThreadTrack tid
        (set_m_EventCount
           (<[tid:=wrap32 (N.of_nat (size callstacks))]> (m_EventCount s)) s))
        as [].
      by split. }
    split_and!.
    + by eapply evolves_trans.
    + eapply same_fields_trans; [apply Hsf1|]. 
      eapply same_fields_trans; [|apply Hsf]. by split.
    + intros Hok tid' callstacks' [[= -> ->]|Hin]%elem_of_cons.
      * pose proof (count_thread_events_fold l
                      (count_thread_events s (tid, callstacks))
                      (ev_ok _ _ Hev1 Hok)) as (_ & Hext & _).
        apply (extends_thread _ _ tid
                 (GetOrCreateThreadTrack tid
                    (set_m_EventCount
                       (<[tid:=wrap32 (N.of_nat (size callstacks))]>
                          (m_EventCount s)) s)).1) in Hext; [by eexists|].
        unfold count_thread_events. cbv zeta.
        apply GetOrCreateThreadTrack_lookup.
      * eapply Hth; [|done]. by apply (ev_ok _ _ Hev1).
Qed.

Lemma count_events_steps s :
  evolves s (count_events s)
  ∧ same_fields (set_m_EventCount (m_EventCount (count_events s)) s)
      (count_events s)
  ∧ (State_ok s →
     ∀ tid, is_Some (sampled_events s !! tid) →
            is_Some (thread_tracks_ (count_events s) !! tid)).
Proof.
  unfold count_events. cbv zeta.
  destruct (count_thread_events_steps
              (map_to_list (EventBuffer_GetCallstacks
                              (GEventBuffer (globals (set_m_EventCount ∅ s)))))
              (set_m_EventCount ∅ s)) as (Hev & Hsf & Hth).
  split_and!.
  - eapply evolves_trans; [|done]. by apply evolves_fields.
  - eapply same_fields_trans; [|done]. by split.
  - intros Hok tid [callstacks Htid]. eapply Hth.
    + by eapply State_ok_frame.
    + apply elem_of_map_to_list. done.
Qed.

Lemma displayed_thread_ids_steps s l s' :
  displayed_thread_ids s = Some (l, s') →
  evolves s s' ∧ same_fields s s' ∧ extends s s'.
Proof.
  unfold displayed_thread_ids.
  destruct (decide (m_ThreadFilter s ≠ EmptyString)).
  - apply filter_thread_ids_steps.
  - intros [= _ <-].
    split_and!; [apply evolves_refl|apply same_fields_refl|apply extends_refl].
Qed.

(** The steps of [SortTracks] after the event counts were taken. *)
Lemma SortTracks_steps millis s s' :
  SortTracks millis s = Some s' →
  ∃ s3, evolves (count_events s) s3
        ∧ same_fields (count_events s) s3
        ∧ extends (count_events s) s3
        ∧ s' = set_sorted_tracks_ (sorted_tracks_ s') s3
        ∧ (reorder_due millis (count_events s) = false → s' = count_events s).
Proof.
  unfold SortTracks. cbv zeta.
  destruct (reorder_due millis (count_events s)).
  - destruct (displayed_thread_ids (count_events s)) as [[ids s2]|] eqn:E2;
      [|done].
    cbn [mbind option_bind].
    destruct (scheduler_track_ s2) as [scheduler|]; [|done].
    cbn [mbind option_bind].
    destruct (if_not_empty s2 scheduler) as [scheduler_part|]; [|done].
    cbn [mbind option_bind].
    destruct (process_track_ s2) as [process|]; [|done].
    cbn [mbind option_bind].
    destruct (if_not_empty s2 process) as [process_part|]; [|done].
    cbn [mbind option_bind].
    destruct (append_thread_tracks ids _ s2) as [[sorted s3]|] eqn:E3; [|done].
    cbn [mbind option_bind]. intros [= <-].
    apply displayed_thread_ids_steps in E2 as (Hev2 & Hsf2 & Hext2).
    apply append_thread_tracks_steps in E3 as (Hev3 & Hsf3 & Hext3).
    exists s3. split_and!; [| | |done|done].
    + by eapply evolves_trans.
    + by eapply same_fields_trans.
    + by eapply extends_trans.
  - intros [= <-]. exists (count_events s).
    split_and!;
      [apply evolves_refl|apply same_fields_refl|apply extends_refl|done|done].
Qed.

End SortingSteps.

Section SortingTheorems.
Context `{Collaborators}.

Lemma SortTracks_total millis s :
  State_ok s → is_Some (SortTracks millis s).
Proof.
  intros Hok. destruct (reorder_due millis s) eqn:Edue.
  - destruct (SortTracks_reorders millis s Hok Edue) as (s' & _ & _ & -> & _).
    by eexists.
  - unfold SortTracks. cbv zeta.
    destruct (count_events_counts s Hok) as (_ & Hext & _).
    assert (reorder_due millis (count_events s) = false) as ->.
    { unfold reorder_due in *. by rewrite (ext_globals _ _ Hext). }
    by eexists.
Qed.


End SortingTheorems.

Lemma typed_scheduler s p :
  Tracks_typed s → scheduler_track_ s = Some p →
  track_type s p = Some kSchedulerTrack.
Proof.
  intros (Hsc & _) Hp. rewrite Hp in Hsc. destruct Hsc as (t & Ht & <-).
  unfold track_type. by rewrite Ht.
Qed.

Lemma typed_thread s tid p :
  Tracks_typed s → thread_tracks_ s !! tid = Some p →
  ∃ t, objects s !! p = Some t ∧ type_ t = kThreadTrack ∧ thread_id_ t = tid.
Proof.
  intros (_ & Hth & _) Hp.
  destruct (Hth tid p Hp) as (t & Ht & Hty & Hid & _). by exists t.
Qed.

Lemma typed_gpu s h p :
  Tracks_typed s → gpu_tracks_ s !! h = Some p →
  ∃ t, objects s !! p = Some t ∧ type_ t = kGpuTrack ∧ timeline_hash_ t = h.
Proof.
  intros (_ & _ & Hg) Hp.
  destruct (Hg h p Hp) as (t & Ht & Hty & Hid). by exists t.
Qed.

Lemma NoDup_map_values s :
  Tracks_typed s → NoDup (map_values (gpu_tracks_ s)).
Proof.
  intros Hty. unfold map_values. apply NoDup_fmap_2_strong.
  - intros [h1 p1] [h2 p2] H1%elem_of_map_to_list H2%elem_of_map_to_list.
    simpl. intros <-.
    destruct (typed_gpu _ _ _ Hty H1) as (t1 & Ht1 & _ & <-).
    destruct (typed_gpu _ _ _ Hty H2) as (t2 & Ht2 & _ & <-).
    congruence.
  - apply NoDup_map_to_list.
Qed.

Section DisplayOrderFacts.
Context `{Collaborators}.

Lemma elem_of_shown s p q :
  q ∈ shown s p → q = p ∧ is_Some (objects s !! p).
Proof.
  unfold shown, if_not_empty. destruct (objects s !! p) as [t|]; simpl.
  - destruct (Track_IsEmpty _ t); [by intros ?%elem_of_nil|].
    intros ->%list_elem_of_singleton. split; [done|by eexists].
  - by intros ?%elem_of_nil.
Qed.

Lemma NoDup_shown s p : NoDup (shown s p).
Proof.
  unfold shown, if_not_empty. destruct (objects s !! p) as [t|]; simpl.
  - destruct (Track_IsEmpty _ t); [constructor|apply NoDup_singleton].
  - constructor.
Qed.

Lemma elem_of_thread_shown s tid q :
  q ∈ thread_shown s tid → thread_tracks_ s !! tid = Some q.
Proof.
  unfold thread_shown. destruct (thread_tracks_ s !! tid) as [p|]; simpl.
  - by intros [-> _]%elem_of_shown.
  - by intros ?%elem_of_nil.
Qed.

Lemma NoDup_thread_shown s ids :
  Tracks_typed s → NoDup ids → NoDup (ids ≫= thread_shown s).
Proof.
  intros Hty. induction 1 as [|tid ids Hnotin Hnd IH]; [constructor|].
  cbn [mbind list_bind]. apply NoDup_app. split_and!; [|..|done].
  - unfold thread_shown. destruct (thread_tracks_ s !! tid); simpl;
      [apply NoDup_shown|constructor].
  - intros q Hq%elem_of_thread_shown (tid' & Hq' & Hin)%list_elem_of_bind.
    apply elem_of_thread_shown in Hq'.
    destruct (typed_thread _ _ _ Hty Hq) as (t1 & Ht1 & _ & <-).
    destruct (typed_thread _ _ _ Hty Hq') as (t2 & Ht2 & _ & <-).
    apply Hnotin. congruence.
Qed.

Lemma display_order_tracks s instrumented sampled p :
  State_ok s → p ∈ display_order s instrumented sampled → p ∈ tracks_ s.
Proof.
  intros Hok. pose proof Hok as (_ & _ & Hsc & _ & _ & Hth & Hg).
  unfold display_order. rewrite !elem_of_app.
  intros [Hp|[Hp|[Hp|Hp]]].
  - destruct (scheduler_track_ s) as [q|]; simpl in *;
      [|by apply elem_of_nil in Hp].
    by apply elem_of_shown in Hp as [-> _].
  - unfold map_values in Hp.
    apply list_elem_of_fmap in Hp as ([h q] & -> & Hq%elem_of_map_to_list).
    by apply (Hg h q).
  - apply elem_of_thread_shown in Hp. by apply (Hth 0 p).
  - apply list_elem_of_bind in Hp as (tid & Hp%elem_of_thread_shown & _).
    by apply (Hth tid p).
Qed.

Lemma ranked_thread_ids_NoDup s instrumented sampled :
  ranked_thread_ids s instrumented sampled →
  NoDup (0 :: instrumented ++ sampled).
Proof.
  intros (Hnd1 & Hin1 & _ & Hnd2 & Hin2 & _). apply NoDup_cons. split.
  - rewrite elem_of_app, Hin1, Hin2. tauto.
  - apply NoDup_app. split_and!; [done| |done].
    intros tid [_ [? Hc]]%Hin1 (_ & Hnone & _)%Hin2. congruence.
Qed.

Lemma display_order_NoDup s instrumented sampled :
  State_ok s → Tracks_typed s →
  NoDup (0 :: listed_thread_ids s instrumented sampled) →
  NoDup (display_order s instrumented sampled).
Proof.
  intros Hok Hty Hids. unfold display_order.
  assert (∀ p tid, p ∈ (tid :: listed_thread_ids s instrumented sampled)
                         ≫= thread_shown s →
                   track_type s p = Some kThreadTrack) as Hthreads.
  { intros p tid0 (tid & Hp%elem_of_thread_shown & _)%list_elem_of_bind.
    destruct (typed_thread _ _ _ Hty Hp) as (t & Ht & Hkind & _).
    unfold track_type. rewrite Ht. simpl. by f_equal. }
  assert (∀ p, p ∈ map_values (gpu_tracks_ s) →
               track_type s p = Some kGpuTrack) as Hgpus.
  { intros p Hp. unfold map_values in Hp.
    apply list_elem_of_fmap in Hp as ([h q] & -> & Hq%elem_of_map_to_list).
    destruct (typed_gpu _ _ _ Hty Hq) as (t & Ht & Hkind & _).
    unfold track_type. simpl. rewrite Ht. simpl. by f_equal. }
  change (thread_shown s 0
          ++ (listed_thread_ids s instrumented sampled ≫= thread_shown s))
    with ((0 :: listed_thread_ids s instrumented sampled) ≫= thread_shown s).
  apply NoDup_app. split_and!.
  - destruct (scheduler_track_ s); simpl; [apply NoDup_shown|constructor].
  - intros p Hp Hrest.
    destruct (scheduler_track_ s) as [q|] eqn:Hq; simpl in Hp;
      [|by apply elem_of_nil in Hp].
    apply elem_of_shown in Hp as [-> _].
    pose proof (typed_scheduler _ _ Hty Hq) as Hkind.
    apply elem_of_app in Hrest as [Hg|Hth].
    + apply Hgpus in Hg. congruence.
    + apply Hthreads in Hth. congruence.
  - apply NoDup_app. split_and!.
    + by apply NoDup_map_values.
    + intros p Hg Hth. apply Hgpus in Hg. apply Hthreads in Hth. congruence.
    + by apply NoDup_thread_shown.
Qed.

(** X15. After a reorder every track of the display order is a track of
    [tracks_], and without a name filter none is listed twice.  On a
    state that satisfies the bookkeeping invariant and whose lookup maps
    agree with the tracks they point to, when a reorder is due,
    [SortTracks] returns a state in which each entry of [sorted_tracks_]
    belongs to [tracks_]; when [m_ThreadFilter] is empty, [sorted_tracks_]
    has no duplicates. *)
Theorem SortTracks_lists_each_track_once millis s :
  State_ok s → Tracks_typed s → reorder_due millis s = true →
  ∃ s', SortTracks millis s = Some s'
    ∧ (∀ p, p ∈ sorted_tracks_ s' → p ∈ tracks_ s')
    ∧ (m_ThreadFilter s = EmptyString → NoDup (sorted_tracks_ s')).
Proof.
  intros Hok Hty Hdue.
  destruct (SortTracks_reorders millis s Hok Hdue)
    as (s' & instrumented & sampled & Hs' & Hok' & Hext & Hranked & Hsorted & _).
  exists s'. split; [done|].
  destruct (SortTracks_steps millis s s' Hs') as (s3 & Hev3 & _ & _ & Hs3 & _).
  destruct (count_events_steps s) as (Hev1 & _).
  assert (Tracks_typed s') as Hty'.
  { rewrite Hs3. eapply Tracks_typed_frame;
      [..|apply (ev_typed _ _ Hev3), (ev_typed _ _ Hev1), Hty]; done. }
  rewrite Hsorted. split.
  - intros p. by apply display_order_tracks.
  - intros Hfilter. apply display_order_NoDup; [done..|].
    unfold listed_thread_ids. rewrite (ext_filter _ _ Hext), Hfilter.
    rewrite decide_True by done. by eapply ranked_thread_ids_NoDup.
Qed.

End DisplayOrderFacts.

(** ** Names and labels *)

Lemma named_agree g g' t : names_agree g g' → named g' t = named g t.
Proof. intros (Hp & _ & Hn). unfold named. by rewrite Hp, Hn. Qed.

Lemma named_idem g t : named g (named g t) = named g t.
Proof.
  unfold named. destruct (decide (type_ t = kThreadTrack)) as [Hty|Hty].
  - destruct (decide (thread_id_ t = 0)) as [Hid|Hid]; cbn.
    + rewrite decide_True by done. rewrite decide_True by done. done.
    + rewrite decide_True by done. rewrite decide_False by done. done.
  - by rewrite decide_False.
Qed.

Lemma names_agree_refl g : names_agree g g.
Proof. by split_and!. Qed.

Lemma names_agree_trans g1 g2 g3 :
  names_agree g1 g2 → names_agree g2 g3 → names_agree g1 g3.
Proof.
  intros (? & ? & H12) (? & ? & H23). split_and!; [congruence|by etrans|].
  intros tid. by rewrite H23.
Qed.

Lemma name_track_named p t s :
  objects s !! p = Some t →
  ∃ s', name_track p s = Some s'
        ∧ objects s' = <[p := named (globals s) t]> (objects s)
        ∧ names_agree (globals s) (globals s')
        ∧ evolves s s'
        ∧ scheduler_track_ s' = scheduler_track_ s
        ∧ cores_seen_ s' = cores_seen_ s
        ∧ tracks_ s' = tracks_ s.
Proof.
  intros Ht. unfold name_track, named. rewrite Ht. cbn [mbind option_bind].
  assert (p < length (objects s))%nat as Hp by by eapply lookup_lt_Some.
  assert (∀ s0 n l, objects s0 = objects s →
            evolves s0
              (set_objects
                 (<[p := Track_SetLabel l (Track_SetName n t)]>
                    (<[p := Track_SetName n t]> (objects s0)))
                 (set_objects (<[p := Track_SetName n t]> (objects s0)) s0)))
    as Hev.
  { intros s0 n l Ho.
    apply evolves_trans with
      (set_objects (<[p := Track_SetName n t]> (objects s0)) s0).
    - apply (evolves_with_track p (Track_SetName n)); [|done].
      unfold with_track. by rewrite Ho, Ht.
    - apply (evolves_with_track p (Track_SetLabel l)); [|done].
      unfold with_track. cbn [objects set_objects].
      rewrite list_lookup_insert_eq; [done|]. by rewrite Ho. }
  destruct (decide (type_ t = kThreadTrack)) as [Hty|Hty].
  - destruct (decide (thread_id_ t = 0)) as [Hid|Hid].
    + unfold with_track. rewrite Ht. cbn [mbind option_bind objects set_objects].
      rewrite list_lookup_insert_eq by done. cbn [mbind option_bind].
      eexists. split; [done|].
      pose proof (Hev s (GProcessName (globals s))
                    (GProcessName (globals s) ++ " (all threads)")%string
                    eq_refl) as Hev'.
      split_and!;
        [cbn; apply list_insert_insert_eq|apply names_agree_refl
        |exact Hev'|done..].
    + cbv zeta. unfold with_track.
      cbn [objects update_globals set_globals mbind option_bind].
      rewrite Ht. cbn [mbind option_bind objects set_objects].
      rewrite list_lookup_insert_eq by done. cbn [mbind option_bind].
      eexists. split; [done|].
      set (thread_name :=
             default EmptyString (GThreadNames (globals s) !! thread_id_ t)).
      set (s0 := set_globals
                   (set_GThreadNames
                      (<[thread_id_ t := thread_name]>
                         (GThreadNames (globals s))) (globals s)) s).
      pose proof (Hev s0 thread_name
                    (thread_name ++ " [" ++ pretty (thread_id_ t) ++ "]")%string
                    eq_refl) as Hev'.
      assert (evolves s s0) as Hev0 by by apply evolves_fields.
      assert (names_agree (globals s) (globals s0)) as Hnames.
      { split_and!; [done| |].
        - cbn. unfold thread_name.
          destruct (GThreadNames (globals s) !! thread_id_ t) eqn:E; simpl.
          + by rewrite insert_id.
          + by apply insert_subseteq.
        - intros tid. cbn. destruct (decide (tid = thread_id_ t)) as [->|Hne].
          + by rewrite lookup_insert_eq.
          + by rewrite lookup_insert_ne. }
      split_and!;
        [cbn; apply list_insert_insert_eq|exact Hnames
        |eapply evolves_trans; [exact Hev0|exact Hev']|done..].
  - exists s. rewrite list_insert_id by done.
    split_and!;
      [done|done|apply names_agree_refl|apply evolves_refl|done|done|done].
Qed.

Lemma name_tracks_fold l s :
  Forall (λ p, p < length (objects s))%nat l →
  ∃ s', foldl (λ acc track, s ← acc; name_track track s) (Some s) l = Some s'
        ∧ (∀ p t, objects s !! p = Some t →
                  objects s' !! p
                  = Some (if decide (p ∈ l) then named (globals s) t else t))
        ∧ names_agree (globals s) (globals s')
        ∧ evolves s s'
        ∧ scheduler_track_ s' = scheduler_track_ s
        ∧ cores_seen_ s' = cores_seen_ s
        ∧ tracks_ s' = tracks_ s
        ∧ length (objects s') = length (objects s).
Proof.
  revert s. induction l as [|p l IH]; intros s Hvalid.
  - exists s. split_and!;
      [done| |apply names_agree_refl|apply evolves_refl|done|done|done|done].
    intros p t Ht. rewrite decide_False; [done|]. apply not_elem_of_nil.
  - apply Forall_cons in Hvalid as [Hp Hvalid].
    destruct (lookup_lt_is_Some_2 (objects s) p Hp) as [t Ht].
    destruct (name_track_named p t s Ht)
      as (s1 & Hs1 & Ho1 & Hn1 & Hev1 & Hsc1 & Hc1 & Ht1).
    cbn [foldl mbind option_bind]. rewrite Hs1.
    destruct (IH s1)
      as (s' & Hs' & Ho' & Hn' & Hev' & Hsc' & Hc' & Ht' & Hlen').
    { rewrite Ho1, length_insert. done. }
    exists s'. split_and!.
    + exact Hs'.
    + intros q tq Hq. destruct (decide (q = p)) as [->|Hne].
      * assert (tq = t) as -> by congruence.
        rewrite (Ho' p (named (globals s) t)).
        -- f_equal. rewrite (decide_True (P := p ∈ p :: l))
             by apply list_elem_of_here.
           destruct (decide (p ∈ l)); [|done].
           by rewrite (named_agree _ _ _ Hn1), named_idem.
        -- rewrite Ho1. by apply list_lookup_insert_eq.
      * rewrite (Ho' q tq).
        -- f_equal. destruct (decide (q ∈ l)) as [Hin|Hin].
           ++ rewrite (decide_True (P := q ∈ p :: l))
                by by apply list_elem_of_further.
              by apply named_agree.
           ++ rewrite (decide_False (P := q ∈ p :: l)); [done|].
              by intros [?|?]%elem_of_cons.
        -- rewrite Ho1. by rewrite list_lookup_insert_ne.
    + eapply names_agree_trans; [exact Hn1|exact Hn'].
    + eapply evolves_trans; [exact Hev1|exact Hev'].
    + by rewrite Hsc'.
    + by rewrite Hc'.
    + by rewrite Ht'.
    + by rewrite Hlen', Ho1, length_insert.
Qed.

Lemma DrawTracks_exact s :
  State_ok s → Sorted_live s →
  ∃ s', DrawTracks s = Some s'
    ∧ (∀ p t, objects s !! p = Some t →
              objects s' !! p = Some (drawn s p t)
              ∧ timers_ (drawn s p t) = timers_ t
              ∧ type_ (drawn s p t) = type_ t)
    ∧ length (objects s') = length (objects s)
    ∧ names_agree (globals s) (globals s')
    ∧ tracks_ s' = tracks_ s
    ∧ sorted_tracks_ s' = sorted_tracks_ s
    ∧ evolves s s'.
Proof.
  intros Hok Hlive. unfold DrawTracks. cbv zeta.
  destruct (State_ok_scheduler s Hok) as (scheduler & Hsched & Hsin).
  rewrite Hsched. cbn [mbind option_bind].
  pose proof (State_ok_fresh _ _ Hok Hsin) as Hsvalid.
  destruct (lookup_lt_is_Some_2 (objects s) scheduler Hsvalid) as [ts Hts].
  unfold with_track at 1. rewrite Hts. cbn [mbind option_bind].
  set (label := ("Scheduler (" ++ pretty (GetNumCores s) ++ " cores)")%string).
  set (s0 := set_objects (<[scheduler := Track_SetLabel label ts]> (objects s)) s).
  destruct (name_tracks_fold (sorted_tracks_ s0) s0)
    as (s' & Hs' & Ho' & Hn' & Hev' & _ & _ & Ht' & Hlen').
  { unfold s0. cbn. rewrite length_insert. apply Hlive. }
  exists s'. split; [done|].
  assert (evolves s s0) as Hev0.
  { apply (evolves_with_track scheduler (Track_SetLabel label)); [|done].
    unfold with_track. by rewrite Hts. }
  split_and!; [|..|done|done| |].
  - intros p t Hp. split_and!.
    + unfold drawn. cbv zeta. rewrite Hsched.
      destruct (decide (Some scheduler = Some p)) as [[= <-]|Hne].
      * assert (t = ts) as -> by congruence.
        rewrite (Ho' scheduler (Track_SetLabel label ts)); [done|].
        unfold s0. cbn. by apply list_lookup_insert_eq.
      * rewrite (Ho' p t); [done|].
        unfold s0. cbn. rewrite list_lookup_insert_ne; [done|]. congruence.
    + unfold drawn, named. cbv zeta. by repeat case_match.
    + unfold drawn, named. cbv zeta. by repeat case_match.
  - rewrite Hlen'. unfold s0. cbn. apply length_insert.
  - by rewrite (ev_sorted _ _ Hev').
  - eapply evolves_trans; [exact Hev0|exact Hev'].
Qed.

(** X16. [DrawTracks] names the tracks of the display order and labels the
    scheduler track, and changes nothing else in the tracks: on a state
    that satisfies the bookkeeping invariant and whose display order holds
    live tracks it returns; the scheduler track is labelled with the
    number of cores seen; every thread track of the display order is named
    after its thread in [Capture::GThreadNames] (with the empty name when
    the thread has none) and labelled with that name and its id, the
    process track (id [0]) is named after the process; tracks outside the
    display order keep name and label; no track changes its timers, and
    the thread names read as before (threads without a name get an empty
    entry). *)
Theorem DrawTracks_names_displayed_tracks s :
  State_ok s → Sorted_live s →
  ∃ s', DrawTracks s = Some s'
    ∧ (∀ p t, objects s !! p = Some t →
              objects s' !! p = Some (drawn s p t)
              ∧ timers_ (drawn s p t) = timers_ t
              ∧ type_ (drawn s p t) = type_ t)
    ∧ length (objects s') = length (objects s)
    ∧ names_agree (globals s) (globals s')
    ∧ tracks_ s' = tracks_ s
    ∧ sorted_tracks_ s' = sorted_tracks_ s.
Proof.
  intros Hok Hlive.
  destruct (DrawTracks_exact s Hok Hlive)
    as (s' & Hs' & Ho & Hlen & Hn & Ht & Hso & _).
  by exists s'.
Qed.

(** ** Sessions *)

Lemma evolves_TimeGraph_ok s s' :
  evolves s s' → TimeGraph_ok s → TimeGraph_ok s'.
Proof.
  intros [Hok Hty Hlen Hsm _ Hso] (? & ? & Hlive & ?). split_and!; auto.
  - unfold Sorted_live in *. rewrite Hso.
    eapply Forall_impl; [done|]. simpl. lia.
  - by rewrite Hsm.
Qed.

Lemma Clear_frame s :
  sorted_tracks_ (Clear s) = sorted_tracks_ s
  ∧ string_manager_ (Clear s) = string_manager_ s
  ∧ m_EventCount (Clear s) = m_EventCount s
  ∧ selected_callstack_events_per_thread_ (Clear s)
    = selected_callstack_events_per_thread_ s
  ∧ view (Clear s) = view s
  ∧ m_ThreadFilter (Clear s) = m_ThreadFilter s
  ∧ m_NeedsUpdatePrimitives (Clear s) = m_NeedsUpdatePrimitives s
  ∧ m_NeedsRedraw (Clear s) = m_NeedsRedraw s.
Proof.
  unfold Clear, GetOrCreateSchedulerTrack, GetOrCreateThreadTrack. simpl.
  rewrite lookup_empty. simpl. by split_and!.
Qed.

Lemma two_tracks_typed s p :
  objects s !! p = Some (Track_new kSchedulerTrack 0 0) →
  objects s !! S p
  = Some (Track_SetEventTrackColor (GetThreadColor 0)
            (Track_new kThreadTrack 0 0)) →
  scheduler_track_ s = Some p →
  thread_tracks_ s = {[0 := S p]} →
  gpu_tracks_ s = ∅ →
  Tracks_typed s.
Proof.
  intros Hs Hp Hsc Hth Hg. unfold Tracks_typed. rewrite Hsc, Hth, Hg.
  split_and!.
  - simpl. eexists. split; [done|]. done.
  - apply map_Forall_singleton. eexists. split; [done|]. done.
  - apply map_Forall_empty.
Qed.

Lemma Clear_TimeGraph_ok s :
  Sorted_live s → is_Some (string_manager_ s) → TimeGraph_ok (Clear s).
Proof.
  intros Hlive Hsm.
  destruct (Clear_tracks s) as (Ho & Ht & Hsc & Hp & Hth & Hg).
  destruct (Clear_frame s) as (Hso & Hstr & _).
  split_and!.
  - apply Clear_ok.
  - apply (two_tracks_typed _ (length (objects s))); try done.
    + rewrite Ho. rewrite lookup_app_r by lia. by rewrite Nat.sub_diag.
    + rewrite Ho. rewrite lookup_app_r by lia.
      by replace (S (length (objects s)) - length (objects s))%nat
        with 1%nat by lia.
  - unfold Sorted_live in *. rewrite Hso, Ho, length_app.
    eapply Forall_impl; [done|]. simpl. lia.
  - by rewrite Hstr.
Qed.

Lemma new_TimeGraph_ok g strings :
  TimeGraph_ok (SetStringManager strings (TimeGraph_new g)).
Proof.
  destruct (TimeGraph_new_tracks g) as (Ho & Ht & Hsc & Hp & Hth & Hg).
  split_and!.
  - eapply State_ok_frame; [..|apply (TimeGraph_new_ok g)]; done.
  - eapply Tracks_typed_frame with (s := TimeGraph_new g); try done.
    apply (two_tracks_typed _ 0%nat); try done; by rewrite Ho.
  - unfold Sorted_live. cbn.
    unfold TimeGraph_new, GetOrCreateSchedulerTrack, GetOrCreateThreadTrack.
    simpl. rewrite lookup_empty. simpl. constructor.
  - by eexists.
Qed.

Section SessionProofs.
Context `{Collaborators}.

Lemma SortTracks_TimeGraph_ok millis s :
  TimeGraph_ok s →
  ∃ s', SortTracks millis s = Some s' ∧ TimeGraph_ok s'
        ∧ capture_max_timestamp_ s' = capture_max_timestamp_ s.
Proof.
  intros (Hok & Hty & Hlive & Hsm).
  destruct (SortTracks_total millis s Hok) as [s' Hs']. exists s'.
  split; [done|].
  destruct (SortTracks_steps millis s s' Hs')
    as (s3 & Hev3 & Hsf3 & Hext3 & Hs3 & Hnot).
  destruct (count_events_steps s) as (Hev1 & Hsf1 & _).
  assert (evolves s s3) as Hev by by eapply evolves_trans.
  assert (State_ok s') as Hok'.
  { rewrite Hs3. eapply State_ok_frame; [..|apply (ev_ok _ _ Hev Hok)]; done. }
  assert (capture_max_timestamp_ s' = capture_max_timestamp_ s) as Hmax.
  { rewrite Hs3. cbn. rewrite (sf_max _ _ Hsf3).
    exact (sf_max _ _ Hsf1). }
  split; [|done]. split_and!; [done| | |].
  - rewrite Hs3. eapply Tracks_typed_frame;
      [..|apply (ev_typed _ _ Hev Hty)]; done.
  - destruct (reorder_due millis s) eqn:Edue.
    + destruct (SortTracks_reorders millis s Hok Edue)
        as (s'' & instrumented & sampled & Hs'' & _ & _ & _ & Hsorted & _).
      assert (s'' = s') as -> by congruence.
      unfold Sorted_live. rewrite Hsorted. apply Forall_forall.
      intros p Hp%display_order_tracks; [|done]. by apply State_ok_fresh.
    + destruct (count_events_counts s Hok) as (_ & Hext1 & _).
      rewrite Hnot.
      * apply (evolves_TimeGraph_ok _ _ Hev1). by split_and!.
      * unfold reorder_due in *. by rewrite (ext_globals _ _ Hext1).
  - rewrite Hs3. cbn. rewrite (ev_strings _ _ Hev). done.
Qed.

(** Every call other than [SortTracks], [Clear] and [SetStringManager]
    succeeds and moves the state as [evolves] says. *)
Lemma call_evolves c s :
  TimeGraph_ok s →
  (∀ millis, c ≠ Call_SortTracks millis) → c ≠ Call_Clear →
  (∀ str_manager, c ≠ Call_SetStringManager str_manager) →
  ∃ s', call c s = Some s' ∧ evolves s s'.
Proof.
  intros (Hok & Hty & Hlive & Hsm) Hsort Hclear Hstrings.
  destruct c; cbn [call].
  - destruct (ProcessTimer_routes a_Timer s Hok (λ _, Hsm))
      as (s' & p & -> & Hev & _). by exists s'.
  - by destruct (Hsort millis).
  - destruct (DrawTracks_exact s Hok Hlive)
      as (s' & -> & _ & _ & _ & _ & _ & Hev). by exists s'.
  - destruct (SelectEvents_exact a_WorldStart a_WorldEnd a_TID s)
      as (events & s' & -> & Hev & _). by exists s'.
  - eexists. split; [done|]. unfold GetSelectedCallstackEvents.
    destruct (selected_callstack_events_per_thread_ s !! tid);
      [apply evolves_refl|by apply evolves_fields].
  - rewrite UpdateCaptureMinMaxTimestamps_range by done.
    eexists. split; [done|]. apply evolves_fields; try done.
    apply capture_max_of_ge.
  - eexists. split; [done|]. unfold UpdateMaxTimeStamp.
    destruct (N.ltb_spec (capture_max_timestamp_ s) a_Time);
      [|apply evolves_refl].
    apply evolves_fields; try done. cbn. lia.
  - destruct (SetMinMax_range a_MinTimeUs a_MaxTimeUs s Hok)
      as (s' & -> & Hev & _). by exists s'.
  - destruct (ZoomTime_range a_ZoomValue a_MouseRatio s Hok)
      as (s' & -> & Hev & _). by exists s'.
  - destruct (ZoomAll_range GNumHistorySeconds s Hok)
      as (s' & -> & Hev & _). by exists s'.
  - destruct (Zoom_range min max s Hok) as (s' & -> & Hev & _). by exists s'.
  - destruct (HorizontallyMoveIntoView_range text_box distance s Hok)
      as (s' & -> & Hev & _). by exists s'.
  - destruct (OnDrag_range a_Ratio s Hok) as (s' & -> & Hev & _).
    by exists s'.
  - eexists. split; [done|]. by apply evolves_fields.
  - eexists. split; [done|]. by apply evolves_fields.
  - by destruct (Hstrings str_manager).
  - eexists. split; [done|]. apply evolves_GetOrCreateThreadTrack.
  - eexists. split; [done|]. apply evolves_GetOrCreateGpuTrack.
  - done.
  - eexists. split; [done|]. by apply evolves_fields.
Qed.

Lemma call_TimeGraph_ok c s :
  TimeGraph_ok s →
  ∃ s', call c s = Some s' ∧ TimeGraph_ok s'
        ∧ (c ≠ Call_Clear →
           capture_max_timestamp_ s ≤ capture_max_timestamp_ s').
Proof.
  intros Hs.
  destruct (decide (c = Call_Clear)) as [->|Hclear].
  { destruct Hs as (_ & _ & Hlive & Hsm). eexists. split; [done|].
    split; [by apply Clear_TimeGraph_ok|done]. }
  destruct (decide (∃ millis, c = Call_SortTracks millis))
    as [[millis ->]|Hsort].
  { destruct (SortTracks_TimeGraph_ok millis s Hs) as (s' & ? & ? & Hmax).
    exists s'. split_and!; [done..|]. intros _. by rewrite Hmax. }
  destruct (decide (∃ str_manager, c = Call_SetStringManager str_manager))
    as [[str_manager ->]|Hstrings].
  { eexists. split; [done|]. destruct Hs as (Hok & Hty & Hlive & Hsm).
    split; [|done]. unfold TimeGraph_ok.
    split_and!; [by eapply State_ok_frame|by eapply Tracks_typed_frame
                |done|by eexists]. }
  destruct (call_evolves c s Hs) as (s' & Hs' & Hev); [|done|..].
  - intros millis ->. apply Hsort. by eexists.
  - intros str_manager ->. apply Hstrings. by eexists.
  - exists s'. split; [done|]. split;
      [by eapply evolves_TimeGraph_ok|intros _; apply Hev].
Qed.

Lemma calls_TimeGraph_ok cs s :
  TimeGraph_ok s →
  ∃ s', calls cs s = Some s' ∧ TimeGraph_ok s'
        ∧ (Forall (λ c, c ≠ Call_Clear) cs →
           capture_max_timestamp_ s ≤ capture_max_timestamp_ s').
Proof.
  revert s. induction cs as [|c cs IH]; intros s Hs.
  - exists s. by split_and!.
  - destruct (call_TimeGraph_ok c s Hs) as (s1 & Hs1 & Hok1 & Hmax1).
    destruct (IH s1 Hok1) as (s' & Hs' & Hok' & Hmax').
    exists s'. cbn [calls]. rewrite Hs1. cbn [mbind option_bind].
    split_and!; [done..|].
    intros [Hc Hcs]%Forall_cons. specialize (Hmax1 Hc).
    specialize (Hmax' Hcs). lia.
Qed.

End SessionProofs.

Section SessionTheorems.
Context `{Collaborators}.

(** X17. No sequence of calls makes the [TimeGraph] dereference a null or
    dangling track pointer once the string manager is set.  Starting from a
    freshly constructed graph with a string manager, every call of every
    session returns, whatever the rest of the application does to the
    process-wide objects in between, and after each session the bookkeeping
    invariant holds, the lookup maps agree with the tracks they point to
    (the entry of a thread id leads to the thread track of that id, whose
    event strip has the palette colour of the id; the entry of a timeline
    hash to the gpu track of that hash), and the display order holds live
    tracks. *)
Theorem session_keeps_track_pointers_valid g strings cs :
  ∃ s', calls cs (SetStringManager strings (TimeGraph_new g)) = Some s'
        ∧ State_ok s' ∧ Tracks_typed s' ∧ Sorted_live s'.
Proof.
  destruct (calls_TimeGraph_ok cs _ (new_TimeGraph_ok g strings))
    as (s' & Hs' & (Hok & Hty & Hlive & _) & _).
  by exists s'.
Qed.

(** X18. [capture_max_timestamp_] only falls in [Clear]: on a state that
    satisfies the session invariant, a session without [Clear] returns and
    does not lower the maximum timestamp, whichever calls it makes;
    [Clear] sets it to [0]. *)
Theorem capture_max_timestamp_only_falls_in_Clear cs s :
  TimeGraph_ok s →
  (Forall (λ c, c ≠ Call_Clear) cs →
   ∃ s', calls cs s = Some s'
         ∧ capture_max_timestamp_ s ≤ capture_max_timestamp_ s')
  ∧ capture_max_timestamp_ (Clear s) = 0.
Proof.
  intros Hs. split; [|done]. intros Hcs.
  destruct (calls_TimeGraph_ok cs s Hs) as (s' & Hs' & _ & Hmax).
  exists s'. split; [done|]. by apply Hmax.
Qed.

(** X19. [Clear] does not reset the display order: after [Clear],
    [sorted_tracks_] still holds the tracks of the capture that was
    cleared, all of them alive and none of them a track of the new
    [tracks_], until the next reorder replaces it.  The per-thread event
    counts, the selection, the window, the name filter, the update flags
    and the string manager survive [Clear] as well. *)
Theorem Clear_keeps_stale_display_order s :
  State_ok s → Sorted_live s →
  sorted_tracks_ (Clear s) = sorted_tracks_ s
  ∧ (∀ p, p ∈ sorted_tracks_ (Clear s) →
          p ∉ tracks_ (Clear s)
          ∧ objects (Clear s) !! p = objects s !! p
          ∧ is_Some (objects s !! p))
  ∧ string_manager_ (Clear s) = string_manager_ s
  ∧ m_EventCount (Clear s) = m_EventCount s
  ∧ selected_callstack_events_per_thread_ (Clear s)
    = selected_callstack_events_per_thread_ s
  ∧ view (Clear s) = view s
  ∧ m_ThreadFilter (Clear s) = m_ThreadFilter s
  ∧ m_NeedsUpdatePrimitives (Clear s) = m_NeedsUpdatePrimitives s
  ∧ m_NeedsRedraw (Clear s) = m_NeedsRedraw s.
Proof.
  intros Hok Hlive.
  destruct (Clear_frame s) as (Hso & Hrest).
  destruct (Clear_tracks s) as (Ho & Ht & _).
  split; [done|]. split; [|done].
  intros p Hp. rewrite Hso in Hp.
  apply (proj1 (Forall_forall _ _) Hlive) in Hp. split_and!.
  - rewrite Ht. intros [->|[->|?%elem_of_nil]%elem_of_cons]%elem_of_cons;
      [lia|lia|done].
  - rewrite Ho. by apply lookup_app_l.
  - by apply lookup_lt_is_Some_2.
Qed.

Lemma StrContains_empty_name token :
  token ≠ EmptyString → StrContains EmptyString token = false.
Proof. by destruct token. Qed.

(** X20. A thread track that has no name yet is not displayed while a name
    filter without empty tokens is set.  On a state that satisfies the
    bookkeeping invariant and whose lookup maps agree with the tracks, when
    a reorder is due and every token of [m_ThreadFilter] is non-empty, the
    track of a thread other than [0] whose name is empty is not in the
    display order that [SortTracks] computes (and [DrawTracks], which names
    the displayed tracks only, will not name it). *)
Theorem name_filter_hides_unnamed_threads millis s tid p t :
  State_ok s → Tracks_typed s → reorder_due millis s = true →
  Forall (λ token, token ≠ EmptyString)
         (StrSplit (m_ThreadFilter s) " "%char) →
  tid ≠ 0 → thread_tracks_ s !! tid = Some p → objects s !! p = Some t →
  name_ t = EmptyString →
  ∃ s', SortTracks millis s = Some s' ∧ p ∉ sorted_tracks_ s'.
Proof.
  intros Hok Hty Hdue Htokens Htid Hp Ht Hname.
  destruct (SortTracks_reorders millis s Hok Hdue)
    as (s' & instrumented & sampled & Hs' & Hok' & Hext & Hranked & Hsorted & _).
  exists s'. split; [done|].
  destruct (SortTracks_steps millis s s' Hs') as (s3 & Hev3 & _ & _ & Hs3 & _).
  destruct (count_events_steps s) as (Hev1 & _).
  assert (Tracks_typed s') as Hty'.
  { rewrite Hs3. eapply Tracks_typed_frame;
      [..|apply (ev_typed _ _ Hev3), (ev_typed _ _ Hev1), Hty]; done. }
  pose proof (extends_thread _ _ _ _ Hext Hp) as Hp'.
  assert (thread_name s' tid = EmptyString) as Hname'.
  { rewrite (thread_name_extends s s' tid Hok Hext) by by eexists.
    unfold thread_name. rewrite Hp. simpl. by rewrite Ht. }
  destruct (typed_thread _ _ _ Hty' Hp') as (t' & Ht' & Hkind & Hid).
  rewrite Hsorted. unfold display_order. rewrite !elem_of_app.
  intros [Hin|[Hin|[Hin|Hin]]].
  - destruct (scheduler_track_ s') as [q|] eqn:Hq; simpl in Hin;
      [|by apply elem_of_nil in Hin].
    apply elem_of_shown in Hin as [-> _].
    pose proof (typed_scheduler _ _ Hty' Hq) as Hsc.
    unfold track_type in Hsc. rewrite Ht' in Hsc. simpl in Hsc. congruence.
  - unfold map_values in Hin.
    apply list_elem_of_fmap in Hin as ([h q] & -> & Hq%elem_of_map_to_list).
    destruct (typed_gpu _ _ _ Hty' Hq) as (tg & Htg & Hg & _).
    simpl in *. congruence.
  - apply elem_of_thread_shown in Hin.
    destruct (typed_thread _ _ _ Hty' Hin) as (t0 & Ht0 & _ & Hid0).
    congruence.
  - apply list_elem_of_bind in Hin as (tid' & Hin%elem_of_thread_shown & Hl).
    destruct (typed_thread _ _ _ Hty' Hin) as (t0 & Ht0 & _ & Hid0).
    assert (tid' = tid) as -> by congruence.
    unfold listed_thread_ids in Hl.
    rewrite (ext_filter _ _ Hext) in Hl.
    destruct (decide (m_ThreadFilter s = EmptyString)) as [Hf|Hf].
    { rewrite Hf in Htokens. simpl in Htokens.
      by apply Forall_cons in Htokens as [? _]. }
    unfold filtered_by_name in Hl.
    apply list_elem_of_bind in Hl as (tid' & Hl & _).
    apply elem_of_push_per_matching_filter in Hl as (-> & token & Hin' & Hm).
    rewrite Hname' in Hm.
    rewrite StrContains_empty_name in Hm; [done|].
    by apply (proj1 (Forall_forall _ _) Htokens).
Qed.

End SessionTheorems.

(** ** The event strip *)

Lemma string_app_assoc (a b c : string) :
  ((a ++ b) ++ c = a ++ (b ++ c))%string.
Proof.
  induction a as [|x a IH]; [done|].
  change (String x ((a ++ b) ++ c) = String x (a ++ (b ++ c)))%string.
  by rewrite IH.
Qed.

Lemma string_app_nil_r (a : string) : (a ++ EmptyString = a)%string.
Proof.
  induction a as [|x a IH]; [done|].
  change (String x (a ++ EmptyString) = String x a)%string. by rewrite IH.
Qed.

Lemma foldl_append_names (name : N → string) (frames : list N)
    (result : string) :
  foldl (λ result addr, (result ++ "<br/>" ++ name addr)%string) result frames
  = (result
     ++ String.concat EmptyString ((λ addr, "<br/>" ++ name addr)%string <$> frames)
    )%string.
Proof.
  revert result. induction frames as [|addr frames IH]; intros result.
  - simpl. by rewrite string_app_nil_r.
  - cbn [foldl fmap list_fmap]. rewrite IH. rewrite string_app_assoc.
    f_equal. destruct frames as [|addr' frames]; simpl.
    + by rewrite string_app_nil_r.
    + done.
Qed.

Section EventTrackTheorems.
Context `{Collaborators}.

Lemma SelectEvents_swap a b a_TID s :
  Fp.lt a b = true ∨ Fp.lt b a = true ∨ a = b →
  SelectEvents a b a_TID s = SelectEvents b a a_TID s.
Proof.
  intros [Hab|[Hba| ->]]; [| |done].
  - unfold SelectEvents. rewrite (lt_not_gt a b Hab).
    unfold Fp.gt at 1. unfold Fp.lt in Hab. by rewrite Hab.
  - unfold SelectEvents. rewrite (lt_not_gt b a Hba).
    unfold Fp.gt at 1. unfold Fp.lt in Hba. by rewrite Hba.
Qed.

Lemma SelectEvents_Some a b a_TID s : is_Some (SelectEvents a b a_TID s).
Proof.
  destruct (SelectEvents_exact a b a_TID s) as (events & s' & -> & _).
  by eexists.
Qed.

(** X21. A selection is made by the release that follows a pick, once, and
    does not depend on the direction of the drag.  [OnRelease] always
    returns and leaves the strip unpicked; on a strip that is not picked
    it leaves the time graph alone, so a second release selects nothing.
    With a canvas, a drag from one screen position to another ends in the
    same time graph as the drag in the opposite direction, provided the
    world coordinates of the two positions compare ([a < b], [b < a] or
    the same value). *)
Theorem EventTrack_selects_once_per_drag track s :
  (∃ track' s',
     EventTrack.OnRelease track s = Some (track', s')
     ∧ EventTrack.m_Picked track' = false
     ∧ (EventTrack.m_Picked track = false → s' = s)
     ∧ EventTrack.OnRelease track' s' = Some (track', s'))
  ∧ ∀ canvas x0 y0 x1 y1,
      EventTrack.m_Canvas track = Some canvas →
      Fp.lt (Vec2_0 (ScreenToWorld canvas x0 y0))
            (Vec2_0 (ScreenToWorld canvas x1 y1)) = true
      ∨ Fp.lt (Vec2_0 (ScreenToWorld canvas x1 y1))
              (Vec2_0 (ScreenToWorld canvas x0 y0)) = true
      ∨ Vec2_0 (ScreenToWorld canvas x0 y0)
        = Vec2_0 (ScreenToWorld canvas x1 y1) →
      ∃ forth back s',
        drag_gesture x0 y0 x1 y1 track s = Some (forth, s')
        ∧ drag_gesture x1 y1 x0 y0 track s = Some (back, s')
        ∧ snd <$> SelectEvents (Vec2_0 (ScreenToWorld canvas x0 y0))
                    (Vec2_0 (ScreenToWorld canvas x1 y1))
                    (EventTrack.m_ThreadId track) s
          = Some s'
        ∧ EventTrack.m_Picked forth = false
        ∧ EventTrack.m_Picked back = false.
Proof.
  split.
  - unfold EventTrack.OnRelease, EventTrack.SelectEvents.
    destruct (EventTrack.m_Picked track) eqn:Epicked.
    + destruct (SelectEvents_Some
                  (Vec2_0 (EventTrack.m_MousePos track).1)
                  (Vec2_0 (EventTrack.m_MousePos track).2)
                  (EventTrack.m_ThreadId track) s) as [[events s'] ->].
      cbn. exists (EventTrack.set_m_Picked false track), s'.
      split_and!; [done|done|done|reflexivity].
    + cbn. exists (EventTrack.set_m_Picked false track), s.
      split_and!; [done|done|done|reflexivity].
  - intros canvas x0 y0 x1 y1 Hcanvas Hcmp.
    unfold drag_gesture, EventTrack.OnPick, EventTrack.OnDrag,
      EventTrack.OnRelease, EventTrack.SelectEvents.
    rewrite Hcanvas. cbn. rewrite Hcanvas. cbn.
    rewrite (SelectEvents_swap _ _ (EventTrack.m_ThreadId track) s Hcmp).
    destruct (SelectEvents_Some
                (Vec2_0 (ScreenToWorld canvas x1 y1))
                (Vec2_0 (ScreenToWorld canvas x0 y0))
                (EventTrack.m_ThreadId track) s) as [[events s'] ->].
    cbn. eexists _, _, s'. split_and!; reflexivity.
Qed.

End EventTrackTheorems.

(** X22. [EventTrack::IsEmpty] answers whether the thread of the strip has
    no sampled event, and registers the thread in the event buffer while
    doing so: a thread that had no entry gets an empty one ([operator[]]
    inserts it).  Nothing else changes: the events of every thread read as
    before, no entry is lost, the buffer's time range is kept, and asking
    again returns the same answer and changes nothing. *)
Theorem EventTrack_IsEmpty_registers_thread track b :
  ∃ b',
    EventTrack.IsEmpty track b
    = (bool_decide
         (default ∅ (m_CallstackEvents b !! EventTrack.m_ThreadId track) = ∅),
       b')
    ∧ is_Some (m_CallstackEvents b' !! EventTrack.m_ThreadId track)
    ∧ (m_CallstackEvents b !! EventTrack.m_ThreadId track = None →
       m_CallstackEvents b'
       = <[EventTrack.m_ThreadId track := ∅]> (m_CallstackEvents b))
    ∧ (is_Some (m_CallstackEvents b !! EventTrack.m_ThreadId track) → b' = b)
    ∧ m_CallstackEvents b ⊆ m_CallstackEvents b'
    ∧ (∀ tid, default ∅ (m_CallstackEvents b' !! tid)
              = default ∅ (m_CallstackEvents b !! tid))
    ∧ m_MaxTime b' = m_MaxTime b ∧ m_MinTime b' = m_MinTime b
    ∧ EventTrack.IsEmpty track b' = ((EventTrack.IsEmpty track b).1, b').
Proof.
  unfold EventTrack.IsEmpty, EventBuffer_callstacks_at.
  destruct (m_CallstackEvents b !! EventTrack.m_ThreadId track)
    as [callstacks|] eqn:E.
  - exists b. rewrite E. cbn. by split_and!.
  - eexists. split; [done|]. cbn. rewrite lookup_insert_eq.
    split_and!; try done.
    + by apply insert_subseteq.
    + intros tid.
      destruct (decide (tid = EventTrack.m_ThreadId track)) as [->|Hne].
      * by rewrite lookup_insert_eq, E.
      * by rewrite lookup_insert_ne.
Qed.

(** X23. The tooltip of a picked sample.  [GetSampleTooltip] fails when the
    batcher has no user data for the picking id (a null pointer is
    dereferenced) and when the callstack of the sample resolves but has no
    frame ([m_Data[0]] is read); it returns the text "Unknown sampled
    event" when the user data carries no sample or the callstack id of the
    sample does not resolve; otherwise it returns the headline with the
    name of the first frame (cut at the first [NUL], as [%s] prints it)
    followed by one line per frame, where a frame without a known name
    reads [<i>???</i>]. *)
Theorem GetSampleTooltip_cases names g userData :
  EventTrack.GetSampleTooltip names g userData
  = match userData with
    | None => None
    | Some None => Some "Unknown sampled event"%string
    | Some (Some callstackEvent) =>
        match GSamplingProfiler_callstacks g !! m_Id callstackEvent with
        | None => Some "Unknown sampled event"%string
        | Some callstack =>
            match m_Data callstack with
            | [] => None
            | first :: _ =>
                Some (sample_tooltip names first (m_Data callstack))
            end
        end
    end.
Proof.
  unfold EventTrack.GetSampleTooltip.
  destruct userData as [[callstackEvent|]|]; try done. cbn [mbind option_bind].
  destruct (GSamplingProfiler_callstacks g !! m_Id callstackEvent)
    as [callstack|]; [|done].
  destruct (m_Data callstack) as [|first frames] eqn:E; [done|].
  cbn [lookup list_lookup mbind option_bind]. f_equal.
  rewrite (foldl_append_names
             (EventTrack.SafeGetFormattedFunctionName names)).
  unfold sample_tooltip. by rewrite !string_app_assoc.
Qed.
(** * Further properties at the example states *)

(** X1 at the freshly constructed graph, which has no string manager yet,
    and a gpu record. *)
Lemma ProcessTimer_fails_only_without_string_manager_example :
  (ProcessTimer (example_timer 3 1 2 0 GPU_ACTIVITY)
     (TimeGraph_new example_globals) = None
   ↔ m_Type (example_timer 3 1 2 0 GPU_ACTIVITY) = GPU_ACTIVITY
     ∧ string_manager_ (TimeGraph_new example_globals) = None)
  ∧ ∀ s', ProcessTimer (example_timer 3 1 2 0 GPU_ACTIVITY)
            (TimeGraph_new example_globals) = Some s' → State_ok s'.
Proof.
  apply (ProcessTimer_fails_only_without_string_manager
           (H := example_collaborators)).
  apply (bool_decide_unpack _). vm_compute. exact I.
Defined.

(** X2 at the fresh example graph and one context switch. *)
Lemma ProcessTimer_appends_to_one_track_example :
  ∃ p,
    receiving_track (example_timer 3 1 2 0 CORE_ACTIVITY) example_core_state
    = Some p
    ∧ (∀ q, track_boxes example_core_state q
            = if decide (q = p)
              then track_boxes example_fresh q
                   ++ [{| GetTimer := example_timer 3 1 2 0 CORE_ACTIVITY |}]
              else track_boxes example_fresh q)
    ∧ (m_Type (example_timer 3 1 2 0 CORE_ACTIVITY) ≠ GPU_ACTIVITY →
       is_Some (thread_tracks_ example_core_state
                  !! m_TID (example_timer 3 1 2 0 CORE_ACTIVITY))).
Proof.
  apply (ProcessTimer_appends_to_one_track (H := example_collaborators)).
  - apply (bool_decide_unpack _). vm_compute. exact I.
  - vm_compute. reflexivity.
Defined.

(** X3 at the example timers. *)
Lemma GetNumCores_counts_context_switch_processors_example :
  cores_seen_ example_state
  = cores_seen_ example_fresh ∪ core_processors example_timers
  ∧ (cores_seen_ example_fresh = ∅ →
     GetNumCores example_state
     = wrap32 (N.of_nat (size (core_processors example_timers))))
  ∧ GHasContextSwitches (globals example_state)
    = GHasContextSwitches (globals example_fresh)
      || bool_decide (Exists (λ t, m_Type t = CORE_ACTIVITY) example_timers).
Proof.
  apply (GetNumCores_counts_context_switch_processors
           (H := example_collaborators)).
  vm_compute. reflexivity.
Defined.

(** X4 at the example timers and the resolved function [100]. *)
Lemma GFunctionCountMap_counts_resolved_calls_example :
  GFunctionCountMap (globals example_state) !! 100
  = counter64_after (counted_calls (globals example_fresh) example_timers 100)
      (GFunctionCountMap (globals example_fresh) !! 100)
  ∧ GTargetProcess_functions (globals example_state)
    = GTargetProcess_functions (globals example_fresh).
Proof.
  apply (GFunctionCountMap_counts_resolved_calls
           (H := example_collaborators)).
  vm_compute. reflexivity.
Defined.

(** X5 at the example state with sampled events. *)
Lemma UpdateCaptureMinMaxTimestamps_recomputes_example :
  ∃ s', UpdateCaptureMinMaxTimestamps example_sampled_state
        = Some (negb (capture_min_timestamp_ s' =? UINT64_MAX), s')
    ∧ s' = set_capture_max_timestamp_ (capture_max_of example_sampled_state)
             (set_capture_min_timestamp_
                (capture_min_of example_sampled_state) example_sampled_state)
    ∧ UpdateCaptureMinMaxTimestamps s'
      = Some (negb (capture_min_timestamp_ s' =? UINT64_MAX), s')
    ∧ capture_max_timestamp_ example_sampled_state ≤ capture_max_timestamp_ s'
    ∧ capture_min_timestamp_ s' ≤ UINT64_MAX
    ∧ (∀ p v, p ∈ tracks_ example_sampled_state →
              track_min_time example_sampled_state p = Some v →
              capture_min_timestamp_ s' ≤ v)
    ∧ (EventBuffer_HasEvent (GEventBuffer (globals example_sampled_state))
       = true →
       capture_min_timestamp_ s'
       ≤ m_MinTime (GEventBuffer (globals example_sampled_state)))
    ∧ (capture_min_timestamp_ s' = UINT64_MAX
       ∨ (∃ p, p ∈ tracks_ example_sampled_state
               ∧ track_min_time example_sampled_state p
                 = Some (capture_min_timestamp_ s'))
       ∨ (EventBuffer_HasEvent (GEventBuffer (globals example_sampled_state))
          = true
          ∧ capture_min_timestamp_ s'
            = m_MinTime (GEventBuffer (globals example_sampled_state)))).
Proof.
  apply (UpdateCaptureMinMaxTimestamps_recomputes
           (H := example_collaborators)).
  apply (bool_decide_unpack _). vm_compute. exact I.
Defined.

(** X6 at the example state with sampled events. *)
Lemma window_stays_within_capture_example :
  (∀ a_MinTimeUs a_MaxTimeUs,
     ∃ s', SetMinMax a_MinTimeUs a_MaxTimeUs example_sampled_state = Some s'
           ∧ window_within_capture s')
  ∧ (∀ min max, ∃ s', Zoom min max example_sampled_state = Some s'
                      ∧ window_within_capture s')
  ∧ (∀ a_TextBox,
       ∃ s', Zoom_TextBox a_TextBox example_sampled_state = Some s'
             ∧ window_within_capture s')
  ∧ (∀ a_ZoomValue a_MouseRatio,
       ∃ s', ZoomTime a_ZoomValue a_MouseRatio example_sampled_state
             = Some s'
             ∧ (zoom_rejected a_ZoomValue a_MouseRatio
                  (view example_sampled_state) = false →
                window_within_capture s'))
  ∧ (∀ text_box distance,
       ∃ s', HorizontallyMoveIntoView text_box distance example_sampled_state
             = Some s'
             ∧ if IsVisible (GetTimer text_box) example_sampled_state
               then s' = example_sampled_state
               else window_within_capture s').
Proof.
  apply (window_stays_within_capture (H := example_collaborators)).
  apply (bool_decide_unpack _). vm_compute. exact I.
Defined.


(** X8 at the example state with sampled events, dragged to the right
    end. *)
Lemma OnDrag_places_window_example :
  ∃ s', OnDrag (Fp.of_pos Fp.fprec Fp.femax 1) example_sampled_state
        = Some s'
    ∧ m_MinTimeUs (view s')
      = Fp.dmul (Fp.to_double (Fp.of_pos Fp.fprec Fp.femax 1))
          (Fp.dsub (capture_span_of example_sampled_state)
             (GetCurrentTimeSpanUs example_sampled_state))
    ∧ m_MaxTimeUs (view s')
      = Fp.dadd (m_MinTimeUs (view s'))
          (GetCurrentTimeSpanUs example_sampled_state)
    ∧ m_NeedsUpdatePrimitives s'
      = m_NeedsUpdatePrimitives example_sampled_state
    ∧ m_NeedsRedraw s' = m_NeedsRedraw example_sampled_state
    ∧ (Fp.lt (Fp.of_pos Fp.fprec Fp.femax 1) Fp.zero = false →
       Fp.lt (Fp.dsub (capture_span_of example_sampled_state)
                (GetCurrentTimeSpanUs example_sampled_state)) Fp.zero
       = false →
       Fp.lt (m_MinTimeUs (view s')) Fp.zero = false).
Proof.
  apply (OnDrag_places_window (H := example_collaborators)).
  apply (bool_decide_unpack _). vm_compute. exact I.
Defined.

(** X10 at the example state. *)
Lemma GetAllTimerChains_holds_every_record_example :
  ∃ chains,
    GetAllTimerChains example_state = Some chains
    ∧ Forall is_Some chains
    ∧ chains_boxes chains = tracks_ example_state ≫= track_boxes example_state
    ∧ GetNumTimers example_state
      = Some (wrap32 (N.of_nat (length (chains_boxes chains))))
    ∧ ∀ box, thread_track_box example_state box → box ∈ chains_boxes chains.
Proof.
  apply GetAllTimerChains_holds_every_record.
  apply (bool_decide_unpack _). vm_compute. exact I.
Defined.

(** X11 at the example state and the second record of thread [7]. *)
Lemma same_function_jump_round_trip_example :
  (0 < m_End (GetTimer example_box) →
   ∀ next,
     FindNextFunctionCall (m_FunctionAddress (GetTimer example_box))
       (m_End (GetTimer example_box)) example_state = Some (Some next) →
     ∃ back,
       FindPreviousFunctionCall (m_FunctionAddress (GetTimer example_box))
         (m_End (GetTimer next)) example_state = Some (Some back)
       ∧ m_FunctionAddress (GetTimer back)
         = m_FunctionAddress (GetTimer example_box)
       ∧ m_End (GetTimer back) = m_End (GetTimer example_box))
  ∧ (m_End (GetTimer example_box) < UINT64_MAX →
     ∀ previous,
       FindPreviousFunctionCall (m_FunctionAddress (GetTimer example_box))
         (m_End (GetTimer example_box)) example_state
       = Some (Some previous) →
       ∃ forth,
         FindNextFunctionCall (m_FunctionAddress (GetTimer example_box))
           (m_End (GetTimer previous)) example_state = Some (Some forth)
         ∧ m_FunctionAddress (GetTimer forth)
           = m_FunctionAddress (GetTimer example_box)
         ∧ m_End (GetTimer forth) = m_End (GetTimer example_box)).
Proof.
  apply same_function_jump_round_trip.
  - apply (bool_decide_unpack _). vm_compute. exact I.
  - apply (bool_decide_unpack _). vm_compute. exact I.
  - exists 7, 2%nat. eexists. split_and!.
    + vm_compute. reflexivity.
    + vm_compute. reflexivity.
    + apply (bool_decide_unpack _). vm_compute. exact I.
Defined.


(** X15 at the example state with sampled events. *)
Lemma SortTracks_lists_each_track_once_example :
  ∃ s', SortTracks Fp.zero example_sampled_state = Some s'
    ∧ (∀ p, p ∈ sorted_tracks_ s' → p ∈ tracks_ s')
    ∧ (m_ThreadFilter example_sampled_state = EmptyString →
       NoDup (sorted_tracks_ s')).
Proof.
  apply (SortTracks_lists_each_track_once (H := example_collaborators)).
  - apply (bool_decide_unpack _). vm_compute. exact I.
  - apply (bool_decide_unpack _). vm_compute. exact I.
  - vm_compute. reflexivity.
Defined.

(** X16 at the example state after one frame. *)
Lemma DrawTracks_names_displayed_tracks_example :
  ∃ s', DrawTracks example_drawn_state = Some s'
    ∧ (∀ p t, objects example_drawn_state !! p = Some t →
              objects s' !! p = Some (drawn example_drawn_state p t)
              ∧ timers_ (drawn example_drawn_state p t) = timers_ t
              ∧ type_ (drawn example_drawn_state p t) = type_ t)
    ∧ length (objects s') = length (objects example_drawn_state)
    ∧ names_agree (globals example_drawn_state) (globals s')
    ∧ tracks_ s' = tracks_ example_drawn_state
    ∧ sorted_tracks_ s' = sorted_tracks_ example_drawn_state.
Proof.
  apply DrawTracks_names_displayed_tracks.
  - apply (bool_decide_unpack _). vm_compute. exact I.
  - apply (bool_decide_unpack _). vm_compute. exact I.
Defined.

(** X18 at the example state and the example session. *)
Lemma capture_max_timestamp_only_falls_in_Clear_example :
  (Forall (λ c, c ≠ Call_Clear) example_session →
   ∃ s', calls example_session example_state = Some s'
         ∧ capture_max_timestamp_ example_state ≤ capture_max_timestamp_ s')
  ∧ capture_max_timestamp_ (Clear example_state) = 0.
Proof.
  apply (capture_max_timestamp_only_falls_in_Clear
           (H := example_collaborators)).
  apply (bool_decide_unpack _). vm_compute. exact I.
Defined.

(** X19 at the example state after one frame. *)
Lemma Clear_keeps_stale_display_order_example :
  sorted_tracks_ (Clear example_drawn_state)
  = sorted_tracks_ example_drawn_state
  ∧ (∀ p, p ∈ sorted_tracks_ (Clear example_drawn_state) →
          p ∉ tracks_ (Clear example_drawn_state)
          ∧ objects (Clear example_drawn_state) !! p
            = objects example_drawn_state !! p
          ∧ is_Some (objects example_drawn_state !! p))
  ∧ string_manager_ (Clear example_drawn_state)
    = string_manager_ example_drawn_state
  ∧ m_EventCount (Clear example_drawn_state)
    = m_EventCount example_drawn_state
  ∧ selected_callstack_events_per_thread_ (Clear example_drawn_state)
    = selected_callstack_events_per_thread_ example_drawn_state
  ∧ view (Clear example_drawn_state) = view example_drawn_state
  ∧ m_ThreadFilter (Clear example_drawn_state)
    = m_ThreadFilter example_drawn_state
  ∧ m_NeedsUpdatePrimitives (Clear example_drawn_state)
    = m_NeedsUpdatePrimitives example_drawn_state
  ∧ m_NeedsRedraw (Clear example_drawn_state)
    = m_NeedsRedraw example_drawn_state.
Proof.
  apply Clear_keeps_stale_display_order.
  - apply (bool_decide_unpack _). vm_compute. exact I.
  - apply (bool_decide_unpack _). vm_compute. exact I.
Defined.

(** X20 at the example state with the filter [a b] typed before the first
    frame: the track of thread [7], whose name in [Capture::GThreadNames]
    would match, is not displayed. *)
Lemma name_filter_hides_unnamed_threads_example :
  ∃ s', SortTracks Fp.zero example_undrawn_filtered_state = Some s'
        ∧ 2%nat ∉ sorted_tracks_ s'.
Proof.
  apply (name_filter_hides_unnamed_threads (H := example_collaborators)
           Fp.zero example_undrawn_filtered_state 7 2%nat
           (default (Track_new kThreadTrack 7 0)
              (objects example_undrawn_filtered_state !! 2%nat))).
  - apply (bool_decide_unpack _). vm_compute. exact I.
  - apply (bool_decide_unpack _). vm_compute. exact I.
  - vm_compute. reflexivity.
  - apply (bool_decide_unpack _). vm_compute. exact I.
  - discriminate.
  - vm_compute. reflexivity.
  - vm_compute. reflexivity.
  - vm_compute. reflexivity.
Defined.

(** X9 at the example timers and thread [7]. *)
Lemma ProcessTimers_counts_example :
  m_ThreadCountMap example_state !! 7
  = counter_after (instrumented_calls example_timers 7)
      (m_ThreadCountMap example_fresh !! 7).
Proof.
  apply (ProcessTimers_counts (H := example_collaborators)).
  vm_compute. reflexivity.
Defined.
